(** * ScheduleBuilder: tokenizer, recursive-descent parser and group compiler

    A shallow embedding of [src/lib/ScheduleBuilder.js].  The builder turns a
    schedule text into tokens ([tokenize]), the tokens into a syntax tree
    ([buildAbstractSyntaxTree], [buildExpression], [buildArgument]) and the
    tree into rule groups ([compile], [compileGroup]).

    Conventions of the embedding.
    - JavaScript strings are [string]; the schedule text is taken to be
      ASCII, one character per array position.
    - JavaScript numbers that reach the builder are integers, kept as [Z];
      [x | 0] is [toInt32].  Numeric spellings whose value is not an exactly
      representable integer are outside the model: they yield [Unmodelled],
      never a made-up value.
    - [throw] is the [Throw] outcome; a property read on [undefined] is a
      [TypeError].  The cursor [i] is threaded explicitly, the token under
      the cursor is always [tokens !! i].
    - The two mutually recursive parsing methods take a fuel argument;
      [parseFuel] is shown to be enough for every token array. *)

From Stdlib Require Import ZArith Lia String Ascii List Bool DecimalString.
From stdpp Require Import base option list strings gmap.

Local Open Scope string_scope.
Local Open Scope Z_scope.

(** ** Tokens and outcomes *)

(** Modelled from the spec: [Token] (lib/Token.js is not among the sources).
    A token has its text, its source offset and the [isSpecial] flag set at
    creation. *)
Record Token := mkToken {
  index : nat;
  value : string;
  isSpecial : bool
}.

(** [new Token(index)] and [new Token(index, special)]. *)
Definition newToken (index : nat) (special : option string) : Token :=
  match special with
  | Some s => mkToken index s true
  | None => mkToken index "" false
  end.

Inductive Error :=
| SyntaxError (message : string) (token : Token)
| TypeError (what : string).

Inductive Result (A : Type) :=
| Ok (a : A)
| Throw (e : Error)
| Unmodelled
| OutOfFuel.
Arguments Ok {A} a.
Arguments Throw {A} e.
Arguments Unmodelled {A}.
Arguments OutOfFuel {A}.

#[global] Instance Result_ret : MRet Result := fun _ a => Ok a.
#[global] Instance Result_bind : MBind Result := fun _ _ f m =>
  match m with
  | Ok a => f a
  | Throw e => Throw e
  | Unmodelled => Unmodelled
  | OutOfFuel => OutOfFuel
  end.

Definition isOk {A} (r : Result A) : bool :=
  match r with Ok _ => true | _ => false end.

(** The [message] argument of the [syntaxError] call behind a thrown error. *)
Definition thrownMessage {A} (r : Result A) : option string :=
  match r with
  | Throw (SyntaxError m _) => Some m
  | _ => None
  end.

(** [this.syntaxError(message, token)]: the error is kept as the pair it is
    rendered from (see [syntaxErrorText] below); reading [token.index] of a
    missing token is a [TypeError]. *)
Definition syntaxError (message : string) (token : option Token) : Error :=
  match token with
  | Some t => SyntaxError message t
  | None => TypeError "token.index"
  end.

(** The text that [syntaxError] renders for its [SyntaxError]: the message,
    the part of the source text around the token and a caret under the
    token's offset. *)
Fixpoint pointer (i count tokenIndex : nat) : string :=
  match count with
  | O => ""
  | S count =>
      String (if (i =? tokenIndex)%nat then "^" else " ")%char
        (pointer (S i) count tokenIndex)
  end.

Definition newline : string := String "010"%char "".

Definition syntaxErrorText (text message : string) (token : Token) : string :=
  let startIndex := (index token - 10)%nat in
  let endIndex :=
    Nat.min (index token + String.length (value token) + 20) (String.length text) in
  let sub := substring startIndex (endIndex - startIndex) text in
  message ++ newline ++ "    " ++ sub ++ newline ++ "    "
    ++ pointer startIndex (endIndex - startIndex) (index token).

(** A property read [t.p] where [t] may be [undefined]. *)
Definition deref {A} (what : string) (t : option A) : Result A :=
  match t with
  | Some t => Ok t
  | None => Throw (TypeError what)
  end.

(** ** Tokenizer *)

Definition isWhitespace (c : ascii) : bool :=
  (c =? " ")%char || (c =? "009")%char || (c =? "010")%char || (c =? "013")%char.

Definition isSpecialChar (c : ascii) : bool :=
  (c =? "(")%char || (c =? ")")%char || (c =? "-")%char || (c =? ",")%char
  || (c =? "!")%char || (c =? "/")%char || (c =? "%")%char.

(** [if (token.value) tokens.push(token)] *)
Definition pushIfValue (token : Token) (tokens : list Token) : list Token :=
  if (value token =? "")%string then tokens else tokens ++ [token].

(** The [for] loop of [tokenize], at position [i] with [str] the text from
    [i] on. *)
Fixpoint tokenizeFrom (str : string) (i : nat) (token : Token)
    (tokens : list Token) : list Token :=
  match str with
  | EmptyString => pushIfValue token tokens
  | String c rest =>
      if isWhitespace c then
        tokenizeFrom rest (S i) (newToken (S i) None) (pushIfValue token tokens)
      else if isSpecialChar c then
        tokenizeFrom rest (S i) (newToken (S i) None)
          (pushIfValue token tokens ++ [newToken i (Some (String c EmptyString))])
      else
        tokenizeFrom rest (S i)
          (mkToken (index token) (value token ++ String c EmptyString) (isSpecial token))
          tokens
  end.

Definition tokenize (text : string) : list Token :=
  tokenizeFrom text 0 (newToken 0 None) [].

(** ** Numbers *)

Inductive NumberValue :=
| NaN
| Int (n : Z)
| OtherNumber.

Definition isDigit (c : ascii) : bool :=
  (48 <=? nat_of_ascii c)%nat && (nat_of_ascii c <=? 57)%nat.

Definition isLetter (c : ascii) : bool :=
  ((65 <=? nat_of_ascii c)%nat && (nat_of_ascii c <=? 90)%nat)
  || ((97 <=? nat_of_ascii c)%nat && (nat_of_ascii c <=? 122)%nat).

Fixpoint allDigits (s : string) : bool :=
  match s with
  | EmptyString => true
  | String c rest => isDigit c && allDigits rest
  end.

Fixpoint decimalValue (acc : Z) (s : string) : Z :=
  match s with
  | EmptyString => acc
  | String c rest => decimalValue (10 * acc + (Z.of_nat (nat_of_ascii c) - 48)) rest
  end.

(** [Number(s)] on a token text.  A run of decimal digits is its value when
    that is at most 2^53 (exactly representable); a text that starts with a
    letter other than [I], and a lone special character, are [NaN].  Every
    other spelling (fractions, exponents, signs, radix prefixes, Infinity,
    longer digit runs) is [OtherNumber]. *)
Definition Number (s : string) : NumberValue :=
  match s with
  | EmptyString => Int 0
  | String c rest =>
      if allDigits s then
        if decimalValue 0 s <=? 2 ^ 53 then Int (decimalValue 0 s) else OtherNumber
      else if isLetter c && negb (c =? "I")%char then NaN
      else if isSpecialChar c && (rest =? "")%string then NaN
      else OtherNumber
  end.

(** [x | 0] on an integer: the value modulo 2^32, read as signed. *)
Definition toInt32 (x : Z) : Z :=
  let m := x mod 2 ^ 32 in
  if 2 ^ 31 <=? m then m - 2 ^ 32 else m.

(** ** Syntax tree *)

(** Modelled from the spec: the collaborators of the builder that are not
    among the sources.  [isExpression], [isDayKeyword] and [toDayOfWeek] are
    the token's classification getters and its weekday lookup (lib/Token.js),
    [daysInMonth] is [Common.daysInMonth] on a zero-indexed month.  They are
    taken as parameters; the parser is verified for every choice. *)
Class Externals := {
  isExpression : Token -> bool;
  isDayKeyword : Token -> bool;
  toDayOfWeek : Token -> Z;
  daysInMonth : Z -> Z
}.

(** A bound of a range: a number, or the month/day pair built by
    [new Range(month, day)] for a date. *)
Inductive Bound :=
| BNum (n : Z)
| BDate (month day : Z).

(** The [type] of an [Argument] together with the [value] it carries:
    ['wildcard'] has [null], ['number'] a number, ['range'] and ['days'] a
    [Range] of two numbers, ['dates'] a [Range] of two month/day pairs. *)
Inductive ArgumentValue :=
| wildcard
| number (n : Z)
| range (low high : Z)
| days (low high : Z)
| dates (lowMonth lowDay highMonth highDay : Z).

(** Modelled from the spec: [Argument] (lib/Argument.js is not among the
    sources) keeps the arguments of [new Argument(type, value, isExclude,
    modulus, firstToken)], the type and value as one [ArgumentValue];
    [modulus] is [null] ([None]) when absent. *)
Record Argument := mkArgument {
  argValue : ArgumentValue;
  isExclude : bool;
  argModulus : option Z;
  argFirstToken : Token
}.

(** An element of an [arguments] array or of [ast]: an [Argument], or the
    [cmd] object [{type: 'expression', name, arguments, firstToken}]. *)
#[warnings="-register-all"]
Inductive Node :=
| NArgument (a : Argument)
| NExpression (name : string) (arguments : list Node) (firstToken : Token).

Definition nodeFirstToken (n : Node) : Token :=
  match n with
  | NArgument a => argFirstToken a
  | NExpression _ _ t => t
  end.

(** ** Parser *)

Section Parser.
Context {ext : Externals}.
Variable tokens : list Token.

Definition ensureToken (token : option Token) : Result unit :=
  match token with
  | Some _ => Ok ()
  | None =>
      Throw (syntaxError "Unexpected end of format string."
               (tokens !! (length tokens - 1)%nat))
  end.

(** The closure [parseNumber]; [t] is [tokens !! i] throughout.  Returns
    the number and the advanced cursor. *)
Definition parseNumber (i : nat) : Result (Z * nat) :=
  t ← deref "t.isSpecial" (tokens !! i);
  '(negative, i) ←
    (if isSpecial t then
       if (value t =? "-")%string then Ok (true, S i)
       else Throw (SyntaxError "Unexpected token in argument." t)
     else Ok (false, i));
  t ← deref "t.value" (tokens !! i);
  match Number (value t) with
  | NaN => Throw (SyntaxError "Unknown argument syntax. Expected a number." t)
  | OtherNumber => Unmodelled
  | Int num =>
      let num := if negative : bool then - num else num in
      ensureToken (tokens !! S i);;
      Ok (num, S i)
  end.

(** The closure [parseNumberOrDate]. *)
Definition parseNumberOrDate (firstToken : Token) (i : nat) : Result (Bound * nat) :=
  '(num, i) ← parseNumber i;
  t ← deref "t.value" (tokens !! i);
  if negb (value t =? "/")%string then Ok (BNum num, i)
  else
    let month := num in
    if (month <? 1) || (month >? 12) then
      Throw (SyntaxError "Invalid Month" firstToken)
    else
      ensureToken (tokens !! S i);;
      '(day, i) ← parseNumber (S i);
      if (day <? 1) || (day >? daysInMonth (month - 1)) then
        Throw (SyntaxError "Invalid Date" firstToken)
      else Ok (BDate month day, i).

(** The part of [buildArgument] from [var low, high] to the modulus check:
    the argument's type and value, and the cursor after them. *)
Definition parseValue (firstToken : Token) (i : nat) : Result (ArgumentValue * nat) :=
  t ← deref "t.value" (tokens !! i);
  if (value t =? "%")%string then Ok (wildcard, i)
  else
    '(low, isDay, i) ←
      (if isDayKeyword t then
         ensureToken (tokens !! S i);;
         Ok (BNum (toDayOfWeek t), true, S i)
       else
         '(low, i) ← parseNumberOrDate firstToken i;
         Ok (low, false, i));
    t ← deref "t.value" (tokens !! i);
    if (value t =? "-")%string then
      ensureToken (tokens !! S i);;
      t ← deref "t.isDayKeyword" (tokens !! S i);
      match low with
      | BNum low =>
          if isDayKeyword t then Ok (days low (toDayOfWeek t), S (S i))
          else
            '(high, i) ← parseNumberOrDate firstToken (S i);
            match high with
            | BDate _ _ =>
                Throw (SyntaxError "Cannot mix numeric and date ranges." firstToken)
            | BNum high => Ok (if isDay : bool then days low high else range low high, i)
            end
      | BDate lowMonth lowDay =>
          '(high, i) ← parseNumberOrDate firstToken (S i);
          match high with
          | BNum _ =>
              Throw (SyntaxError "Cannot mix numeric and date ranges." firstToken)
          | BDate highMonth highDay => Ok (dates lowMonth lowDay highMonth highDay, i)
          end
      end
    else
      match low with
      | BDate month day => Ok (dates month day month day, i)
      | BNum low => Ok (if isDay : bool then days low low else number low, i)
      end.

(** The modulus component and the final [context.push]. *)
Definition finishArgument (firstToken : Token) (isExclude : bool)
    (v : ArgumentValue) (i : nat) (context : list Node) : Result (nat * list Node) :=
  t ← deref "t.value" (tokens !! i);
  '(modulus, i) ←
    (if (value t =? "%")%string then
       ensureToken (tokens !! S i);;
       '(k, i) ← parseNumber (S i);
       Ok (Some k, i)
     else Ok (None, i));
  Ok (i, (context ++ [NArgument (mkArgument v isExclude modulus firstToken)])%list).

(** The three recursive pieces are written with their recursive calls as
    parameters and tied together on the fuel below. *)
Definition Builder := nat -> list Node -> Result (nat * list Node).

(** [buildArgument(i, context)] *)
Definition buildArgumentBody (buildExpression : Builder) : Builder :=
  fun i context =>
    ensureToken (tokens !! i);;
    firstToken ← deref "t" (tokens !! i);
    '(isExclude, i) ←
      (if (value firstToken =? "!")%string then
         ensureToken (tokens !! S i);; Ok (true, S i)
       else Ok (false, i));
    t ← deref "t.isSpecial" (tokens !! i);
    if isSpecial t && (value t =? ")")%string then Ok (i, context)
    else if isSpecial t && (value t =? ",")%string then
      Throw (SyntaxError "Empty argument" t)
    else if isExpression t then
      if isExclude : bool then
        Throw (syntaxError "Unexpected token in argument." (tokens !! (i - 1)%nat))
      else buildExpression i context
    else
      '(v, i) ← parseValue firstToken i;
      finishArgument firstToken isExclude v i context.

(** [buildExpression(i, context)]; [buildArguments] is its [while] loop,
    started on the empty [cmd.arguments]. *)
Definition buildExpressionBody (buildArguments : Builder) : Builder :=
  fun i context =>
    let start := i in
    first ← deref "tokens[i].value" (tokens !! i);
    let i := S i in
    if (length tokens <=? i)%nat then
      Throw (syntaxError "Expression has no opening parenthesis." (tokens !! (i - 1)%nat))
    else
      t ← deref "tokens[i].value" (tokens !! i);
      if negb (value t =? "(")%string then
        Throw (SyntaxError "Unexpected an opening parenthesis." t)
      else
        '(i, arguments) ← buildArguments (S i) [];
        match tokens !! i with
        | Some t =>
            if negb (value t =? ")")%string then
              Throw (syntaxError "Expression is missing a closing parenthesis."
                       (tokens !! start))
            else Ok (S i, (context ++ [NExpression (value first) arguments first])%list)
        | None =>
            Throw (syntaxError "Expression is missing a closing parenthesis."
                     (tokens !! start))
        end.

(** The [while (tokens[i])] loop of [buildExpression]: returns the cursor it
    stops at and the arguments collected. *)
Definition buildArgumentsBody (buildArgument buildArguments : Builder) : Builder :=
  fun i arguments =>
    match tokens !! i with
    | None => Ok (i, arguments)
    | Some t =>
        if (value t =? ")")%string then Ok (i, arguments)
        else
          '(i, arguments) ← buildArgument i arguments;
          let i :=
            match tokens !! i with
            | Some t => if (value t =? ",")%string then S i else i
            | None => i
            end in
          buildArguments i arguments
    end.

Fixpoint buildArgument (fuel : nat) : Builder :=
  match fuel with
  | O => fun _ _ => OutOfFuel
  | S fuel => buildArgumentBody (buildExpression fuel)
  end
with buildExpression (fuel : nat) : Builder :=
  match fuel with
  | O => fun _ _ => OutOfFuel
  | S fuel => buildExpressionBody (buildArguments fuel)
  end
with buildArguments (fuel : nat) : Builder :=
  match fuel with
  | O => fun _ _ => OutOfFuel
  | S fuel => buildArgumentsBody (buildArgument fuel) (buildArguments fuel)
  end.

(** The [while (i < this.tokens.length)] loop of [buildAbstractSyntaxTree]. *)
Fixpoint buildDocument (fuel : nat) (i : nat) (ast : list Node) : Result (list Node) :=
  match fuel with
  | O => OutOfFuel
  | S fuel =>
      match tokens !! i with
      | None => Ok ast
      | Some t =>
          if isExpression t then
            '(i, ast) ← buildExpression fuel i ast;
            buildDocument fuel i ast
          else if (0 <? i)%nat && (value t =? ",")%string then
            buildDocument fuel (S i) ast
          else
            Throw (SyntaxError "Unexpected token. Expected a expression." t)
      end
  end.

(** Fuel that suffices for [tokens]: every call consumes a token or is
    followed by one that does. *)
Definition parseFuel : nat := (3 * length tokens + 3)%nat.

Definition buildAbstractSyntaxTree : Result (list Node) :=
  buildDocument parseFuel 0%nat [].
End Parser.

(** ** Rule groups *)

(** Modelled from the spec: [Range] (lib/Range.js is not among the sources):
    [new Range(low, high, split, modulus)] keeps its four arguments, and a
    [split] or [modulus] left out is [false] and absent. *)
Record Range := mkRange {
  low : Bound;
  high : Bound;
  split : bool;
  modulus : option Z
}.

(** Modelled from the spec: [RuleGroup] (lib/RuleGroup.js is not among the
    sources) is the object whose properties [seconds], [secondsExclude], ...
    are read and set as [rule[prop]]; a fresh one has no list set. *)
Abbreviation RuleGroup := (gmap string (list Range)).

(** [if (!rule[prop]) rule[prop] = []; rule[prop].push(r)] *)
Definition pushRange (prop : string) (r : Range) (rule : RuleGroup) : RuleGroup :=
  <[prop := (default [] (rule !! prop) ++ [r])%list]> rule.

(** [rule.seconds || rule.secondsExclude], and likewise for the other fields:
    an array, even an empty one, is truthy. *)
Definition isSet (rule : RuleGroup) (prop : string) : bool :=
  bool_decide (is_Some (rule !! prop)).

Definition oneOf (name : string) (names : list string) : bool :=
  existsb (String.eqb name) names.

(** The [switch (name)] of [compileGroup]: the field and its bounds. *)
Definition fieldOf (name : string) : option (string * Z * Z) :=
  if oneOf name ["s"; "sec"; "second"; "seconds"; "secondofminute"; "secondsofminute"]
  then Some ("seconds", 0, 59)
  else if oneOf name ["m"; "min"; "minute"; "minutes"; "minuteofhour"; "minutesofhour"]
  then Some ("minutes", 0, 59)
  else if oneOf name ["h"; "hour"; "hours"; "hourofday"; "hoursofday"]
  then Some ("hours", 0, 23)
  else if oneOf name ["day"; "days"; "dow"; "dayofweek"; "daysofweek"]
  then Some ("daysOfWeek", 1, 7)
  else if oneOf name ["dom"; "dayofmonth"; "daysofmonth"]
  then Some ("daysOfMonth", -31, 31)
  else if oneOf name ["date"; "dates"]
  then Some ("dates", 1, 31)
  else None.

Definition isAscii (s : string) : bool :=
  forallb (fun c => (nat_of_ascii c <? 128)%nat) (list_ascii_of_string s).

Definition lowerChar (c : ascii) : ascii :=
  if (65 <=? nat_of_ascii c)%nat && (nat_of_ascii c <=? 90)%nat
  then ascii_of_nat (nat_of_ascii c + 32) else c.

(** [s.toLowerCase()] on ASCII text. *)
Fixpoint toLowerCase (s : string) : string :=
  match s with
  | EmptyString => EmptyString
  | String c rest => String (lowerChar c) (toLowerCase rest)
  end.

(** The text of an integer in a concatenated message. *)
Definition numberToString (n : Z) : string :=
  NilZero.string_of_int (Z.to_int n).

(** [arg.modulus] used as a condition: [null] and [0] are falsy. *)
Definition truthy (m : option Z) : bool :=
  match m with
  | Some k => negb (k =? 0)
  | None => false
  end.

Section Normalize.
Variables (name propType : string) (min max : Z).

(** The day-of-week branch on a ['days'] or ['range'] argument. *)
Definition normalizeDays (m : option Z) (l h : Z) : Z * Z * bool :=
  let low := toInt32 l in
  let high := toInt32 h in
  if high <? low then (low, high, true)
  else if truthy m && (high =? low) then (low, max, false)
  else (low, high, false).

(** The branches of the argument loop that pick [low], [high] and [split]
    for a field other than [dates]. *)
Definition normalizeNumeric (arg : Node) : Result (Z * Z * bool) :=
  let invalid :=
    if (propType =? "daysOfWeek")%string then
      Throw (SyntaxError ("Invalid argument in " ++ name ++ " expression.")
               (nodeFirstToken arg))
    else Throw (SyntaxError "Invalid Argument" (nodeFirstToken arg)) in
  match arg with
  | NExpression _ _ _ => invalid
  | NArgument a =>
      match argValue a with
      | wildcard =>
          Ok (if (propType =? "daysOfMonth")%string then 1 else min, max, false)
      | days l h =>
          if negb (propType =? "daysOfWeek")%string then
            Throw (SyntaxError
                     "Weekday names can only be used inside daysOfWeek expressions."
                     (argFirstToken a))
          else Ok (normalizeDays (argModulus a) l h)
      | number n =>
          let low := toInt32 n in
          Ok (low, if truthy (argModulus a) then max else low, false)
      | range l h =>
          if (propType =? "daysOfWeek")%string then
            Ok (normalizeDays (argModulus a) l h)
          else
            let low := toInt32 l in
            let high := toInt32 h in
            Ok (low, high, (low >? high) && negb ((low >=? 0) && (high <? 0)))
      | dates _ _ _ _ => invalid
      end
  end.

(** The bounds validation of a field other than [dates], with the shift of
    day-of-week values. *)
Definition validate (firstToken : Token) (low high : Z) : Result (Z * Z) :=
  if (low <? min) || (high <? min) then
    Throw (SyntaxError ("Minimum " ++ propType ++ " value is " ++ numberToString min)
             firstToken)
  else if (high >? max) || (low >? max) then
    Throw (SyntaxError ("Maximum " ++ propType ++ " value is " ++ numberToString max)
             firstToken)
  else if (propType =? "daysOfMonth")%string && ((low =? 0) || (high =? 0)) then
    Throw (SyntaxError "Day of month cannot be zero." firstToken)
  else if (propType =? "daysOfWeek")%string then Ok (low - 1, high - 1)
  else Ok (low, high).

(** The [dates] branch.  The test for ['wildcard'] is not chained to the
    one for ['dates'] with an [else], so a wildcard falls into the
    [throw]. *)
Definition normalizeDates (arg : Node) : Result (Bound * Bound * bool) :=
  match arg with
  | NArgument (mkArgument (dates lowMonth lowDay highMonth highDay) _ _ _) =>
      let lowMonth := toInt32 lowMonth in
      let lowDay := toInt32 lowDay in
      let highMonth := toInt32 highMonth in
      let highDay := toInt32 highDay in
      let split :=
        (lowMonth >=? highMonth)
        && ((lowMonth >? highMonth) || (lowDay >? highDay)) in
      Ok (BDate (lowMonth - 1) lowDay, BDate (highMonth - 1) highDay, split)
  | _ =>
      Throw (SyntaxError "Invalid argument. Expected a date." (nodeFirstToken arg))
  end.

Definition nodeModulus (arg : Node) : option Z :=
  match arg with
  | NArgument a => argModulus a
  | NExpression _ _ _ => None
  end.

Definition nodeIsExclude (arg : Node) : bool :=
  match arg with
  | NArgument a => isExclude a
  | NExpression _ _ _ => false
  end.

(** The normalized [Range] of one argument. *)
Definition normalize (arg : Node) : Result Range :=
  '(low, high, split) ←
    (if (propType =? "dates")%string then normalizeDates arg
     else
       '(low, high, split) ← normalizeNumeric arg;
       '(low, high) ← validate (nodeFirstToken arg) low high;
       Ok (BNum low, BNum high, split));
  match nodeModulus arg with
  | Some k =>
      if k <? 0 then
        Throw (SyntaxError "Modulus value cannot be negative." (nodeFirstToken arg))
      else Ok (mkRange low high split (Some k))
  | None => Ok (mkRange low high split None)
  end.

(** One pass of the loop over [args]. *)
Definition compileArgument (arg : Node) (rule : RuleGroup) : Result RuleGroup :=
  r ← normalize arg;
  let prop := if nodeIsExclude arg then propType ++ "Exclude" else propType in
  Ok (pushRange prop r rule).

(** The loop over [args]; [somethingSet] becomes true with every pass. *)
Fixpoint compileArguments (args : list Node) (state : RuleGroup * bool)
    : Result (RuleGroup * bool) :=
  match args with
  | [] => Ok state
  | arg :: args =>
      rule ← compileArgument arg (fst state);
      compileArguments args (rule, true)
  end.
End Normalize.

(** One pass of the loop over [expressions]. *)
Definition compileExpression (cmd : Node) (state : RuleGroup * bool)
    : Result (RuleGroup * bool) :=
  match cmd with
  | NArgument a => Throw (SyntaxError "Expected a expression argument." (argFirstToken a))
  | NExpression cmdName arguments firstToken =>
      if negb (isAscii cmdName) then Unmodelled
      else
        let name := toLowerCase cmdName in
        match fieldOf name with
        | None => Throw (SyntaxError ("Unknown expression " ++ cmdName) firstToken)
        | Some (propType, min, max) =>
            match arguments with
            | [] =>
                if (propType =? "dates")%string then Ok (fst state, true)
                else
                  compileArguments name propType min max
                    [NArgument (mkArgument (range min max) false None firstToken)]
                    state
            | _ => compileArguments name propType min max arguments state
            end
        end
  end.

Fixpoint compileExpressions (expressions : list Node) (state : RuleGroup * bool)
    : Result (RuleGroup * bool) :=
  match expressions with
  | [] => Ok state
  | cmd :: expressions =>
      state ← compileExpression cmd state;
      compileExpressions expressions state
  end.

(** [new Range(0, 0)] *)
Definition Range00 : Range := mkRange (BNum 0) (BNum 0) false None.

(** The implied values set up at the end of [compileGroup]. *)
Definition impliedValues (rule : RuleGroup) : RuleGroup :=
  if isSet rule "seconds" || isSet rule "secondsExclude" then rule
  else if isSet rule "minutes" || isSet rule "minutesExclude" then
    <["seconds" := [Range00]]> rule
  else if isSet rule "hours" || isSet rule "hoursExclude" then
    <["minutes" := [Range00]]> (<["seconds" := [Range00]]> rule)
  else
    <["hours" := [Range00]]>
      (<["minutes" := [Range00]]> (<["seconds" := [Range00]]> rule)).

(** [compileGroup]; [None] is the [null] it returns when nothing was set. *)
Definition compileGroup (expressions : list Node) : Result (option RuleGroup) :=
  '(rule, somethingSet) ← compileExpressions expressions (∅, false);
  if negb somethingSet then Ok None
  else Ok (Some (impliedValues rule)).

(** The loop of [compile] over [ast], from the node at position [i]. *)
Fixpoint compileNodes (ast : list Node) (rules : list RuleGroup)
    (globalExpressions : list Node) : Result (list RuleGroup * list Node) :=
  match ast with
  | [] => Ok (rules, globalExpressions)
  | cmd :: ast =>
      match cmd with
      | NArgument a =>
          Throw (SyntaxError "Syntax Tree is invalid. Top-level item is not a expression."
                   (argFirstToken a))
      | NExpression name arguments firstToken =>
          if (name =? "group")%string then
            rule ← compileGroup arguments;
            match rule with
            | None => Throw (SyntaxError "No rules in schedule." firstToken)
            | Some rule => compileNodes ast (rules ++ [rule])%list globalExpressions
            end
          else compileNodes ast rules (globalExpressions ++ [cmd])%list
      end
  end.

Definition compile (ast : list Node) : Result (list RuleGroup) :=
  '(rules, globalExpressions) ← compileNodes ast [] [];
  if (0 <? length globalExpressions)%nat then
    rule ← compileGroup globalExpressions;
    match rule with
    | None =>
        (* [globalExpressions[i]] with [i] left at [ast.length] by the loop *)
        g ← deref "globalExpressions[i].firstToken" (globalExpressions !! length ast);
        Throw (SyntaxError "No rules in schedule." (nodeFirstToken g))
    | Some rule => Ok (rules ++ [rule])%list
    end
  else Ok rules.

(** The whole pipeline on a text: [tokenize], [buildAbstractSyntaxTree],
    [compile], on a fresh builder. *)
Definition schedule {ext : Externals} (text : string) : Result (list RuleGroup) :=
  ast ← buildAbstractSyntaxTree (tokenize text);
  compile ast.

(** ** A concrete choice of the collaborators *)

Definition fieldKeywords : list string :=
  ["s"; "sec"; "second"; "seconds"; "secondofminute"; "secondsofminute";
   "m"; "min"; "minute"; "minutes"; "minuteofhour"; "minutesofhour";
   "h"; "hour"; "hours"; "hourofday"; "hoursofday";
   "day"; "days"; "dow"; "dayofweek"; "daysofweek";
   "dom"; "dayofmonth"; "daysofmonth";
   "date"; "dates"; "group"].

Definition weekdayOrdinal (s : string) : option Z :=
  if oneOf s ["mon"; "monday"] then Some 1
  else if oneOf s ["tue"; "tuesday"] then Some 2
  else if oneOf s ["wed"; "wednesday"] then Some 3
  else if oneOf s ["thu"; "thursday"] then Some 4
  else if oneOf s ["fri"; "friday"] then Some 5
  else if oneOf s ["sat"; "saturday"] then Some 6
  else if oneOf s ["sun"; "sunday"] then Some 7
  else None.

(** Modelled from the spec: the token classification of lib/Token.js and
    [Common.daysInMonth], which are not among the sources.  An expression
    token is an identifier recognized as a field or group keyword, a day
    keyword is a weekday name, resolved to its ordinal 1 (Monday) to 7
    (Sunday), and the days-in-month lookup takes a zero-indexed month
    (February counted with its leap day).  Used for the concrete schedules
    below; the general results hold for every [Externals]. *)
Definition specExternals : Externals := {|
  isExpression t := negb (isSpecial t) && oneOf (toLowerCase (value t)) fieldKeywords;
  isDayKeyword t :=
    negb (isSpecial t) && bool_decide (is_Some (weekdayOrdinal (toLowerCase (value t))));
  toDayOfWeek t := default 0 (weekdayOrdinal (toLowerCase (value t)));
  daysInMonth m :=
    nth (Z.to_nat m) [31; 29; 31; 30; 31; 30; 31; 31; 30; 31; 30; 31] 0
|}.

Definition specSchedule (text : string) : Result (list RuleGroup) :=
  schedule (ext := specExternals) text.


(** * Properties *)

(** ** The outcome monad *)

Lemma bind_Ok {A B} (m : Result A) (k : A -> Result B) (b : B) :
  m ≫= k = Ok b -> exists a, m = Ok a /\ k a = Ok b.
Proof. destruct m; simpl; intros E; try discriminate; eauto. Qed.

Lemma bind_Ok_eq {A B} (m : Result A) (k : A -> Result B) (a : A) :
  m = Ok a -> m ≫= k = k a.
Proof. intros ->; reflexivity. Qed.

(** Inverts the binds of a successful run, one at a time. *)
Ltac invertOk H :=
  let a := fresh "a" in
  let E := fresh "E" in
  apply bind_Ok in H; destruct H as (a & E & H).

(** [approx r r']: [r'] is [r], unless [r] ran out of fuel. *)
Definition approx {A} (r r' : Result A) : Prop := r = OutOfFuel \/ r = r'.

Lemma approx_refl {A} (r : Result A) : approx r r.
Proof. right; reflexivity. Qed.

Lemma approx_bind {A B} (m m' : Result A) (k k' : A -> Result B) :
  approx m m' -> (forall a, approx (k a) (k' a)) -> approx (m ≫= k) (m' ≫= k').
Proof.
  intros [-> | ->] Hk; [left; reflexivity|].
  destruct m'; simpl; try (right; reflexivity). apply Hk.
Qed.

Lemma approx_Ok {A} (r r' : Result A) (a : A) : approx r r' -> r = Ok a -> r' = Ok a.
Proof. intros [-> | ->]; [discriminate | trivial]. Qed.

Lemma approx_trans {A} (r1 r2 r3 : Result A) : approx r1 r2 -> approx r2 r3 -> approx r1 r3.
Proof. intros [-> | ->]; [left; reflexivity | trivial]. Qed.

(** The rendered text of an error starts with the message given to
    [syntaxError]. *)
Lemma syntaxErrorText_message text message token :
  String.prefix message (syntaxErrorText text message token) = true.
Proof.
  unfold syntaxErrorText. generalize (newline ++ "    "
    ++ substring (index token - 10)
         (Nat.min (index token + String.length (value token) + 20) (String.length text)
          - (index token - 10)) text
    ++ newline ++ "    "
    ++ pointer (index token - 10)
         (Nat.min (index token + String.length (value token) + 20) (String.length text)
          - (index token - 10)) (index token)).
  intros rest. induction message as [|c message IH]; [by destruct rest|].
  change (String c message ++ rest) with (String c (message ++ rest)).
  simpl. destruct (ascii_dec c c); [exact IH | contradiction].
Qed.

(** ** Fuel *)

Section Fuel.
Context {ext : Externals}.
Variable tokens : list Token.

Lemma ensureToken_Ok t u : ensureToken tokens t = Ok u -> is_Some t.
Proof. destruct t; simpl; [eauto | discriminate]. Qed.

Lemma deref_Ok {A} what (t : option A) a : deref what t = Ok a -> t = Some a.
Proof. destruct t; simpl; congruence. Qed.

Definition approxBuilder (b b' : Builder) : Prop := forall i c, approx (b i c) (b' i c).

Lemma buildArgumentBody_approx e e' :
  approxBuilder e e' ->
  approxBuilder (buildArgumentBody tokens e) (buildArgumentBody tokens e').
Proof.
  intros He i c. unfold buildArgumentBody.
  apply approx_bind; [apply approx_refl|intros _].
  apply approx_bind; [apply approx_refl|intros firstToken].
  apply approx_bind; [apply approx_refl|intros [isEx j]].
  apply approx_bind; [apply approx_refl|intros t].
  repeat (match goal with |- approx (if ?b then _ else _) _ => destruct b end;
          try apply approx_refl).
  apply He.
Qed.

Lemma buildExpressionBody_approx l l' :
  approxBuilder l l' ->
  approxBuilder (buildExpressionBody tokens l) (buildExpressionBody tokens l').
Proof.
  intros Hl i c. unfold buildExpressionBody.
  apply approx_bind; [apply approx_refl|intros first].
  destruct (length tokens <=? S i)%nat; [apply approx_refl|].
  apply approx_bind; [apply approx_refl|intros t].
  destruct (negb (value t =? "(")%string); [apply approx_refl|].
  apply approx_bind; [apply Hl | intros [j args]; apply approx_refl].
Qed.

Lemma buildArgumentsBody_approx a a' l l' :
  approxBuilder a a' -> approxBuilder l l' ->
  approxBuilder (buildArgumentsBody tokens a l) (buildArgumentsBody tokens a' l').
Proof.
  intros Ha Hl i c. unfold buildArgumentsBody.
  destruct (tokens !! i) as [t|]; [|apply approx_refl].
  destruct (value t =? ")")%string; [apply approx_refl|].
  apply approx_bind; [apply Ha | intros [j args]; apply Hl].
Qed.

(** More fuel never changes an outcome other than [OutOfFuel]. *)
Lemma fuel_step fuel :
  approxBuilder (buildArgument tokens fuel) (buildArgument tokens (S fuel))
  /\ approxBuilder (buildExpression tokens fuel) (buildExpression tokens (S fuel))
  /\ approxBuilder (buildArguments tokens fuel) (buildArguments tokens (S fuel)).
Proof.
  induction fuel as [|fuel (IHa & IHe & IHl)].
  { repeat split; intros i c; left; reflexivity. }
  repeat split.
  - apply buildArgumentBody_approx, IHe.
  - apply buildExpressionBody_approx, IHl.
  - apply buildArgumentsBody_approx; [apply IHa | apply IHl].
Qed.

Lemma fuel_mono fuel fuel' :
  (fuel <= fuel')%nat ->
  approxBuilder (buildArgument tokens fuel) (buildArgument tokens fuel')
  /\ approxBuilder (buildExpression tokens fuel) (buildExpression tokens fuel')
  /\ approxBuilder (buildArguments tokens fuel) (buildArguments tokens fuel').
Proof.
  induction 1 as [|fuel' _ (IHa & IHe & IHl)].
  { repeat split; intros i c; apply approx_refl. }
  destruct (fuel_step fuel') as (Sa & Se & Sl).
  repeat split; intros i c; eapply approx_trans; eauto.
Qed.
End Fuel.

(** ** Progress of the cursor *)

(** Splits a successful run into its steps: binds, conditionals and matches
    are taken apart and the failing branches dropped. *)
Ltac stepOk H :=
  match type of H with
  | (_ ≫= _) = Ok _ =>
      let a := fresh "a" in
      let E := fresh "E" in
      apply bind_Ok in H; destruct H as (a & E & H)
  | (let '(_, _) := ?p in _) = Ok _ => destruct p
  | (if true then _ else _) = Ok _ => cbv beta iota in H
  | (if false then _ else _) = Ok _ => cbv beta iota in H
  | (if ?b then _ else _) = Ok _ =>
      let C := fresh "C" in destruct b eqn:C
  | (match ?x with _ => _ end) = Ok _ =>
      let C := fresh "C" in destruct x eqn:C
  | Throw _ = Ok _ => discriminate H
  | Unmodelled = Ok _ => discriminate H
  | OutOfFuel = Ok _ => discriminate H
  | Ok _ = Ok _ => simplify_eq
  end.

(** Steps through every hypothesis that is a successful run. *)
Ltac stepsOk := repeat match goal with H : _ = Ok _ |- _ => stepOk H end.

Section Progress.
Context {ext : Externals}.
Variable tokens : list Token.

Lemma ensureToken_lt i u : ensureToken tokens (tokens !! i) = Ok u -> (i < length tokens)%nat.
Proof. intros H%ensureToken_Ok. by apply lookup_lt_is_Some. Qed.

Lemma parseNumber_progress i n i' :
  parseNumber tokens i = Ok (n, i') -> (i < i')%nat /\ (i' < length tokens)%nat.
Proof.
  unfold parseNumber. intros H. repeat stepOk H.
  apply ensureToken_lt in E2. repeat stepOk E0; lia.
Qed.

Lemma parseNumberOrDate_progress ft i b i' :
  parseNumberOrDate tokens ft i = Ok (b, i') -> (i < i')%nat /\ (i' < length tokens)%nat.
Proof.
  unfold parseNumberOrDate. intros H. repeat stepOk H;
    repeat match goal with
           | E : parseNumber _ _ = Ok _ |- _ => apply parseNumber_progress in E
           end; lia.
Qed.

Ltac progressFacts :=
  repeat match goal with
         | E : parseNumber _ _ = Ok _ |- _ => apply parseNumber_progress in E
         | E : parseNumberOrDate _ _ _ = Ok _ |- _ => apply parseNumberOrDate_progress in E
         | E : ensureToken _ (_ !! _) = Ok _ |- _ => apply ensureToken_lt in E
         | E : deref _ (_ !! _) = Ok _ |- _ => apply deref_Ok in E
         end.

(** A wildcard leaves the cursor on its [%]; every other value moves it. *)
Lemma parseValue_progress ft i v i' :
  parseValue tokens ft i = Ok (v, i') ->
  (i <= i')%nat /\ (i' <= length tokens)%nat
  /\ ((i < i')%nat \/ i' = i /\ exists t, tokens !! i = Some t /\ value t = "%").
Proof.
  unfold parseValue. intros H. stepOk H. apply deref_Ok in E. stepOk H.
  { stepOk H. apply String.eqb_eq in C. apply lookup_lt_Some in E as L.
    split; [lia|]. split; [lia|]. right. eauto. }
  repeat stepOk H; repeat stepOk E0; progressFacts; lia.
Qed.

Lemma finishArgument_progress ft ex v i c i' c' :
  finishArgument tokens ft ex v i c = Ok (i', c') ->
  (i <= i')%nat /\ (i' < length tokens)%nat
  /\ (forall t, tokens !! i = Some t -> value t = "%" -> (i < i')%nat)
  /\ exists m, c' = (c ++ [NArgument (mkArgument v ex m ft)])%list.
Proof.
  unfold finishArgument. intros H. stepOk H. apply deref_Ok in E.
  apply lookup_lt_Some in E as L. repeat stepOk H; repeat stepOk E0; progressFacts.
  - repeat split; eauto; lia.
  - repeat split; eauto. intros t Ht Hv. rewrite E in Ht. injection Ht as <-.
    rewrite Hv in C. discriminate.
Qed.

(** What the three builders are shown to satisfy, together, on a given
    fuel. *)
Definition advances (b : Builder) : Prop :=
  forall i c i' c', b i c = Ok (i', c') -> (i < i')%nat.
Definition advancesOffParen (b : Builder) : Prop :=
  forall i c i' c', b i c = Ok (i', c') ->
    (i <= i')%nat
    /\ (forall t, tokens !! i = Some t -> value t <> ")" -> (i < i')%nat).
Definition neverBack (b : Builder) : Prop :=
  forall i c i' c', b i c = Ok (i', c') -> (i <= i')%nat.

Lemma buildArgumentBody_progress e :
  advances e -> advancesOffParen (buildArgumentBody tokens e).
Proof.
  intros He i c i' c' H. unfold buildArgumentBody in H.
  stepOk H. stepOk H. apply deref_Ok in E0. stepOk H. destruct a1 as [ex j].
  assert (Hj : (i <= j)%nat /\ ((i < j)%nat \/ (j = i /\ (value a0 =? "!")%string = false))).
  { repeat stepOk E1; (split; [lia|]); [left; lia | right; split; [lia | reflexivity]]. }
  clear E1. stepOk H. apply deref_Ok in E1.
  assert (Hi' : (j <= i')%nat /\ ((j < i')%nat \/ (value a1 =? ")")%string = true)).
  { repeat stepOk H.
    - apply andb_prop in C as [_ C]. split; [lia | right; exact C].
    - apply He in H. split; [lia | left; lia].
    - apply parseValue_progress in E2 as (L1 & L2 & [L3|(-> & t & Ht & Hv)]);
        apply finishArgument_progress in H as (M1 & M2 & M3 & _);
        (split; [lia | left]); [lia|].
      specialize (M3 _ Ht Hv). lia. }
  split; [lia|]. intros t Ht Hv. destruct Hj as [_ [Hj|[-> Hj]]]; [lia|].
  destruct Hi' as [_ [Hi'|Hi']]; [lia|].
  rewrite E0 in Ht, E1. injection Ht as <-. injection E1 as <-.
  apply String.eqb_eq in Hi'. contradiction.
Qed.

Lemma buildExpressionBody_progress l :
  neverBack l -> advances (buildExpressionBody tokens l).
Proof.
  intros Hl i c i' c' H. unfold buildExpressionBody in H.
  repeat stepOk H. apply Hl in E1. lia.
Qed.

Lemma buildArgumentsBody_progress a l :
  advancesOffParen a -> neverBack l -> neverBack (buildArgumentsBody tokens a l).
Proof.
  intros Ha Hl i c i' c' H. unfold buildArgumentsBody in H.
  repeat stepOk H; try lia; apply Ha in E as [E _]; apply Hl in H.
  match type of H with
  | (match ?x with _ => _ end <= _)%nat =>
      destruct x as [u|]; [destruct (value u =? ",")%string|]; lia
  end.
Qed.

Lemma builders_progress fuel :
  advancesOffParen (buildArgument tokens fuel)
  /\ advances (buildExpression tokens fuel)
  /\ neverBack (buildArguments tokens fuel).
Proof.
  induction fuel as [|fuel (IHa & IHe & IHl)].
  { split; [|split]; intros i c i' c' H; discriminate H. }
  split; [|split].
  - apply buildArgumentBody_progress, IHe.
  - apply buildExpressionBody_progress, IHl.
  - apply buildArgumentsBody_progress; [apply IHa | apply IHl].
Qed.
End Progress.

(** ** The fuel of [parseFuel] is enough *)

Definition fueled {A} (r : Result A) : Prop := r <> OutOfFuel.

Lemma fueled_bind {A B} (m : Result A) (k : A -> Result B) :
  fueled m -> (forall a, m = Ok a -> fueled (k a)) -> fueled (m ≫= k).
Proof. destruct m; simpl; unfold fueled; intros Hm Hk; try congruence. by apply Hk. Qed.

Lemma fueled_approx {A} (r r' : Result A) : fueled r -> approx r r' -> r = r'.
Proof. intros Hr [E | E]; [contradiction | exact E]. Qed.

(** Proves that a term built from fuel-free pieces is [fueled]. *)
Ltac fueledSteps :=
  repeat first
    [ discriminate
    | match goal with
      | H : fueled ?r |- fueled ?r => exact H
      | |- fueled (Ok _) => unfold fueled; discriminate
      | |- fueled (Throw _) => unfold fueled; discriminate
      | |- fueled Unmodelled => unfold fueled; discriminate
      | |- fueled (_ ≫= _) => apply fueled_bind; [|intros ? ?]
      | |- fueled (let '(_, _) := ?p in _) => destruct p
      | |- fueled (if ?b then _ else _) => destruct b
      | |- fueled (match ?x with _ => _ end) => destruct x
      end ].

Section Adequacy.
Context {ext : Externals}.
Variable tokens : list Token.

Lemma ensureToken_fueled t : fueled (ensureToken tokens t).
Proof. unfold ensureToken. fueledSteps. Qed.

Lemma deref_fueled {A} what (t : option A) : fueled (deref what t).
Proof. unfold deref. fueledSteps. Qed.

Lemma parseNumber_fueled i : fueled (parseNumber tokens i).
Proof.
  unfold parseNumber.
  fueledSteps; first [apply deref_fueled | apply ensureToken_fueled].
Qed.

Lemma parseNumberOrDate_fueled ft i : fueled (parseNumberOrDate tokens ft i).
Proof.
  unfold parseNumberOrDate.
  fueledSteps;
    first [apply deref_fueled | apply ensureToken_fueled | apply parseNumber_fueled].
Qed.

Lemma parseValue_fueled ft i : fueled (parseValue tokens ft i).
Proof.
  unfold parseValue.
  fueledSteps;
    first [apply deref_fueled | apply ensureToken_fueled | apply parseNumberOrDate_fueled].
Qed.

Lemma finishArgument_fueled ft ex v i c : fueled (finishArgument tokens ft ex v i c).
Proof.
  unfold finishArgument.
  fueledSteps;
    first [apply deref_fueled | apply ensureToken_fueled | apply parseNumber_fueled].
Qed.

Lemma buildArgumentBody_fueled e i c :
  (forall j c', (i <= j)%nat -> fueled (e j c')) ->
  fueled (buildArgumentBody tokens e i c).
Proof.
  intros He. unfold buildArgumentBody.
  apply fueled_bind; [apply ensureToken_fueled | intros _ _].
  apply fueled_bind; [apply deref_fueled | intros firstToken _].
  apply fueled_bind; [fueledSteps; apply ensureToken_fueled | intros [ex j] Hj].
  assert (i <= j)%nat by (repeat stepOk Hj; lia).
  apply fueled_bind; [apply deref_fueled | intros t _].
  fueledSteps; first [by apply He | apply parseValue_fueled | apply finishArgument_fueled].
Qed.

Lemma buildExpressionBody_fueled l i c :
  ((S i < length tokens)%nat -> fueled (l (S (S i)) [])) ->
  fueled (buildExpressionBody tokens l i c).
Proof.
  intros Hl. unfold buildExpressionBody.
  apply fueled_bind; [apply deref_fueled | intros first _].
  destruct (length tokens <=? S i)%nat eqn:L; [fueledSteps|].
  apply Nat.leb_gt in L.
  fueledSteps; first [apply deref_fueled | by apply Hl].
Qed.

Lemma buildArgumentsBody_fueled a l i c :
  advancesOffParen tokens a ->
  (forall c', fueled (a i c')) ->
  (forall j c', (i < j)%nat -> (i < length tokens)%nat -> fueled (l j c')) ->
  fueled (buildArgumentsBody tokens a l i c).
Proof.
  intros Hadv Ha Hl. unfold buildArgumentsBody.
  destruct (tokens !! i) as [t|] eqn:Ht; [|fueledSteps].
  destruct (value t =? ")")%string eqn:Hv; [fueledSteps|].
  apply fueled_bind; [apply Ha | intros [j args] Hj].
  apply Hadv in Hj as [_ Hj]. specialize (Hj t Ht).
  apply String.eqb_neq in Hv. specialize (Hj Hv).
  apply lookup_lt_Some in Ht.
  apply Hl; [|exact Ht].
  destruct (tokens !! j) as [u|]; [destruct (value u =? ",")%string|]; lia.
Qed.

Lemma builders_fueled fuel :
  (forall i c, (3 * (length tokens - i) + 2 <= fuel)%nat ->
               fueled (buildArgument tokens fuel i c))
  /\ (forall i c, (3 * (length tokens - i) + 1 <= fuel)%nat ->
                  fueled (buildExpression tokens fuel i c))
  /\ (forall i c, (3 * (length tokens - i) + 3 <= fuel)%nat ->
                  fueled (buildArguments tokens fuel i c)).
Proof.
  induction fuel as [|fuel (IHa & IHe & IHl)].
  { split; [|split]; intros i c H; lia. }
  split; [|split]; intros i c H.
  - apply buildArgumentBody_fueled. intros j c' Hj. apply IHe. lia.
  - apply buildExpressionBody_fueled. intros Hi. apply IHl. lia.
  - apply buildArgumentsBody_fueled.
    + apply builders_progress.
    + intros c'. apply IHa. lia.
    + intros j c' Hj Hi. apply IHl. lia.
Qed.

Lemma buildDocument_fueled fuel i ast :
  (3 * (length tokens - i) + 3 <= fuel)%nat -> fueled (buildDocument tokens fuel i ast).
Proof.
  revert i ast. induction fuel as [|fuel IH]; intros i ast H; [lia|].
  cbn [buildDocument].
  destruct (tokens !! i) as [t|] eqn:Ht; [|fueledSteps].
  apply lookup_lt_Some in Ht.
  destruct (isExpression t).
  - apply fueled_bind; [apply builders_fueled; lia | intros [j ast'] Hj].
    apply builders_progress in Hj. apply IH. lia.
  - fueledSteps. apply IH. lia.
Qed.

(** [buildAbstractSyntaxTree] never runs out of fuel. *)
Lemma buildAbstractSyntaxTree_fueled : fueled (buildAbstractSyntaxTree tokens).
Proof. apply buildDocument_fueled. unfold parseFuel. lia. Qed.

(** A result reached on some fuel is the result on every sufficient fuel. *)
Lemma buildExpression_enough fuel fuel' i c r :
  buildExpression tokens fuel i c = Ok r ->
  (3 * (length tokens - i) + 1 <= fuel')%nat ->
  buildExpression tokens fuel' i c = Ok r.
Proof.
  intros H Hf.
  pose proof (proj1 (proj2 (builders_fueled fuel')) i c Hf) as F.
  destruct (fuel_mono tokens fuel (Nat.max fuel fuel') (Nat.le_max_l _ _)) as (_ & M1 & _).
  destruct (fuel_mono tokens fuel' (Nat.max fuel fuel') (Nat.le_max_r _ _)) as (_ & M2 & _).
  rewrite (fueled_approx _ _ F (M2 i c)).
  eapply approx_Ok; [apply M1 | exact H].
Qed.
End Adequacy.

(** ** Parsing inside a longer token array *)

(** [T2] holds the tokens of [T1] from position [o] on, possibly followed by
    more: a run that succeeds on [T1] succeeds on [T2], shifted by [o]. *)
Definition embedded (T1 T2 : list Token) (o : nat) : Prop :=
  forall j t, T1 !! j = Some t -> T2 !! (o + j)%nat = Some t.

Lemma embedded_app pre seg post : embedded seg (pre ++ seg ++ post) (length pre).
Proof.
  intros j t H. rewrite lookup_app_r by lia.
  replace (length pre + j - length pre)%nat with j by lia.
  by apply lookup_app_l_Some.
Qed.

Section Embedding.
Context {ext : Externals}.
Variables (T1 T2 : list Token) (o : nat).
Hypothesis sub : embedded T1 T2 o.

Lemma embedded_ensure j u :
  ensureToken T1 (T1 !! j) = Ok u -> ensureToken T2 (T2 !! (o + j)%nat) = Ok ().
Proof. intros [t Ht]%ensureToken_Ok. by rewrite (sub _ _ Ht). Qed.

Lemma embedded_deref what j t :
  deref what (T1 !! j) = Ok t -> T2 !! (o + j)%nat = Some t.
Proof. intros Ht%deref_Ok. by apply sub. Qed.

(** Moves the facts of a run on [T1] over to [T2] and replays them in the
    goal. *)
Ltac replay :=
  repeat match goal with
         | E : ensureToken T1 (T1 !! _) = Ok _ |- _ => apply embedded_ensure in E
         | E : deref _ (T1 !! _) = Ok _ |- _ => apply embedded_deref in E
         | E : T1 !! _ = Some _ |- _ => apply sub in E
         end;
  repeat match goal with
         | E : ?x = Some ?a, E' : ?x = Some ?b |- _ =>
             rewrite E in E'; injection E' as <-
         end;
  rewrite ?Nat.add_succ_r in *;
  repeat match goal with
         | E : ?x = _ |- context [?x] => rewrite E; simpl
         end;
  try reflexivity.

Lemma embedded_parseNumber k n k' :
  parseNumber T1 k = Ok (n, k') -> parseNumber T2 (o + k) = Ok (n, (o + k')%nat).
Proof.
  unfold parseNumber. intros H. repeat stepOk H; repeat stepOk E0; replay.
Qed.

Lemma embedded_parseNumberOrDate ft k b k' :
  parseNumberOrDate T1 ft k = Ok (b, k') ->
  parseNumberOrDate T2 ft (o + k) = Ok (b, (o + k')%nat).
Proof.
  unfold parseNumberOrDate. intros H. repeat stepOk H;
    repeat match goal with
           | E : parseNumber T1 _ = Ok _ |- _ => apply embedded_parseNumber in E
           end; replay.
Qed.

Lemma embedded_parseValue ft k v k' :
  parseValue T1 ft k = Ok (v, k') -> parseValue T2 ft (o + k) = Ok (v, (o + k')%nat).
Proof.
  unfold parseValue. intros H. repeat stepOk H; repeat stepOk E0;
    repeat match goal with
           | E : parseNumberOrDate T1 _ _ = Ok _ |- _ =>
               apply embedded_parseNumberOrDate in E
           end; try discriminate; replay.
Qed.

Lemma embedded_finishArgument ft ex v k c k' c' :
  finishArgument T1 ft ex v k c = Ok (k', c') ->
  finishArgument T2 ft ex v (o + k) c = Ok ((o + k')%nat, c').
Proof.
  unfold finishArgument. intros H. repeat stepOk H; repeat stepOk E0;
    repeat match goal with
           | E : parseNumber T1 _ = Ok _ |- _ => apply embedded_parseNumber in E
           end; replay.
Qed.

Definition embeds (b1 b2 : Builder) : Prop :=
  forall k c k' c', b1 k c = Ok (k', c') -> b2 (o + k)%nat c = Ok ((o + k')%nat, c').

(** For the loop, which also stops at the end of the array: the run must
    have stopped on a token. *)
Definition embedsLoop (b1 b2 : Builder) : Prop :=
  forall k c k' c', b1 k c = Ok (k', c') -> is_Some (T1 !! k') ->
    b2 (o + k)%nat c = Ok ((o + k')%nat, c').

Lemma embedded_buildArgumentBody e1 e2 :
  embeds e1 e2 -> embeds (buildArgumentBody T1 e1) (buildArgumentBody T2 e2).
Proof.
  intros He k c k' c' H. unfold buildArgumentBody in *.
  repeat stepOk H; repeat stepOk E1;
    repeat match goal with
           | E : parseValue T1 _ _ = Ok _ |- _ => apply embedded_parseValue in E
           | E : finishArgument T1 _ _ _ _ _ = Ok _ |- _ =>
               apply embedded_finishArgument in E
           | E : e1 _ _ = Ok _ |- _ => apply He in E
           end; try discriminate; replay.
Qed.

Lemma embedded_buildExpressionBody l1 l2 :
  embedsLoop l1 l2 -> embeds (buildExpressionBody T1 l1) (buildExpressionBody T2 l2).
Proof.
  intros Hl k c k' c' H. unfold buildExpressionBody in *.
  repeat stepOk H.
  pose proof (Hl _ _ _ _ E1 (ex_intro _ _ C1)) as E1'. clear E1.
  assert (L : (length T2 <=? S (o + k))%nat = false).
  { apply Nat.leb_gt. apply deref_Ok, sub, lookup_lt_Some in E0. lia. }
  replay.
Qed.

Lemma embedded_buildArgumentsBody a1 a2 l1 l2 :
  neverBack l1 -> embeds a1 a2 -> embedsLoop l1 l2 ->
  embedsLoop (buildArgumentsBody T1 a1 l1) (buildArgumentsBody T2 a2 l2).
Proof.
  intros Hback Ha Hl k c k' c' H [t' Hk']. unfold buildArgumentsBody in *.
  destruct (T1 !! k) as [t|] eqn:Ht; [|injection H as <- <-; congruence].
  rewrite (sub _ _ Ht).
  destruct (value t =? ")")%string; [by injection H as <- <-|].
  stepOk H. destruct a as [j args]. rewrite (Ha _ _ _ _ E). simpl.
  destruct (T1 !! j) as [u|] eqn:Hu.
  - rewrite (sub _ _ Hu). destruct (value u =? ",")%string.
    + rewrite <- Nat.add_succ_r. apply Hl; eauto.
    + apply Hl; eauto.
  - apply Hback in H. apply lookup_ge_None in Hu. apply lookup_lt_Some in Hk'. lia.
Qed.

Lemma embedded_builders fuel :
  embeds (buildArgument T1 fuel) (buildArgument T2 fuel)
  /\ embeds (buildExpression T1 fuel) (buildExpression T2 fuel)
  /\ embedsLoop (buildArguments T1 fuel) (buildArguments T2 fuel).
Proof.
  induction fuel as [|fuel (IHa & IHe & IHl)].
  { split; [|split]; intros k c k' c' H; discriminate H. }
  split; [|split].
  - apply embedded_buildArgumentBody, IHe.
  - apply embedded_buildExpressionBody, IHl.
  - apply embedded_buildArgumentsBody; [apply builders_progress | apply IHa | apply IHl].
Qed.
End Embedding.

(** ** Parsing a slice on its own *)

(** [T2] is the window of [n] tokens of [T1] that starts at [o]: a run on
    [T1] that starts in the window and stays in it is a run on [T2]. *)
Definition window (T1 T2 : list Token) (o n : nat) : Prop :=
  length T2 = n /\ forall j, (j < n)%nat -> T2 !! j = T1 !! (o + j)%nat.

Lemma window_slice (T : list Token) (o n : nat) :
  (o + n <= length T)%nat -> window T (take n (drop o T)) o n.
Proof.
  intros H. split.
  - rewrite length_take, length_drop. lia.
  - intros j Hj. rewrite lookup_take_lt by lia. by rewrite lookup_drop.
Qed.

Section Window.
Context {ext : Externals}.
Variables (T1 T2 : list Token) (o n : nat).
Hypothesis win : window T1 T2 o n.

Lemma window_lookup j t :
  T1 !! (o + j)%nat = Some t -> (j < n)%nat -> T2 !! j = Some t.
Proof. intros H Hj. destruct win as [_ W]. by rewrite W. Qed.

Lemma window_ensure j :
  is_Some (T1 !! (o + j)%nat) -> (j < n)%nat -> ensureToken T2 (T2 !! j) = Ok ().
Proof. intros [t H] Hj. by rewrite (window_lookup _ _ H Hj). Qed.

(** Turns the facts of a run on [T1] into facts on [T2] (the positions are
    in the window by [lia]) and replays them in the goal. *)
Ltac pull :=
  repeat match goal with
         | E : ensureToken T1 (T1 !! _) = Ok _ |- _ => apply ensureToken_Ok in E
         | E : deref _ (T1 !! _) = Ok _ |- _ => apply deref_Ok in E
         end;
  rewrite <- ?Nat.add_succ_r in *;
  repeat match goal with
         | E : ?x = Some ?a, E' : ?x = Some ?b |- _ =>
             rewrite E in E'; injection E' as <-
         end;
  repeat match goal with
         | E : is_Some (T1 !! (o + ?j)%nat) |- _ =>
             apply (fun H => window_ensure j H ltac:(lia)) in E
         | E : T1 !! (o + ?j)%nat = Some _ |- _ =>
             apply (fun H => window_lookup j _ H ltac:(lia)) in E
         end;
  repeat match goal with
         | E : ?x = _ |- context [?x] => rewrite E; simpl
         end;
  try reflexivity.

Lemma window_parseNumber k x i' :
  parseNumber T1 (o + k) = Ok (x, i') -> (i' < o + n)%nat ->
  exists k', parseNumber T2 k = Ok (x, k') /\ i' = (o + k')%nat.
Proof.
  unfold parseNumber. intros H Hi'.
  repeat stepOk H; repeat stepOk E0; (eexists; split; [pull | lia]).
Qed.

(** Records how far each sub-run moved the cursor. *)
Ltac notePositions :=
  repeat match goal with
         | E : parseNumber T1 ?p = Ok (_, ?j) |- _ =>
             lazymatch goal with
             | _ : (p < j)%nat /\ (j < length T1)%nat |- _ => fail
             | _ => pose proof (parseNumber_progress _ _ _ _ E)
             end
         | E : parseNumberOrDate T1 _ ?p = Ok (_, ?j) |- _ =>
             lazymatch goal with
             | _ : (p < j)%nat /\ (j < length T1)%nat |- _ => fail
             | _ => pose proof (parseNumberOrDate_progress _ _ _ _ _ E)
             end
         end.

Lemma window_parseNumberOrDate ft k b i' :
  parseNumberOrDate T1 ft (o + k) = Ok (b, i') -> (i' < o + n)%nat ->
  exists k', parseNumberOrDate T2 ft k = Ok (b, k') /\ i' = (o + k')%nat.
Proof.
  unfold parseNumberOrDate. intros H Hi'.
  repeat stepOk H; notePositions;
    repeat (rewrite <- ?Nat.add_succ_r in *;
            match goal with
            | E : parseNumber T1 (o + _)%nat = Ok _ |- _ =>
                apply window_parseNumber in E; [destruct E as (? & E & ->) | lia]
            end);
    (eexists; split; [pull | lia]).
Qed.

Lemma window_parseValue ft k v i' :
  parseValue T1 ft (o + k) = Ok (v, i') -> (i' < o + n)%nat ->
  exists k', parseValue T2 ft k = Ok (v, k') /\ i' = (o + k')%nat.
Proof.
  unfold parseValue. intros H Hi'.
  repeat stepOk H; repeat stepOk E0; try discriminate; notePositions;
    repeat (rewrite <- ?Nat.add_succ_r in *;
            match goal with
            | E : parseNumberOrDate T1 _ (o + _)%nat = Ok _ |- _ =>
                apply window_parseNumberOrDate in E; [destruct E as (? & E & ->) | lia]
            end);
    (eexists; split; [pull | lia]).
Qed.

Lemma window_finishArgument ft ex v k c i' c' :
  finishArgument T1 ft ex v (o + k) c = Ok (i', c') -> (i' < o + n)%nat ->
  exists k', finishArgument T2 ft ex v k c = Ok (k', c') /\ i' = (o + k')%nat.
Proof.
  unfold finishArgument. intros H Hi'.
  repeat stepOk H; repeat stepOk E0; notePositions;
    repeat (rewrite <- ?Nat.add_succ_r in *;
            match goal with
            | E : parseNumber T1 (o + _)%nat = Ok _ |- _ =>
                apply window_parseNumber in E; [destruct E as (? & E & ->) | lia]
            end);
    (eexists; split; [pull | lia]).
Qed.

Definition windowed (b1 b2 : Builder) : Prop :=
  forall k c i' c', b1 (o + k)%nat c = Ok (i', c') -> (i' < o + n)%nat ->
    exists k', b2 k c = Ok (k', c') /\ i' = (o + k')%nat.

(** For [buildExpression], which returns the position after its last
    token: the run may end where the window ends. *)
Definition windowedTo (b1 b2 : Builder) : Prop :=
  forall k c i' c', b1 (o + k)%nat c = Ok (i', c') -> (i' <= o + n)%nat ->
    exists k', b2 k c = Ok (k', c') /\ i' = (o + k')%nat.

Lemma window_buildArgumentBody e1 e2 :
  advances e1 -> windowedTo e1 e2 ->
  windowed (buildArgumentBody T1 e1) (buildArgumentBody T2 e2).
Proof.
  intros Hadv He k c i' c' H Hi'. unfold buildArgumentBody in *.
  unfold windowedTo in He.
  repeat stepOk H; repeat stepOk E1;
    repeat match goal with
           | E : parseValue T1 _ _ = Ok _ |- _ =>
               pose proof (parseValue_progress _ _ _ _ _ E) as (? & ? & _); revert E
           | E : finishArgument T1 _ _ _ _ _ = Ok _ |- _ =>
               pose proof (finishArgument_progress _ _ _ _ _ _ _ _ E) as (? & ? & _);
               revert E
           | E : e1 _ _ = Ok _ |- _ => pose proof (Hadv _ _ _ _ E); revert E
           end; intros;
    repeat (rewrite <- ?Nat.add_succ_r in *;
            match goal with
            | E : parseValue T1 _ (o + _)%nat = Ok _ |- _ =>
                apply window_parseValue in E; [destruct E as (? & E & ->) | lia]
            | E : finishArgument T1 _ _ _ (o + _)%nat _ = Ok _ |- _ =>
                apply window_finishArgument in E; [destruct E as (? & E & ->) | lia]
            | E : e1 (o + _)%nat _ = Ok _ |- _ =>
                apply He in E; [destruct E as (? & E & ->) | lia]
            end);
    (eexists; split; [pull | lia]).
Qed.

Lemma window_buildExpressionBody l1 l2 :
  neverBack l1 -> windowed l1 l2 ->
  windowedTo (buildExpressionBody T1 l1) (buildExpressionBody T2 l2).
Proof.
  intros Hback Hl k c i' c' H Hi'. unfold buildExpressionBody in *.
  unfold windowed in Hl.
  repeat stepOk H.
  pose proof (Hback _ _ _ _ E1).
  rewrite <- ?Nat.add_succ_r in *.
  apply Hl in E1; [destruct E1 as (k1 & E1 & ->) | lia].
  assert (L : (length T2 <=? S k)%nat = false).
  { apply Nat.leb_gt. destruct win as [-> _]. lia. }
  eexists; split; [pull | lia].
Qed.

Lemma window_buildArgumentsBody a1 a2 l1 l2 :
  neverBack a1 -> neverBack l1 -> windowed a1 a2 -> windowed l1 l2 ->
  windowed (buildArgumentsBody T1 a1 l1) (buildArgumentsBody T2 a2 l2).
Proof.
  intros Ha' Hback Ha Hl k c i' c' H Hi'. unfold buildArgumentsBody in *.
  unfold windowed in Ha, Hl.
  destruct (T1 !! (o + k)%nat) as [t|] eqn:Ht.
  2: { injection H as <- <-. destruct win as [_ W]. rewrite W, Ht by lia. eauto. }
  destruct (value t =? ")")%string eqn:Hv.
  { injection H as <- <-. destruct win as [_ W]. rewrite W, Ht, Hv by lia. eauto. }
  stepOk H. destruct a as [j args].
  pose proof (Ha' _ _ _ _ E). pose proof (Hback _ _ _ _ H).
  assert (j < o + n)%nat.
  { destruct (T1 !! j) as [u|]; [destruct (value u =? ",")%string|]; lia. }
  apply Ha in E; [destruct E as (k1 & E & ->) | lia].
  assert (Hk : (k < n)%nat) by lia.
  assert (Hk1 : (k1 < n)%nat) by lia.
  destruct win as [_ W]. rewrite (W _ Hk), Ht, Hv, E. simpl. rewrite (W _ Hk1).
  destruct (T1 !! (o + k1)%nat) as [u|]; [destruct (value u =? ",")%string|].
  - rewrite <- Nat.add_succ_r in H. by apply Hl in H.
  - by apply Hl in H.
  - by apply Hl in H.
Qed.

Lemma window_builders fuel :
  windowed (buildArgument T1 fuel) (buildArgument T2 fuel)
  /\ windowedTo (buildExpression T1 fuel) (buildExpression T2 fuel)
  /\ windowed (buildArguments T1 fuel) (buildArguments T2 fuel).
Proof.
  induction fuel as [|fuel (IHa & IHe & IHl)].
  { split; [|split]; intros k c k' c' H; discriminate H. }
  destruct (builders_progress T1 fuel) as (Pa & Pe & Pl).
  split; [|split].
  - by apply window_buildArgumentBody.
  - by apply window_buildExpressionBody.
  - apply window_buildArgumentsBody; try done.
    intros i c i' c' H. by apply Pa in H as [H _].
Qed.
End Window.

(** ** The top-level document *)

(** A document seen as the grammar sees it: a sequence of items, each a
    top-level comma or the tokens of one expression with the node they
    build. *)
Inductive Item :=
| Comma (t : Token)
| Expression (ts : list Token) (node : Node).

Definition itemTokens (it : Item) : list Token :=
  match it with
  | Comma t => [t]
  | Expression ts _ => ts
  end.

Definition itemNodes (it : Item) : list Node :=
  match it with
  | Comma _ => []
  | Expression _ node => [node]
  end.

Definition documentTokens (items : list Item) : list Token :=
  concat (map itemTokens items).

Definition documentNodes (items : list Item) : list Node :=
  concat (map itemNodes items).

Definition startsWithComma (items : list Item) : bool :=
  match items with
  | Comma _ :: _ => true
  | _ => false
  end.

(** A comma item is a [,] token; an expression item starts with an
    expression keyword and its tokens, parsed on their own by
    [buildExpression], give the node and are used up. *)
Definition wellFormed {ext : Externals} (it : Item) : Prop :=
  match it with
  | Comma t => value t = "," /\ isExpression t = false
  | Expression ts node =>
      (exists t, ts !! 0%nat = Some t /\ isExpression t = true)
      /\ exists fuel, buildExpression ts fuel 0%nat [] = Ok (length ts, [node])
  end.

Section Document.
Context {ext : Externals}.

(** [buildExpression] reads its context only to push the node. *)
Lemma buildExpression_context tokens fuel i c i' c' :
  buildExpression tokens fuel i c = Ok (i', c') ->
  exists node, c' = (c ++ [node])%list
    /\ forall c2, buildExpression tokens fuel i c2 = Ok (i', (c2 ++ [node])%list).
Proof.
  destruct fuel as [|fuel]; [discriminate|]. cbn [buildExpression].
  unfold buildExpressionBody. intros H. repeat stepOk H.
  eexists; split; [reflexivity|]. intros c2.
  repeat match goal with
         | E : ?x = _ |- context [?x] => rewrite E; simpl
         end.
  reflexivity.
Qed.

Lemma buildExpression_bound tokens fuel i c i' c' :
  buildExpression tokens fuel i c = Ok (i', c') -> (i' <= length tokens)%nat.
Proof.
  destruct fuel as [|fuel]; [discriminate|]. cbn [buildExpression].
  unfold buildExpressionBody. intros H. repeat stepOk H.
  apply lookup_lt_Some in C1. lia.
Qed.

(** The loop of [buildAbstractSyntaxTree] walks over well-formed items. *)
Lemma buildDocument_items items :
  forall pre suffix ast fuel,
    Forall wellFormed items ->
    (pre = [] -> startsWithComma items = false) ->
    let tokens := (pre ++ documentTokens items ++ suffix)%list in
    (3 * (length tokens - length pre) + 3 <= fuel)%nat ->
    buildDocument tokens fuel (length pre) ast
    = buildDocument tokens (fuel - length items)
        (length pre + length (documentTokens items)) (ast ++ documentNodes items).
Proof.
  induction items as [|it items IH]; intros pre suffix ast fuel Hwf Hpre tokens Hfuel.
  { simpl. by rewrite Nat.sub_0_r, Nat.add_0_r, app_nil_r. }
  apply Forall_cons in Hwf as [Hit Hwf].
  destruct fuel as [|fuel]; [lia|].
  destruct it as [t|ts node]; simpl in Hit.
  - destruct Hit as [Hv Hx].
    assert (Ht : tokens !! length pre = Some t).
    { unfold tokens. by rewrite lookup_app_r, Nat.sub_diag by lia. }
    assert (Hpos : (0 <? length pre)%nat = true).
    { destruct pre; [by specialize (Hpre eq_refl) | done]. }
    pose proof (lookup_lt_Some _ _ _ Ht) as Hlt.
    assert (Etok : tokens = ((pre ++ [t]) ++ documentTokens items ++ suffix)%list).
    { unfold tokens, documentTokens. simpl. by rewrite <- app_assoc. }
    cbn [buildDocument]. rewrite Ht, Hx, Hpos, Hv. simpl.
    pose proof (IH (pre ++ [t])%list suffix ast fuel Hwf) as IH'.
    simpl in IH'. rewrite <- Etok, length_app in IH'. simpl in IH'.
    replace (length pre + 1)%nat with (S (length pre)) in IH' by lia.
    rewrite IH'.
    + unfold documentTokens, documentNodes. simpl. f_equal. lia.
    + intros E. by destruct pre.
    + lia.
  - destruct Hit as [(t & Ht & Hx) (f0 & Hrun)].
    assert (Hlen : (0 < length ts)%nat) by (apply lookup_lt_Some in Ht; lia).
    assert (Etok : tokens = ((pre ++ ts) ++ documentTokens items ++ suffix)%list).
    { unfold tokens, documentTokens. simpl. by rewrite <- !app_assoc. }
    assert (Hemb : embedded ts tokens (length pre)).
    { rewrite Etok, <- app_assoc. apply embedded_app. }
    assert (Ht' : tokens !! length pre = Some t).
    { rewrite <- (Nat.add_0_r (length pre)). by apply Hemb. }
    assert (Hall : (length pre + length ts <= length tokens)%nat).
    { rewrite Etok, !length_app. lia. }
    cbn [buildDocument]. rewrite Ht', Hx.
    destruct (embedded_builders ts tokens (length pre) Hemb f0) as (_ & He & _).
    apply He in Hrun. rewrite Nat.add_0_r in Hrun.
    apply (buildExpression_enough _ _ fuel) in Hrun; [|lia].
    apply buildExpression_context in Hrun as (node' & Hn & Hrun).
    apply (app_inj_tail []) in Hn as [_ <-].
    rewrite Hrun. simpl.
    pose proof (IH (pre ++ ts)%list suffix (ast ++ [node])%list fuel Hwf) as IH'.
    simpl in IH'. rewrite <- Etok, length_app in IH'.
    rewrite IH'.
    + unfold documentTokens, documentNodes. simpl.
      rewrite length_app, <- app_assoc. f_equal. lia.
    + intros E. apply app_eq_nil in E as [_ ->]. simpl in Hlen. lia.
    + lia.
Qed.

(** Conversely, a successful run of the loop cuts the tokens into
    well-formed items. *)
Lemma buildDocument_split tokens fuel :
  forall i ast out,
    buildDocument tokens fuel i ast = Ok out ->
    exists items,
      Forall wellFormed items
      /\ (i = 0%nat -> startsWithComma items = false)
      /\ drop i tokens = documentTokens items
      /\ out = (ast ++ documentNodes items)%list.
Proof.
  induction fuel as [|fuel IH]; intros i ast out H; [discriminate|].
  cbn [buildDocument] in H.
  destruct (tokens !! i) as [t|] eqn:Ht.
  2: { injection H as <-. exists []. apply lookup_ge_None in Ht.
       split; [constructor|]. split; [done|].
       split; [by rewrite drop_ge | by rewrite app_nil_r]. }
  destruct (isExpression t) eqn:Hx.
  - stepOk H. destruct a as [i' ast'].
    pose proof (proj1 (proj2 (builders_progress tokens fuel)) _ _ _ _ E) as Hlt.
    pose proof (buildExpression_bound _ _ _ _ _ _ E) as Hle.
    apply IH in H as (items & Hwf & _ & Hdrop & ->).
    pose proof (window_slice tokens i (i' - i) ltac:(lia)) as W.
    destruct (window_builders _ _ _ _ W fuel) as (_ & We & _).
    pose proof (We 0%nat ast i' ast') as We'. rewrite Nat.add_0_r in We'.
    destruct (We' E ltac:(lia)) as (k' & E' & Hk').
    apply buildExpression_context in E' as (node & -> & E').
    exists (Expression (take (i' - i) (drop i tokens)) node :: items).
    split; [|split; [done|split]].
    + constructor; [|exact Hwf]. simpl. split.
      * exists t. split; [|exact Hx]. rewrite lookup_take_lt by lia.
        by rewrite lookup_drop, Nat.add_0_r.
      * exists fuel. rewrite (E' []).
        rewrite length_take, length_drop. do 2 f_equal. lia.
    + unfold documentTokens in *. simpl. rewrite <- Hdrop.
      rewrite <- (take_drop (i' - i) (drop i tokens)) at 1.
      rewrite drop_drop. do 2 f_equal. lia.
    + unfold documentNodes. simpl. by rewrite <- app_assoc.
  - destruct ((0 <? i)%nat && (value t =? ",")%string) eqn:Hc; [|discriminate].
    apply andb_prop in Hc as [Hi Hv]. apply Nat.ltb_lt in Hi. apply String.eqb_eq in Hv.
    apply IH in H as (items & Hwf & _ & Hdrop & ->).
    exists (Comma t :: items). split; [|split; [|split]].
    + constructor; [|exact Hwf]. by split.
    + lia.
    + unfold documentTokens in *. simpl. rewrite <- Hdrop.
      by apply drop_S.
    + reflexivity.
Qed.
End Document.

Section DocumentGrammar.
Context {ext : Externals}.

Lemma wellFormed_tokens items :
  Forall wellFormed items -> (length items <= length (documentTokens items))%nat.
Proof.
  induction 1 as [|it items Hit _ IH]; [done|].
  unfold documentTokens in *. simpl. rewrite length_app.
  destruct it as [t|ts node]; simpl in *; [lia|].
  destruct Hit as [(t & Ht & _) _]. apply lookup_lt_Some in Ht. lia.
Qed.

Lemma buildAbstractSyntaxTree_items items :
  Forall wellFormed items -> startsWithComma items = false ->
  buildAbstractSyntaxTree (documentTokens items) = Ok (documentNodes items).
Proof.
  intros Hwf Hstart. unfold buildAbstractSyntaxTree, parseFuel.
  pose proof (buildDocument_items items [] [] [] (3 * length (documentTokens items) + 3)
                Hwf (fun _ => Hstart)) as H.
  cbv zeta in H. rewrite app_nil_l, app_nil_r in H.
  change (length (@nil Token)) with 0%nat in H.
  rewrite Nat.sub_0_r, Nat.add_0_l in H. rewrite H by lia.
  pose proof (wellFormed_tokens items Hwf).
  destruct (3 * length (documentTokens items) + 3 - length items)%nat eqn:E; [lia|].
  cbn [buildDocument]. by rewrite lookup_ge_None_2.
Qed.

Lemma buildAbstractSyntaxTree_rejects items t rest :
  Forall wellFormed items -> startsWithComma items = false ->
  isExpression t = false -> (value t <> "," \/ items = []) ->
  buildAbstractSyntaxTree (documentTokens items ++ t :: rest)
  = Throw (SyntaxError "Unexpected token. Expected a expression." t).
Proof.
  intros Hwf Hstart Hx Hcomma. unfold buildAbstractSyntaxTree, parseFuel.
  pose proof (buildDocument_items items [] (t :: rest) []
                (3 * length (documentTokens items ++ t :: rest) + 3)
                Hwf (fun _ => Hstart)) as H.
  cbv zeta in H. rewrite app_nil_l in H.
  change (length (@nil Token)) with 0%nat in H.
  rewrite Nat.sub_0_r, Nat.add_0_l in H. rewrite H by lia.
  pose proof (wellFormed_tokens items Hwf).
  rewrite length_app in *. simpl length in *.
  destruct (3 * (length (documentTokens items) + S (length rest)) + 3 - length items)%nat
    eqn:E; [lia|].
  cbn [buildDocument].
  rewrite lookup_app_r, Nat.sub_diag by lia. simpl. rewrite Hx.
  destruct Hcomma as [Hv | ->].
  - apply String.eqb_neq in Hv. rewrite Hv. by rewrite andb_false_r.
  - reflexivity.
Qed.

Lemma buildAbstractSyntaxTree_split tokens ast :
  buildAbstractSyntaxTree tokens = Ok ast ->
  exists items,
    Forall wellFormed items /\ startsWithComma items = false
    /\ tokens = documentTokens items /\ ast = documentNodes items.
Proof.
  intros H. apply buildDocument_split in H as (items & Hwf & Hstart & Hdrop & ->).
  exists items. rewrite drop_0 in Hdrop. auto.
Qed.

(** An empty tree comes from an empty token array only. *)
Lemma buildAbstractSyntaxTree_nil tokens :
  buildAbstractSyntaxTree tokens = Ok [] -> tokens = [].
Proof.
  intros (items & Hwf & Hstart & -> & Hn)%buildAbstractSyntaxTree_split.
  destruct items as [|[t|ts node] items]; [done | discriminate | discriminate].
Qed.
End DocumentGrammar.

(** ** The tokenizer *)

Lemma tokenizeFrom_length str : forall i token tokens,
  (length (pushIfValue token tokens) <= length (tokenizeFrom str i token tokens))%nat.
Proof.
  induction str as [|c str IH]; intros i token tokens; simpl; [lia|].
  destruct (isWhitespace c); [|destruct (isSpecialChar c)].
  - etransitivity; [|apply IH]. unfold pushIfValue at 2. simpl. lia.
  - etransitivity; [|apply IH]. unfold pushIfValue at 2. simpl.
    rewrite length_app. lia.
  - etransitivity; [|apply IH]. unfold pushIfValue. simpl.
    destruct (value token); simpl; rewrite ?length_app; simpl; lia.
Qed.

(** No token comes out exactly when the text is blank. *)
Lemma tokenize_nil text :
  tokenize text = [] <-> forallb isWhitespace (list_ascii_of_string text) = true.
Proof.
  unfold tokenize.
  assert (G : forall str i, tokenizeFrom str i (newToken i None) [] = []
                            <-> forallb isWhitespace (list_ascii_of_string str) = true).
  { induction str as [|c str IH]; intros i; simpl; [done|].
    destruct (isWhitespace c) eqn:W; simpl.
    - apply IH.
    - split; [|discriminate]. intros H.
      unfold pushIfValue, newToken in H. simpl in H.
      destruct (isSpecialChar c).
      + pose proof (tokenizeFrom_length str (S i) (mkToken (S i) "" false)
                      [mkToken i (String c EmptyString) true]) as L.
        rewrite H in L. simpl in L. lia.
      + change ("" +:+ String c "") with (String c "") in H.
        pose proof (tokenizeFrom_length str (S i)
                      (mkToken i (String c EmptyString) false) []) as L.
        rewrite H in L. simpl in L. lia. }
  apply G.
Qed.

(** ** Rule groups *)

Lemma fieldOf_cases name propType min max :
  fieldOf name = Some (propType, min, max) ->
  (propType, min, max) ∈
    [("seconds", 0, 59); ("minutes", 0, 59); ("hours", 0, 23);
     ("daysOfWeek", 1, 7); ("daysOfMonth", -31, 31); ("dates", 1, 31)].
Proof.
  unfold fieldOf. intros H.
  repeat match type of H with
         | (if ?b then _ else _) = _ => destruct b
         end; simplify_eq; set_solver.
Qed.

Lemma lookup_pushRange prop r (rule : RuleGroup) :
  pushRange prop r rule !! prop = Some (default [] (rule !! prop) ++ [r])%list.
Proof. unfold pushRange. by rewrite lookup_insert_eq. Qed.

Lemma lookup_pushRange_ne prop prop' r (rule : RuleGroup) :
  prop <> prop' -> pushRange prop r rule !! prop' = rule !! prop'.
Proof. intros H. unfold pushRange. by rewrite lookup_insert_ne. Qed.

Lemma exclude_ne (propType : string) : propType <> propType ++ "Exclude".
Proof.
  induction propType as [|a propType IH]; intros H; [discriminate|].
  change (String a propType = String a (propType ++ "Exclude")) in H.
  injection H as H. contradiction.
Qed.

(** Every pass of the argument loop, and so every expression that compiles,
    sets [somethingSet]. *)
Lemma compileArguments_set name propType min max args : forall state rule b,
  compileArguments name propType min max args state = Ok (rule, b) ->
  args <> [] -> b = true.
Proof.
  induction args as [|arg args IH]; intros state rule b H Hne; [done|].
  simpl in H. stepOk H. destruct args as [|arg' args].
  - simpl in H. by simplify_eq.
  - by eapply IH.
Qed.

Lemma compileExpression_set cmd state rule b :
  compileExpression cmd state = Ok (rule, b) -> b = true.
Proof.
  unfold compileExpression. intros H.
  repeat stepOk H; try done; by eapply compileArguments_set.
Qed.

Lemma compileExpressions_set expressions : forall state rule b,
  compileExpressions expressions state = Ok (rule, b) ->
  expressions <> [] -> b = true.
Proof.
  induction expressions as [|cmd expressions IH]; intros state rule b H Hne; [done|].
  simpl in H. stepOk H. destruct a as [rule1 b1].
  apply compileExpression_set in E as ->.
  destruct expressions as [|cmd' expressions].
  - simpl in H. by simplify_eq.
  - by eapply IH.
Qed.

(** [compileGroup] returns [null] for the empty list and for no other. *)
Lemma compileGroup_null expressions :
  compileGroup expressions = Ok None <-> expressions = [].
Proof.
  split; [|by intros ->].
  unfold compileGroup. intros H. stepOk H. destruct a as [rule b].
  destruct expressions as [|cmd expressions]; [done|].
  apply compileExpressions_set in E as ->; [|done]. discriminate.
Qed.

Definition hasField (rule : RuleGroup) : Prop :=
  is_Some (rule !! "seconds") \/ is_Some (rule !! "secondsExclude").

Lemma impliedValues_hasField (rule : RuleGroup) : hasField (impliedValues rule).
Proof.
  unfold impliedValues, hasField, isSet.
  repeat case_bool_decide; cbn [orb]; auto;
    left; rewrite ?lookup_insert_ne by done; by rewrite lookup_insert_eq.
Qed.

Lemma compileGroup_hasField expressions rule :
  compileGroup expressions = Ok (Some rule) -> hasField rule.
Proof.
  unfold compileGroup. intros H. repeat stepOk H. apply impliedValues_hasField.
Qed.

Lemma compileNodes_app ast1 : forall ast2 rules globalExpressions,
  compileNodes (ast1 ++ ast2) rules globalExpressions
  = compileNodes ast1 rules globalExpressions ≫= fun '(rules, globalExpressions) =>
    compileNodes ast2 rules globalExpressions.
Proof.
  induction ast1 as [|cmd ast1 IH]; intros ast2 rules g; [done|].
  simpl. destruct cmd as [a|name arguments firstToken]; [done|].
  destruct (name =? "group")%string; [|apply IH].
  destruct (compileGroup arguments) as [[rule|]| | |]; simpl; first [done | apply IH].
Qed.

Lemma compileNodes_grows ast : forall rules g rules' g',
  compileNodes ast rules g = Ok (rules', g') ->
  (Forall hasField rules -> Forall hasField rules')
  /\ (length rules + length g + length ast = length rules' + length g')%nat.
Proof.
  induction ast as [|cmd ast IH]; intros rules g rules' g' H.
  { simpl in H. simplify_eq. split; [done | simpl; lia]. }
  simpl in H. destruct cmd as [a|name arguments firstToken]; [done|].
  destruct (name =? "group")%string.
  - stepOk H. destruct a as [rule|]; [|done].
    apply compileGroup_hasField in E. apply IH in H as [H1 H2]. split.
    + intros Hr. apply H1. apply Forall_app. split; [done | by constructor].
    + rewrite length_app in H2. simpl in *. lia.
  - apply IH in H as [H1 H2]. split; [done|].
    rewrite length_app in H2. simpl in *. lia.
Qed.

Lemma compile_hasField ast rules :
  compile ast = Ok rules -> Forall hasField rules /\ (rules = [] -> ast = []).
Proof.
  unfold compile. intros H. stepOk H. destruct a as [rules0 g].
  apply compileNodes_grows in E as [H1 H2]. specialize (H1 (Forall_nil_2 _)).
  simpl in H2. destruct (0 <? length g)%nat eqn:Hg.
  - stepOk H. destruct a as [rule|].
    + simplify_eq. split.
      * apply Forall_app. split; [done|]. constructor; [|done].
        by eapply compileGroup_hasField.
      * intros E'. by apply app_eq_nil in E' as [_ ?].
    + repeat stepOk H.
  - simplify_eq. apply Nat.ltb_ge in Hg. split; [done|]. intros ->.
    simpl in H2. apply length_zero_iff_nil. lia.
Qed.

(** ** The pipeline never runs out of fuel *)

Lemma normalize_fueled name propType min max arg :
  fueled (normalize name propType min max arg).
Proof.
  unfold normalize, normalizeDates, normalizeNumeric, validate. fueledSteps.
Qed.

Lemma compileArguments_fueled name propType min max args :
  forall state, fueled (compileArguments name propType min max args state).
Proof.
  induction args as [|arg args IH]; intros state; simpl; [fueledSteps|].
  apply fueled_bind; [|intros rule _; apply IH].
  unfold compileArgument. apply fueled_bind; [apply normalize_fueled|].
  intros r _. fueledSteps.
Qed.

Lemma compileExpressions_fueled expressions :
  forall state, fueled (compileExpressions expressions state).
Proof.
  induction expressions as [|cmd expressions IH]; intros state; simpl; [fueledSteps|].
  apply fueled_bind; [|intros state' _; apply IH].
  unfold compileExpression. fueledSteps; apply compileArguments_fueled.
Qed.

Lemma compileGroup_fueled expressions : fueled (compileGroup expressions).
Proof.
  unfold compileGroup. apply fueled_bind; [apply compileExpressions_fueled|].
  intros [rule b] _. fueledSteps.
Qed.

Lemma compileNodes_fueled ast :
  forall rules globalExpressions, fueled (compileNodes ast rules globalExpressions).
Proof.
  induction ast as [|cmd ast IH]; intros rules g; simpl; [fueledSteps|].
  destruct cmd as [a|name arguments firstToken]; [fueledSteps|].
  destruct (name =? "group")%string; [|apply IH].
  apply fueled_bind; [apply compileGroup_fueled|].
  intros [rule|] _; [apply IH | fueledSteps].
Qed.

(** The whole pipeline gives, for every text, a list of rule groups, an
    error, or [Unmodelled]: the fuel of the parser is never the limit. *)
Lemma schedule_fueled {ext : Externals} text : fueled (schedule text).
Proof.
  unfold schedule. apply fueled_bind; [apply buildAbstractSyntaxTree_fueled|].
  intros ast _. unfold compile.
  apply fueled_bind; [apply compileNodes_fueled|]. intros [rules g] _.
  destruct (0 <? length g)%nat; [|fueledSteps].
  apply fueled_bind; [apply compileGroup_fueled|].
  intros [rule|] _; fueledSteps. apply deref_fueled.
Qed.

(** * The claims *)

(** ** C1: what a completed compilation has produced *)

(** C1 does not hold as stated: a text without tokens compiles, without an
    error, to an empty list of rule groups. *)
Lemma C1_empty_text_compiles_to_nothing :
  isOk (specSchedule "") = true /\ specSchedule "" = Ok [].
Proof. split; reflexivity. Qed.

(** C1, as amended.  When compilation of a text completes without an error,
    every rule group produced has a field set ([seconds] or
    [secondsExclude], at least), and no rule group at all is produced
    exactly when the text has no tokens, which is when it is blank; a blank
    text compiles to the empty list.  [compileGroup] returns [null] for the
    empty expression list and for no other, so [group()] is the fatal "No
    rules in schedule." error, while the implicit top-level group is only
    compiled when it has an expression. *)
Theorem C1_compiled_groups_have_fields (ext : Externals) :
  (forall text rules,
     schedule text = Ok rules ->
     Forall hasField rules /\ (rules = [] <-> tokenize text = []))
  /\ (forall text,
        forallb isWhitespace (list_ascii_of_string text) = true <-> tokenize text = [])
  /\ (forall text, tokenize text = [] -> schedule text = Ok [])
  /\ (forall expressions, compileGroup expressions = Ok None <-> expressions = [])
  /\ (forall ast rules globalExpressions firstToken rest,
        compileNodes ast [] [] = Ok (rules, globalExpressions) ->
        compile (ast ++ NExpression "group" [] firstToken :: rest)
        = Throw (SyntaxError "No rules in schedule." firstToken)).
Proof.
  split; [|split; [|split; [|split]]].
  - intros text rules H. unfold schedule in H. stepOk H.
    pose proof (compile_hasField _ _ H) as [Hf Hnil]. split; [exact Hf|]. split.
    + intros E'. specialize (Hnil E'). subst a.
      by apply buildAbstractSyntaxTree_nil in E.
    + intros Ht. rewrite Ht in E. vm_compute in E. simplify_eq.
      vm_compute in H. by simplify_eq.
  - intros text. symmetry. apply tokenize_nil.
  - intros text Ht. unfold schedule. by rewrite Ht.
  - apply compileGroup_null.
  - intros ast rules g firstToken rest H. unfold compile.
    rewrite compileNodes_app, H. reflexivity.
Qed.

Lemma C1_compiled_groups_have_fields_witness :
  exists rules,
    specSchedule "hour()" = Ok rules
    /\ Forall hasField rules /\ (rules = [] <-> tokenize "hour()" = []).
Proof.
  eexists. split; [vm_compute; reflexivity|].
  apply (proj1 (C1_compiled_groups_have_fields specExternals) "hour()").
  vm_compute. reflexivity.
Defined.

(** ** C2: the top-level document *)

(** C2 does not hold as stated: [hour()] parses, and with a comma before it
    the parser throws. *)
Lemma C2_leading_comma_is_rejected :
  isOk (buildAbstractSyntaxTree (ext := specExternals) (tokenize "hour()")) = true
  /\ buildAbstractSyntaxTree (ext := specExternals) (tokenize ",hour()")
     = Throw (SyntaxError "Unexpected token. Expected a expression." (mkToken 0 "," true)).
Proof. split; reflexivity. Qed.

(** C2, as amended.  Top-level parsing accepts exactly the token arrays that
    are a sequence of expressions and commas not starting with a comma (an
    expression followed by any number of expressions and commas, or
    nothing at all): such a sequence builds,
    without an error, the nodes of its expressions in order, the commas
    being skipped, and every array that parses is such a sequence.  After
    such a sequence, a token that is not an expression keyword and not a
    comma, or any such token (a comma too) in the first position, raises
    the fatal "Unexpected token. Expected a expression." error. *)
Theorem C2_document_grammar (ext : Externals) (tokens : list Token) :
  (forall ast,
     buildAbstractSyntaxTree tokens = Ok ast <->
     exists items,
       Forall wellFormed items /\ startsWithComma items = false
       /\ tokens = documentTokens items /\ ast = documentNodes items)
  /\ (forall items t rest,
        Forall wellFormed items -> startsWithComma items = false ->
        tokens = (documentTokens items ++ t :: rest)%list ->
        isExpression t = false -> (value t <> "," \/ items = []) ->
        buildAbstractSyntaxTree tokens
        = Throw (SyntaxError "Unexpected token. Expected a expression." t)).
Proof.
  split.
  - intros ast. split.
    + apply buildAbstractSyntaxTree_split.
    + intros (items & Hwf & Hstart & -> & ->).
      by apply buildAbstractSyntaxTree_items.
  - intros items t rest Hwf Hstart -> Hx Hcomma.
    by apply buildAbstractSyntaxTree_rejects.
Qed.

Lemma C2_document_grammar_witness :
  buildAbstractSyntaxTree (ext := specExternals) (tokenize "hour() , min()")
  = Ok [NExpression "hour" [] (mkToken 0 "hour" false);
        NExpression "min" [] (mkToken 9 "min" false)].
Proof.
  apply (proj1 (C2_document_grammar specExternals (tokenize "hour() , min()"))).
  exists [Expression [mkToken 0 "hour" false; mkToken 4 "(" true; mkToken 5 ")" true]
            (NExpression "hour" [] (mkToken 0 "hour" false));
          Comma (mkToken 7 "," true);
          Expression [mkToken 9 "min" false; mkToken 12 "(" true; mkToken 13 ")" true]
            (NExpression "min" [] (mkToken 9 "min" false))].
  split; [|repeat split].
  repeat constructor.
  - eexists. split; reflexivity.
  - exists 2%nat. reflexivity.
  - eexists. split; reflexivity.
  - exists 2%nat. reflexivity.
Defined.

(** ** C10: an exclusion mark right before the closing parenthesis *)

(** C10.  In [name(!)] the argument parser consumes the [!], returns at the
    [)] and emits no argument; the expression is accepted and its node is
    the node of [name()], with an empty argument list.  So [hour(!)]
    compiles to exactly what [hour()] compiles to. *)
Theorem C10_lone_exclusion_is_dropped (ext : Externals)
    (pre post : list Token) (name : Token) (a b c : nat)
    (context arguments : list Node) (fuel : nat) :
  let withMark :=
    (pre ++ [name; mkToken a "(" true; mkToken b "!" true; mkToken c ")" true] ++ post)%list in
  let without :=
    (pre ++ [name; mkToken a "(" true; mkToken c ")" true] ++ post)%list in
  buildArgument withMark (S fuel) (length pre + 2)%nat arguments
  = Ok ((length pre + 3)%nat, arguments)
  /\ buildExpression withMark (S (S (S fuel))) (length pre) context
     = Ok ((length pre + 4)%nat, (context ++ [NExpression (value name) [] name])%list)
  /\ buildExpression without (S (S fuel)) (length pre) context
     = Ok ((length pre + 3)%nat, (context ++ [NExpression (value name) [] name])%list)
  /\ specSchedule "hour(!)" = specSchedule "hour()"
  /\ isOk (specSchedule "hour(!)") = true.
Proof.
  intros withMark without.
  pose proof (embedded_builders _ _ _
                (embedded_app pre
                   [name; mkToken a "(" true; mkToken b "!" true; mkToken c ")" true] post))
    as Hmark.
  pose proof (embedded_builders _ _ _
                (embedded_app pre [name; mkToken a "(" true; mkToken c ")" true] post))
    as Hplain.
  split; [|split; [|split; [|split]]].
  - destruct (Hmark (S fuel)) as (Ha & _ & _). by apply (Ha 2%nat arguments 3%nat).
  - destruct (Hmark (S (S (S fuel)))) as (_ & He & _).
    pose proof (He 0%nat [] 4%nat [NExpression (value name) [] name] eq_refl) as H.
    rewrite Nat.add_0_r in H.
    apply buildExpression_context in H as (node & Hn & H).
    apply (app_inj_tail []) in Hn as [_ <-]. apply H.
  - destruct (Hplain (S (S fuel))) as (_ & He & _).
    pose proof (He 0%nat [] 3%nat [NExpression (value name) [] name] eq_refl) as H.
    rewrite Nat.add_0_r in H.
    apply buildExpression_context in H as (node & Hn & H).
    apply (app_inj_tail []) in Hn as [_ <-]. apply H.
  - vm_compute. reflexivity.
  - vm_compute. reflexivity.
Qed.

(** ** Compiling one expression with one argument *)

Lemma toInt32_small x : - 2 ^ 31 <= x < 2 ^ 31 -> toInt32 x = x.
Proof.
  intros H. unfold toInt32.
  destruct (Z.le_gt_cases 0 x).
  - rewrite Z.mod_small by lia. destruct (Z.leb_spec (2 ^ 31) x); lia.
  - replace (x mod 2 ^ 32) with (x + 2 ^ 32).
    + destruct (Z.leb_spec (2 ^ 31) (x + 2 ^ 32)); lia.
    + apply Z.mod_unique with (q := -1); lia.
Qed.

Lemma toInt32_range x : - 2 ^ 31 <= toInt32 x < 2 ^ 31.
Proof.
  unfold toInt32. pose proof (Z.mod_pos_bound x (2 ^ 32) ltac:(lia)).
  destruct (Z.leb_spec (2 ^ 31) (x mod 2 ^ 32)); lia.
Qed.

(** The implied values never replace a list that is set. *)
Lemma impliedValues_keeps (rule : RuleGroup) prop l :
  rule !! prop = Some l -> impliedValues rule !! prop = Some l.
Proof.
  intros H. unfold impliedValues, isSet.
  repeat case_bool_decide; cbn [orb]; try done;
    repeat match goal with
           | N : ~ is_Some (rule !! ?k) |- _ =>
               assert (k <> prop) by (intros E; rewrite E in N; apply N; eauto);
               clear N
           end;
    by rewrite ?lookup_insert_ne.
Qed.

Definition propOf (propType : string) (arg : Node) : string :=
  if nodeIsExclude arg then propType ++ "Exclude" else propType.

(** A group of one expression with one argument compiles to the rule group
    with the argument's normalized range, completed by the implied values. *)
Lemma compileGroup_single cmdName propType min max arg firstToken :
  isAscii cmdName = true ->
  fieldOf (toLowerCase cmdName) = Some (propType, min, max) ->
  compileGroup [NExpression cmdName [arg] firstToken]
  = normalize (toLowerCase cmdName) propType min max arg ≫= fun r =>
    Ok (Some (impliedValues (pushRange (propOf propType arg) r ∅))).
Proof.
  intros Ha Hf. unfold compileGroup. simpl. rewrite Ha, Hf. simpl.
  unfold compileArgument, propOf.
  by destruct (normalize (toLowerCase cmdName) propType min max arg).
Qed.

Lemma compileGroup_single_Ok cmdName propType min max arg firstToken r :
  isAscii cmdName = true ->
  fieldOf (toLowerCase cmdName) = Some (propType, min, max) ->
  normalize (toLowerCase cmdName) propType min max arg = Ok r ->
  exists rule,
    compileGroup [NExpression cmdName [arg] firstToken] = Ok (Some rule)
    /\ rule !! propOf propType arg = Some [r].
Proof.
  intros Ha Hf Hn. rewrite (compileGroup_single _ _ _ _ _ _ Ha Hf), Hn. simpl.
  eexists. split; [reflexivity|]. apply impliedValues_keeps.
  by rewrite lookup_pushRange, lookup_empty.
Qed.

Lemma compileGroup_single_Throw cmdName propType min max arg firstToken e :
  isAscii cmdName = true ->
  fieldOf (toLowerCase cmdName) = Some (propType, min, max) ->
  normalize (toLowerCase cmdName) propType min max arg = Throw e ->
  compileGroup [NExpression cmdName [arg] firstToken] = Throw e.
Proof.
  intros Ha Hf Hn. by rewrite (compileGroup_single _ _ _ _ _ _ Ha Hf), Hn.
Qed.

(** Decides the integer comparisons of a goal from the hypotheses. *)
Ltac decideComparisons :=
  repeat match goal with
         | |- context [(?a <? ?b)] => destruct (Z.ltb_spec a b); try lia
         | |- context [(?a >? ?b)] => rewrite (Z.gtb_ltb a b)
         | |- context [(?a >=? ?b)] => rewrite (Z.geb_leb a b)
         | |- context [(?a <=? ?b)] => destruct (Z.leb_spec a b); try lia
         | |- context [(?a =? ?b)] => destruct (Z.eqb_spec a b); try lia
         end.

(** The six fields, one goal each. *)
Ltac eachField H :=
  apply fieldOf_cases in H;
  repeat (apply elem_of_cons in H as [H|H]; [simplify_eq|]);
  [..|by apply elem_of_nil in H].

(** ** C3: the bounds of a field *)

(** C3 does not hold as stated: the [dates] field has bounds 1 and 31, and
    compiling the single value 1 on it fails; its error is about the kind of
    argument, not about a minimum or maximum. *)
Lemma C3_dates_reject_their_minimum :
  fieldOf "date" = Some ("dates", 1, 31)
  /\ specSchedule "date(1)"
     = Throw (SyntaxError "Invalid argument. Expected a date." (mkToken 5 "1" false))
  /\ specSchedule "date(0)"
     = Throw (SyntaxError "Invalid argument. Expected a date." (mkToken 5 "0" false)).
Proof. repeat split; vm_compute; reflexivity. Qed.

(** C3, as amended.  For every field other than [dates] (seconds, minutes,
    hours, daysOfWeek, daysOfMonth), under any of its names, compiling a
    single-value argument equal to the field's min or to its max succeeds,
    compiling min-1 raises the fatal error "Minimum <field> value is <min>"
    and compiling max+1 the fatal error "Maximum <field> value is <max>".
    On [dates] the bounds are not checked by the compiler: every
    single-value argument is rejected with "Invalid argument. Expected a
    date.". *)
Theorem C3_field_bounds (cmdName propType : string) (min max : Z)
    (exclude : bool) (firstToken argToken : Token) :
  isAscii cmdName = true ->
  fieldOf (toLowerCase cmdName) = Some (propType, min, max) ->
  let compileNumber n :=
    compileGroup
      [NExpression cmdName [NArgument (mkArgument (number n) exclude None argToken)]
         firstToken] in
  (propType <> "dates" ->
     isOk (compileNumber min) = true
     /\ isOk (compileNumber max) = true
     /\ compileNumber (min - 1)
        = Throw (SyntaxError ("Minimum " ++ propType ++ " value is " ++ numberToString min)
                   argToken)
     /\ compileNumber (max + 1)
        = Throw (SyntaxError ("Maximum " ++ propType ++ " value is " ++ numberToString max)
                   argToken))
  /\ (propType = "dates" ->
      forall n,
        compileNumber n
        = Throw (SyntaxError "Invalid argument. Expected a date." argToken)).
Proof.
  intros Ha Hf compileNumber. subst compileNumber. cbv beta.
  split.
  - intros Hd. pose proof Hf as Hf'. eachField Hf'; try done;
      rewrite !(compileGroup_single _ _ _ _ _ _ Ha Hf);
      repeat split; destruct exclude; vm_compute; reflexivity.
  - intros -> n. pose proof Hf as Hf'. eachField Hf'.
    rewrite (compileGroup_single _ _ _ _ _ _ Ha Hf). reflexivity.
Qed.

Lemma C3_field_bounds_witness :
  isOk (specSchedule "dom(-31)") = true
  /\ compileGroup
       [NExpression "dom"
          [NArgument (mkArgument (number (-31 - 1)) false None (mkToken 4 "-" true))]
          (mkToken 0 "dom" false)]
     = Throw (SyntaxError "Minimum daysOfMonth value is -31" (mkToken 4 "-" true)).
Proof.
  split; [vm_compute; reflexivity|].
  refine (proj1 (proj2 (proj2 (proj1
            (C3_field_bounds "dom" "daysOfMonth" (-31) 31 false
               (mkToken 0 "dom" false) (mkToken 4 "-" true) _ _) _)))).
  - vm_compute. reflexivity.
  - vm_compute. reflexivity.
  - discriminate.
Defined.

(** ** C4: a single number, with and without a modulus *)

Definition numericField (propType : string) : bool :=
  oneOf propType ["seconds"; "minutes"; "hours"; "daysOfMonth"].

(** What [normalize] does with a number on a numeric field, within the
    bounds. *)
Lemma normalize_number name propType min max n exclude m argToken :
  fieldOf name = Some (propType, min, max) ->
  numericField propType = true ->
  min <= n <= max -> (propType = "daysOfMonth" -> n <> 0) ->
  (forall k, m = Some k -> 0 <= k) ->
  normalize name propType min max (NArgument (mkArgument (number n) exclude m argToken))
  = Ok (mkRange (BNum n) (BNum (if truthy m then max else n)) false m).
Proof.
  intros Hf Hnum Hn Hz Hm.
  eachField Hf; try discriminate Hnum;
    unfold normalize, normalizeNumeric, validate, nodeModulus, nodeFirstToken;
    cbn [argValue argModulus argFirstToken String.eqb Ascii.eqb Bool.eqb negb andb orb];
    rewrite toInt32_small by lia;
    (destruct m as [k|]; [specialize (Hm k eq_refl)|]);
    cbn [truthy]; try (destruct (Z.eqb_spec k 0)); cbn [negb mbind Result_bind];
    try (specialize (Hz eq_refl));
    decideComparisons; reflexivity.
Qed.

(** C4 does not hold as stated: with the modulus 0 the number 5 on [hours]
    compiles to the range (5, 5), not to (5, 23). *)
Lemma C4_modulus_zero_keeps_single_value :
  exists rule,
    specSchedule "hour(5%0)" = Ok [rule]
    /\ rule !! "hours" = Some [mkRange (BNum 5) (BNum 5) false (Some 0)].
Proof. eexists. split; vm_compute; reflexivity. Qed.

(** C4, as amended.  On a numeric field F (seconds, minutes, hours,
    daysOfMonth) a single-number argument n within the bounds of F (and not
    0 on daysOfMonth) compiles, with a modulus k of at least 1, to the Range
    (n, max_F) with modulus k; without a modulus it compiles to the Range
    (n, n), and with the modulus 0 to the Range (n, n) with modulus 0. *)
Theorem C4_number_with_modulus (cmdName propType : string) (min max n : Z)
    (exclude : bool) (firstToken argToken : Token) :
  isAscii cmdName = true ->
  fieldOf (toLowerCase cmdName) = Some (propType, min, max) ->
  numericField propType = true ->
  min <= n <= max -> (propType = "daysOfMonth" -> n <> 0) ->
  let compilesTo m r :=
    exists rule,
      compileGroup
        [NExpression cmdName [NArgument (mkArgument (number n) exclude m argToken)]
           firstToken] = Ok (Some rule)
      /\ rule !! (if exclude then propType ++ "Exclude" else propType) = Some [r] in
  (forall k, 1 <= k -> compilesTo (Some k) (mkRange (BNum n) (BNum max) false (Some k)))
  /\ compilesTo None (mkRange (BNum n) (BNum n) false None)
  /\ compilesTo (Some 0) (mkRange (BNum n) (BNum n) false (Some 0)).
Proof.
  intros Ha Hf Hnum Hn Hz compilesTo. subst compilesTo. cbv beta.
  assert (G : forall m, (forall k, m = Some k -> 0 <= k) ->
            exists rule,
              compileGroup
                [NExpression cmdName [NArgument (mkArgument (number n) exclude m argToken)]
                   firstToken] = Ok (Some rule)
              /\ rule !! (if exclude then propType ++ "Exclude" else propType)
                 = Some [mkRange (BNum n) (BNum (if truthy m then max else n)) false m]).
  { intros m Hm.
    apply (compileGroup_single_Ok _ _ _ _
             (NArgument (mkArgument (number n) exclude m argToken)) firstToken _ Ha Hf).
    by apply normalize_number. }
  split; [|split].
  - intros k Hk. destruct (G (Some k)) as (rule & H1 & H2).
    { intros ? [= <-]. lia. }
    exists rule. split; [exact H1|]. rewrite H2. simpl.
    destruct (Z.eqb_spec k 0); [lia | reflexivity].
  - apply (G None). discriminate.
  - apply (G (Some 0)). intros ? [= <-]. lia.
Qed.

Lemma C4_number_with_modulus_witness :
  exists rule,
    compileGroup
      [NExpression "hour"
         [NArgument (mkArgument (number 5) false (Some 3) (mkToken 5 "5" false))]
         (mkToken 0 "hour" false)] = Ok (Some rule)
    /\ rule !! "hours" = Some [mkRange (BNum 5) (BNum 23) false (Some 3)].
Proof.
  refine (proj1 (C4_number_with_modulus "hour" "hours" 0 23 5 false
                   (mkToken 0 "hour" false) (mkToken 5 "5" false) _ _ _ _ _) 3 _).
  - vm_compute. reflexivity.
  - vm_compute. reflexivity.
  - vm_compute. reflexivity.
  - lia.
  - discriminate.
  - lia.
Defined.

(** ** C5: an explicit numeric range *)

Definition splitOf (low high : Z) : bool :=
  (low >? high) && negb ((low >=? 0) && (high <? 0)).

Lemma splitOf_spec low high :
  splitOf low high = true <-> low > high /\ ~ (low >= 0 /\ high < 0).
Proof.
  unfold splitOf. rewrite Z.gtb_ltb, Z.geb_leb.
  destruct (Z.ltb_spec high low), (Z.leb_spec 0 low), (Z.ltb_spec high 0);
    simpl; split; intros; try discriminate; try lia; reflexivity.
Qed.

(** What [normalize] gives for an explicit range within the bounds of a
    numeric field. *)
Lemma normalize_range_within name propType min max l h exclude m argToken :
  fieldOf name = Some (propType, min, max) ->
  numericField propType = true ->
  min <= l <= max -> min <= h <= max ->
  (propType = "daysOfMonth" -> l <> 0 /\ h <> 0) ->
  (forall k, m = Some k -> 0 <= k) ->
  normalize name propType min max (NArgument (mkArgument (range l h) exclude m argToken))
  = Ok (mkRange (BNum l) (BNum h) (splitOf l h) m).
Proof.
  intros Hf Hnum Hl Hh Hz Hm.
  eachField Hf; try discriminate Hnum;
    unfold normalize, normalizeNumeric, validate, nodeModulus, nodeFirstToken;
    cbn [argValue argModulus argFirstToken String.eqb Ascii.eqb Bool.eqb negb andb orb];
    rewrite !toInt32_small by lia;
    cbn [mbind Result_bind];
    try (destruct (Hz eq_refl));
    (destruct m as [k|]; [specialize (Hm k eq_refl)|]);
    fold (splitOf l h); generalize (splitOf l h); intros s;
    decideComparisons; reflexivity.
Qed.

(** C5 fails on the code, by a slip of the code: the bounds of a range are
    coerced to 32 bits ([x | 0]) before the check [high > max || low > max],
    so the range 4294967297-5 on [hours], whose low is far above the
    maximum 23, is not rejected.  It compiles to the Range (1, 5), not marked
    split: neither the argument's low, nor the split flag that a low above
    the high (both non-negative) gives. *)
Lemma C5_range_is_coerced_to_32_bits :
  exists rule,
    specSchedule "hour(4294967297-5)" = Ok [rule]
    /\ rule !! "hours" = Some [mkRange (BNum 1) (BNum 5) false None]
    /\ fieldOf "hour" = Some ("hours", 0, 23) /\ 4294967297 > 23
    /\ 4294967297 > 5 /\ ~ (4294967297 >= 0 /\ 5 < 0).
Proof. eexists. repeat split; try (vm_compute; reflexivity); lia. Qed.

(** X21.  On a numeric field (seconds, minutes, hours, daysOfMonth), under
    any of its names, an explicit range whose low and high are within the
    bounds of the field (and not 0 on daysOfMonth), with no modulus or a
    modulus that is not negative, compiles to the Range that has exactly the
    argument's low, high and modulus, and whose split flag is true if and
    only if low > high and not (low >= 0 and high < 0); so a range from a
    positive low to a negative high is not marked split. *)
Theorem X21_range_within_bounds (cmdName propType : string) (min max l h : Z)
    (exclude : bool) (m : option Z) (firstToken argToken : Token) :
  isAscii cmdName = true ->
  fieldOf (toLowerCase cmdName) = Some (propType, min, max) ->
  numericField propType = true ->
  min <= l <= max -> min <= h <= max ->
  (propType = "daysOfMonth" -> l <> 0 /\ h <> 0) ->
  (forall k, m = Some k -> 0 <= k) ->
  exists rule r,
    compileGroup
      [NExpression cmdName [NArgument (mkArgument (range l h) exclude m argToken)]
         firstToken] = Ok (Some rule)
    /\ rule !! (if exclude then propType ++ "Exclude" else propType) = Some [r]
    /\ low r = BNum l /\ high r = BNum h /\ modulus r = m
    /\ (split r = true <-> l > h /\ ~ (l >= 0 /\ h < 0)).
Proof.
  intros Ha Hf Hnum Hl Hh Hz Hm.
  pose proof (normalize_range_within _ _ _ _ _ _ exclude m argToken
                Hf Hnum Hl Hh Hz Hm) as Hn.
  destruct (compileGroup_single_Ok _ _ _ _ _ firstToken _ Ha Hf Hn)
    as (rule & H1 & H2).
  exists rule. eexists. split; [exact H1|]. split; [exact H2|].
  simpl. repeat (split; [reflexivity|]). apply splitOf_spec.
Qed.

Lemma X21_range_within_bounds_witness :
  exists rule r,
    compileGroup
      [NExpression "dom"
         [NArgument (mkArgument (range 5 (-1)) false None (mkToken 4 "5" false))]
         (mkToken 0 "dom" false)] = Ok (Some rule)
    /\ rule !! "daysOfMonth" = Some [r]
    /\ low r = BNum 5 /\ high r = BNum (-1) /\ modulus r = None
    /\ (split r = true <-> 5 > -1 /\ ~ (5 >= 0 /\ -1 < 0)).
Proof.
  refine (X21_range_within_bounds "dom" "daysOfMonth" (-31) 31 5 (-1) false None
            (mkToken 0 "dom" false) (mkToken 4 "5" false) _ _ _ _ _ _ _).
  - vm_compute. reflexivity.
  - vm_compute. reflexivity.
  - vm_compute. reflexivity.
  - lia.
  - lia.
  - intros _. lia.
  - discriminate.
Defined.

(** ** C9: day of month, negative and zero *)

(** C9 does not hold as stated: the day-of-month range 0-32 has its low
    equal to 0 and is rejected for its high, with the error of the maximum,
    not with "Day of month cannot be zero.". *)
Lemma C9_zero_with_bound_out_of_range :
  specSchedule "dom(0-32)"
  = Throw (SyntaxError "Maximum daysOfMonth value is 31" (mkToken 4 "0" false)).
Proof. vm_compute. reflexivity. Qed.

(** C9, as amended.  On the day-of-month field, under any of its names,
    [dom(-1)] compiles without a bounds error and yields Range(-1,-1);
    [dom(0)], and any day-of-month range whose low or high equals 0 and
    whose low and high are both within [-31, 31], raises the fatal error
    "Day of month cannot be zero.". *)
Theorem C9_day_of_month_zero (cmdName : string) (exclude : bool) (m : option Z)
    (firstToken argToken : Token) :
  isAscii cmdName = true ->
  fieldOf (toLowerCase cmdName) = Some ("daysOfMonth", -31, 31) ->
  let compileValue v m :=
    compileGroup
      [NExpression cmdName [NArgument (mkArgument v exclude m argToken)] firstToken] in
  let prop := if exclude then "daysOfMonthExclude" else "daysOfMonth" in
  let zero := SyntaxError "Day of month cannot be zero." argToken in
  (exists rule,
     compileValue (number (-1)) None = Ok (Some rule)
     /\ rule !! prop = Some [mkRange (BNum (-1)) (BNum (-1)) false None])
  /\ compileValue (number 0) m = Throw zero
  /\ (forall l h,
        -31 <= l <= 31 -> -31 <= h <= 31 -> l = 0 \/ h = 0 ->
        compileValue (range l h) m = Throw zero)
  /\ (exists rule,
        specSchedule "dom(-1)" = Ok [rule]
        /\ rule !! "daysOfMonth" = Some [mkRange (BNum (-1)) (BNum (-1)) false None])
  /\ specSchedule "dom(0)"
     = Throw (SyntaxError "Day of month cannot be zero." (mkToken 4 "0" false)).
Proof.
  intros Ha Hf compileValue prop zero. subst compileValue prop zero. cbv beta.
  split; [|split; [|split; [|split]]].
  - apply (compileGroup_single_Ok _ _ _ _
             (NArgument (mkArgument (number (-1)) exclude None argToken))
             firstToken _ Ha Hf).
    reflexivity.
  - apply (compileGroup_single_Throw _ _ _ _ _ _ _ Ha Hf).
    unfold normalize, normalizeNumeric, validate.
    cbn [argValue argModulus argFirstToken String.eqb Ascii.eqb Bool.eqb negb andb orb].
    by destruct (truthy m).
  - intros l h Hl Hh H0.
    apply (compileGroup_single_Throw _ _ _ _ _ _ _ Ha Hf).
    unfold normalize, normalizeNumeric, validate, nodeModulus, nodeFirstToken.
    cbn [argValue argModulus argFirstToken String.eqb Ascii.eqb Bool.eqb negb andb orb].
    rewrite !toInt32_small by lia. cbn [mbind Result_bind].
    generalize ((l >? h) && negb ((l >=? 0) && (h <? 0))). intros s.
    decideComparisons; cbn [orb mbind Result_bind]; first [reflexivity | lia].
  - eexists. split; vm_compute; reflexivity.
  - vm_compute. reflexivity.
Qed.

Lemma C9_day_of_month_zero_witness :
  compileGroup
    [NExpression "dom"
       [NArgument (mkArgument (range 5 0) false None (mkToken 4 "5" false))]
       (mkToken 0 "dom" false)]
  = Throw (SyntaxError "Day of month cannot be zero." (mkToken 4 "5" false)).
Proof.
  refine (proj1 (proj2 (proj2
            (C9_day_of_month_zero "dom" false None
               (mkToken 0 "dom" false) (mkToken 4 "5" false) _ _))) 5 0 _ _ _).
  - vm_compute. reflexivity.
  - vm_compute. reflexivity.
  - lia.
  - lia.
  - right. reflexivity.
Defined.

(** ** C6: date ranges *)

Definition dateSplit (lowMonth lowDay highMonth highDay : Z) : bool :=
  (lowMonth >=? highMonth) && ((lowMonth >? highMonth) || (lowDay >? highDay)).

Lemma dateSplit_spec lm ld hm hd :
  dateSplit lm ld hm hd = true <-> lm > hm \/ (lm = hm /\ ld > hd).
Proof.
  unfold dateSplit. rewrite Z.geb_leb, !Z.gtb_ltb.
  destruct (Z.leb_spec hm lm), (Z.ltb_spec hm lm), (Z.ltb_spec hd ld);
    simpl; split; intros; try discriminate; try lia; reflexivity.
Qed.

(** The parser only builds dates it has validated. *)
Lemma parseNumberOrDate_valid {ext : Externals} tokens ft i month day i' :
  parseNumberOrDate tokens ft i = Ok (BDate month day, i') ->
  1 <= month <= 12 /\ 1 <= day <= daysInMonth (month - 1).
Proof.
  unfold parseNumberOrDate. intros H. repeat stepOk H.
  apply orb_false_elim in C0 as [? ?]. apply orb_false_elim in C1 as [? ?].
  rewrite Z.gtb_ltb in *.
  repeat match goal with C : (_ <? _) = false |- _ => apply Z.ltb_ge in C end.
  lia.
Qed.

Lemma parseValue_dates_valid {ext : Externals} tokens ft i lm ld hm hd i' :
  parseValue tokens ft i = Ok (dates lm ld hm hd, i') ->
  (1 <= lm <= 12 /\ 1 <= ld <= daysInMonth (lm - 1))
  /\ (1 <= hm <= 12 /\ 1 <= hd <= daysInMonth (hm - 1)).
Proof.
  unfold parseValue. intros H. repeat stepOk H; repeat stepOk E0; try discriminate;
    repeat match goal with
           | E : parseNumberOrDate _ _ _ = Ok (BDate _ _, _) |- _ =>
               apply parseNumberOrDate_valid in E
           end; by split.
Qed.

Lemma normalize_dates name min max lm ld hm hd exclude m argToken :
  - 2 ^ 31 <= lm < 2 ^ 31 -> - 2 ^ 31 <= ld < 2 ^ 31 ->
  - 2 ^ 31 <= hm < 2 ^ 31 -> - 2 ^ 31 <= hd < 2 ^ 31 ->
  (forall k, m = Some k -> 0 <= k) ->
  normalize name "dates" min max
    (NArgument (mkArgument (dates lm ld hm hd) exclude m argToken))
  = Ok (mkRange (BDate (lm - 1) ld) (BDate (hm - 1) hd) (dateSplit lm ld hm hd) m).
Proof.
  intros H1 H2 H3 H4 Hm. unfold normalize, normalizeDates, nodeModulus, dateSplit.
  cbn [String.eqb Ascii.eqb Bool.eqb argModulus]. rewrite !toInt32_small by lia.
  cbn [mbind Result_bind].
  destruct m as [k|]; [|reflexivity]. specialize (Hm k eq_refl).
  destruct (Z.ltb_spec k 0); [lia | reflexivity].
Qed.

(** C6.  [date(11/15-2/1)] compiles to a [dates] Range with split = true
    whose low bound is month 10 (zero-indexed November), day 15 and whose
    high bound is month 1 (zero-indexed February), day 1.  More generally,
    under any name of the field, a date range (two calendar dates, as the
    parser validates them: months 1 to 12, days 1 to at most 31) compiles to
    the Range of its two dates with both months decremented, marked split
    exactly when its low month/day lexicographically exceeds its high
    month/day. *)
Theorem C6_date_range (ext : Externals) (cmdName : string) (min max : Z)
    (lowMonth lowDay highMonth highDay : Z)
    (exclude : bool) (firstToken argToken : Token) :
  isAscii cmdName = true ->
  fieldOf (toLowerCase cmdName) = Some ("dates", min, max) ->
  1 <= lowMonth <= 12 -> 1 <= lowDay <= 31 ->
  1 <= highMonth <= 12 -> 1 <= highDay <= 31 ->
  (exists rule r,
     compileGroup
       [NExpression cmdName
          [NArgument
             (mkArgument (dates lowMonth lowDay highMonth highDay) exclude None argToken)]
          firstToken] = Ok (Some rule)
     /\ rule !! (if exclude then "datesExclude" else "dates") = Some [r]
     /\ low r = BDate (lowMonth - 1) lowDay
     /\ high r = BDate (highMonth - 1) highDay
     /\ (split r = true <->
         lowMonth > highMonth \/ (lowMonth = highMonth /\ lowDay > highDay)))
  /\ (exists rule,
        specSchedule "date(11/15-2/1)" = Ok [rule]
        /\ rule !! "dates" = Some [mkRange (BDate 10 15) (BDate 1 1) true None])
  /\ (forall tokens ft i lm ld hm hd i',
        parseValue tokens ft i = Ok (dates lm ld hm hd, i') ->
        (1 <= lm <= 12 /\ 1 <= ld <= daysInMonth (lm - 1))
        /\ (1 <= hm <= 12 /\ 1 <= hd <= daysInMonth (hm - 1))).
Proof.
  intros Ha Hf H1 H2 H3 H4. split; [|split].
  - pose proof (normalize_dates (toLowerCase cmdName) min max
                  lowMonth lowDay highMonth highDay exclude None argToken
                  ltac:(lia) ltac:(lia) ltac:(lia) ltac:(lia) ltac:(discriminate)) as Hn.
    destruct (compileGroup_single_Ok _ _ _ _ _ firstToken _ Ha Hf Hn) as (rule & R1 & R2).
    exists rule. eexists. split; [exact R1|]. split.
    + unfold propOf in R2. simpl in R2. destruct exclude; exact R2.
    + simpl. repeat (split; [reflexivity|]). apply dateSplit_spec.
  - eexists. split; vm_compute; reflexivity.
  - intros tokens ft i lm ld hm hd i'. apply parseValue_dates_valid.
Qed.

Lemma C6_date_range_witness :
  exists rule r,
    compileGroup
      [NExpression "date"
         [NArgument (mkArgument (dates 11 15 2 1) false None (mkToken 5 "11" false))]
         (mkToken 0 "date" false)] = Ok (Some rule)
    /\ rule !! "dates" = Some [r]
    /\ low r = BDate (11 - 1) 15
    /\ high r = BDate (2 - 1) 1
    /\ (split r = true <-> 11 > 2 \/ (11 = 2 /\ 15 > 1)).
Proof.
  refine (proj1 (C6_date_range specExternals "date" 1 31 11 15 2 1 false
                   (mkToken 0 "date" false) (mkToken 5 "11" false) _ _ _ _ _ _)).
  - vm_compute. reflexivity.
  - vm_compute. reflexivity.
  - lia.
  - lia.
  - lia.
  - lia.
Defined.

(** ** C7: implied values *)

(** C7.  A group that compiles to a rule group is the rule group collected
    from its expressions, completed as follows: nothing is added when
    [seconds] or [secondsExclude] was set; otherwise, when [minutes] or
    [minutesExclude] was set, [seconds] becomes [[Range(0,0)]]; otherwise,
    when [hours] or [hoursExclude] was set, [seconds] and [minutes] become
    [[Range(0,0)]]; otherwise (only date-level expressions were set)
    [seconds], [minutes] and [hours] all become [[Range(0,0)]], as for the
    text [date(1/1)]. *)
Theorem C7_implied_values (expressions : list Node) (rule : RuleGroup) :
  compileGroup expressions = Ok (Some rule) ->
  (exists collected,
     compileExpressions expressions (∅, false) = Ok (collected, true)
     /\ let set p := is_Some (collected !! p) in
        let secondsLevel := set "seconds" \/ set "secondsExclude" in
        let minutesLevel := set "minutes" \/ set "minutesExclude" in
        let hoursLevel := set "hours" \/ set "hoursExclude" in
        (secondsLevel -> rule = collected)
        /\ (~ secondsLevel -> minutesLevel ->
            rule = <["seconds" := [Range00]]> collected)
        /\ (~ secondsLevel -> ~ minutesLevel -> hoursLevel ->
            rule = <["minutes" := [Range00]]> (<["seconds" := [Range00]]> collected))
        /\ (~ secondsLevel -> ~ minutesLevel -> ~ hoursLevel ->
            rule = <["hours" := [Range00]]>
                     (<["minutes" := [Range00]]> (<["seconds" := [Range00]]> collected))))
  /\ (exists only,
        specSchedule "date(1/1)" = Ok [only]
        /\ only !! "seconds" = Some [Range00]
        /\ only !! "minutes" = Some [Range00]
        /\ only !! "hours" = Some [Range00]
        /\ only !! "dates" = Some [mkRange (BDate 0 1) (BDate 0 1) false None]).
Proof.
  intros H. split.
  - unfold compileGroup in H. stepOk H. destruct a as [collected b].
    destruct b; [|discriminate]. simpl in H. simplify_eq.
    exists collected. split; [exact E|]. cbv zeta.
    unfold impliedValues, isSet.
    repeat case_bool_decide; cbn [orb]; repeat split; intros; tauto.
  - eexists. repeat split; vm_compute; reflexivity.
Qed.

Lemma C7_implied_values_witness :
  let rule :=
    impliedValues {["hours" := [mkRange (BNum 0) (BNum 23) false None]]} in
  exists collected,
    compileExpressions
      [NExpression "hour" [] (mkToken 0 "hour" false)] (∅, false) = Ok (collected, true)
    /\ let set p := is_Some (collected !! p) in
       let secondsLevel := set "seconds" \/ set "secondsExclude" in
       let minutesLevel := set "minutes" \/ set "minutesExclude" in
       let hoursLevel := set "hours" \/ set "hoursExclude" in
       (secondsLevel -> rule = collected)
       /\ (~ secondsLevel -> minutesLevel ->
           rule = <["seconds" := [Range00]]> collected)
       /\ (~ secondsLevel -> ~ minutesLevel -> hoursLevel ->
           rule = <["minutes" := [Range00]]> (<["seconds" := [Range00]]> collected))
       /\ (~ secondsLevel -> ~ minutesLevel -> ~ hoursLevel ->
           rule = <["hours" := [Range00]]>
                    (<["minutes" := [Range00]]> (<["seconds" := [Range00]]> collected))).
Proof.
  exact (proj1 (C7_implied_values
                  [NExpression "hour" [] (mkToken 0 "hour" false)]
                  (impliedValues
                     {["hours" := [mkRange (BNum 0) (BNum 23) false None]]})
                  eq_refl)).
Defined.

(** ** C8: excluded arguments *)

Lemma buildArgument_S {ext : Externals} tokens fuel :
  buildArgument tokens (S fuel) = buildArgumentBody tokens (buildExpression tokens fuel).
Proof. reflexivity. Qed.

(** The node pushed by [buildExpression] is the expression read at [i]. *)
Lemma buildExpression_node {ext : Externals} tokens fuel i c i' c' :
  buildExpression tokens fuel i c = Ok (i', c') ->
  exists first arguments,
    tokens !! i = Some first
    /\ c' = (c ++ [NExpression (value first) arguments first])%list.
Proof.
  destruct fuel as [|fuel]; [discriminate|]. cbn [buildExpression].
  unfold buildExpressionBody. intros H. repeat stepOk H.
  apply deref_Ok in E. eauto.
Qed.

(** C8.  An argument that starts with [!] is pushed by the parser with
    [isExclude] true, and every other argument with [isExclude] false (a
    [!] is not accepted before a nested expression, and before a [)]
    nothing is pushed).  When the compiler processes an argument, its
    normalized Range is appended to the field's [<field>Exclude] list, the
    field's main list being left as it is, if the argument is marked
    excluded; otherwise it is appended to the main list and the exclude
    list is left as it is.  In particular [hour(9-17, !12)] compiles to
    [hours = [Range(9,17)]] and [hoursExclude = [Range(12,12)]]. *)
Theorem C8_exclusion (ext : Externals) :
  (forall tokens fuel i context i' context' first,
     tokens !! i = Some first ->
     buildArgument tokens fuel i context = Ok (i', context') ->
     context' = context
     \/ (exists a,
           context' = (context ++ [NArgument a])%list
           /\ argFirstToken a = first
           /\ isExclude a = (value first =? "!")%string)
     \/ (exists arguments,
           context' = (context ++ [NExpression (value first) arguments first])%list
           /\ value first <> "!"))
  /\ (forall name propType min max arg rule rule',
        compileArgument name propType min max arg rule = Ok rule' ->
        let excluded := propType ++ "Exclude" in
        exists r,
          normalize name propType min max arg = Ok r
          /\ (nodeIsExclude arg = true ->
              rule' !! excluded = Some (default [] (rule !! excluded) ++ [r])%list
              /\ rule' !! propType = rule !! propType)
          /\ (nodeIsExclude arg = false ->
              rule' !! propType = Some (default [] (rule !! propType) ++ [r])%list
              /\ rule' !! excluded = rule !! excluded))
  /\ (exists rule,
        specSchedule "hour(9-17, !12)" = Ok [rule]
        /\ rule !! "hours" = Some [mkRange (BNum 9) (BNum 17) false None]
        /\ rule !! "hoursExclude" = Some [mkRange (BNum 12) (BNum 12) false None]).
Proof.
  split; [|split].
  - intros tokens fuel i context i' context' first Hfirst H.
    destruct fuel as [|fuel]; [discriminate|]. rewrite buildArgument_S in H.
    unfold buildArgumentBody in H.
    stepOk H. stepOk H. apply deref_Ok in E0. rewrite Hfirst in E0. simplify_eq.
    stepOk H. destruct a1 as [exclude j]. stepOk H. apply deref_Ok in E1.
    assert (Hex : exclude = (value a0 =? "!")%string /\ (exclude = false -> j = i)).
    { repeat stepOk E0; by split. }
    destruct Hex as [-> Hj]. clear E0.
    repeat stepOk H.
    + by left.
    + right; right. specialize (Hj eq_refl). subst j.
      apply buildExpression_node in H as (first' & arguments & Hf' & ->).
      rewrite Hfirst in Hf'. simplify_eq. exists arguments. split; [reflexivity|].
      by apply String.eqb_neq.
    + right; left. apply finishArgument_progress in H as (_ & _ & _ & m & ->).
      eexists. split; [reflexivity|]. by split.
  - intros name propType min max arg rule rule' H.
    unfold compileArgument in H. stepOk H. simplify_eq.
    exists a. split; [exact E|]. split; intros ->.
    + split; [apply lookup_pushRange|].
      apply lookup_pushRange_ne. intros E'. symmetry in E'. by apply exclude_ne in E'.
    + split; [apply lookup_pushRange|].
      apply lookup_pushRange_ne. apply exclude_ne.
  - eexists. repeat split; vm_compute; reflexivity.
Qed.

Lemma C8_exclusion_witness :
  let before : RuleGroup := {["hours" := [mkRange (BNum 9) (BNum 17) false None]]} in
  let after : RuleGroup :=
    pushRange "hoursExclude" (mkRange (BNum 12) (BNum 12) false None) before in
  let arg := NArgument (mkArgument (number 12) true None (mkToken 11 "!" true)) in
  let excluded := "hours" ++ "Exclude" in
  exists r,
    normalize "hour" "hours" 0 23 arg = Ok r
    /\ (nodeIsExclude arg = true ->
        after !! excluded = Some (default [] (before !! excluded) ++ [r])%list
        /\ after !! "hours" = before !! "hours")
    /\ (nodeIsExclude arg = false ->
        after !! "hours" = Some (default [] (before !! "hours") ++ [r])%list
        /\ after !! excluded = before !! excluded).
Proof.
  exact (proj1 (proj2 (C8_exclusion specExternals)) "hour" "hours" 0 23
           (NArgument (mkArgument (number 12) true None (mkToken 11 "!" true)))
           {["hours" := [mkRange (BNum 9) (BNum 17) false None]]}
           (pushRange "hoursExclude" (mkRange (BNum 12) (BNum 12) false None)
              {["hours" := [mkRange (BNum 9) (BNum 17) false None]]})
           eq_refl).
Defined.


(** * Further properties of the builder *)

(** ** The tokenizer: what a token is *)

Lemma string_length_append (s1 s2 : string) :
  String.length (s1 ++ s2) = (String.length s1 + String.length s2)%nat.
Proof.
  induction s1 as [|c s1 IH]; [reflexivity|].
  change (String c s1 ++ s2) with (String c (s1 ++ s2)). simpl. by rewrite IH.
Qed.

Lemma string_append_assoc (s1 s2 s3 : string) : (s1 ++ s2) ++ s3 = s1 ++ s2 ++ s3.
Proof.
  induction s1 as [|c s1 IH]; [reflexivity|].
  change (String c (s1 ++ s2) ++ s3 = String c (s1 ++ s2 ++ s3)).
  change (String c ((s1 ++ s2) ++ s3) = String c (s1 ++ s2 ++ s3)). by rewrite IH.
Qed.

Lemma string_append_nil_r (s : string) : s ++ "" = s.
Proof.
  induction s as [|c s IH]; [reflexivity|].
  change (String c (s ++ "") = String c s). by rewrite IH.
Qed.

(** A character that is neither a blank nor one of the seven special
    characters: the [default] case of the tokenizer's [switch]. *)
Definition isPlainChar (c : ascii) : bool :=
  negb (isWhitespace c) && negb (isSpecialChar c).

Fixpoint allPlain (s : string) : bool :=
  match s with
  | EmptyString => true
  | String c rest => isPlainChar c && allPlain rest
  end.

(** A token as the tokenizer makes them: a special token is one special
    character, any other token a non-empty run of plain characters. *)
Definition tokenShape (t : Token) : Prop :=
  if isSpecial t then exists c, isSpecialChar c = true /\ value t = String c ""
  else value t <> "" /\ allPlain (value t) = true.

Lemma allPlain_append s c :
  allPlain s = true -> isPlainChar c = true -> allPlain (s ++ String c "") = true.
Proof.
  induction s as [|a s IH]; intros Hs Hc.
  - simpl. change ("" ++ String c "") with (String c ""). simpl. by rewrite Hc.
  - change (String a s ++ String c "") with (String a (s ++ String c "")).
    simpl in *. apply andb_prop in Hs as [Ha Hs]. rewrite Ha. simpl. by apply IH.
Qed.

Lemma pushIfValue_shape token tokens :
  isSpecial token = false -> allPlain (value token) = true ->
  Forall tokenShape tokens -> Forall tokenShape (pushIfValue token tokens).
Proof.
  intros Hs Hp Ht. unfold pushIfValue.
  destruct (String.eqb_spec (value token) ""); [exact Ht|].
  apply Forall_app. split; [exact Ht|]. constructor; [|constructor].
  unfold tokenShape. rewrite Hs. by split.
Qed.

Lemma tokenizeFrom_shape str : forall i token tokens,
  isSpecial token = false -> allPlain (value token) = true ->
  Forall tokenShape tokens ->
  Forall tokenShape (tokenizeFrom str i token tokens).
Proof.
  induction str as [|c str IH]; intros i token tokens Hs Hp Ht; simpl.
  { by apply pushIfValue_shape. }
  destruct (isWhitespace c) eqn:W; [|destruct (isSpecialChar c) eqn:S].
  - apply IH; [done | done | by apply pushIfValue_shape].
  - apply IH; [done | done |].
    apply Forall_app. split; [by apply pushIfValue_shape|].
    constructor; [|constructor]. unfold tokenShape. simpl. eauto.
  - apply IH; [done | | done]. simpl.
    apply allPlain_append; [done|]. unfold isPlainChar. by rewrite W, S.
Qed.

(** X1.  Every token of [tokenize] is either a special token, whose value is
    exactly one of the seven special characters, or a token that is not
    special, whose value is not empty and holds no blank and no special
    character. *)
Theorem X1_token_shapes (text : string) : Forall tokenShape (tokenize text).
Proof. unfold tokenize. by apply tokenizeFrom_shape. Qed.

Lemma tokenize_shapes (text : string) (t : Token) : t ∈ tokenize text -> tokenShape t.
Proof.
  intros Hin. assert (H : Forall tokenShape (tokenize text)).
  { unfold tokenize. by apply tokenizeFrom_shape. }
  rewrite Forall_forall in H. by apply H.
Qed.

Lemma tokenize_nonempty (text : string) (t : Token) :
  t ∈ tokenize text -> (0 < String.length (value t))%nat.
Proof.
  intros Hshape%tokenize_shapes. unfold tokenShape in Hshape. destruct (isSpecial t).
  - destruct Hshape as (c & _ & ->). simpl. lia.
  - destruct Hshape as [Hne _]. destruct (value t); [done | simpl; lia].
Qed.

(** ** The tokenizer: where a token is *)

(** The characters of the token are the characters of the text from the
    token's [index] on. *)
Definition atOffset (text : string) (t : Token) : Prop :=
  (index t + String.length (value t) <= String.length text)%nat
  /\ forall k, (k < String.length (value t))%nat ->
       String.get (index t + k) text = String.get k (value t).

Lemma atOffset_append text rest t : atOffset text t -> atOffset (text ++ rest) t.
Proof.
  intros [Hl Hg]. split.
  - rewrite string_length_append. lia.
  - intros k Hk. rewrite <- append_correct1 by lia. by apply Hg.
Qed.

Lemma atOffset_special pre c :
  atOffset (pre ++ String c "") (mkToken (String.length pre) (String c "") true).
Proof.
  split; simpl.
  - rewrite string_length_append. simpl. lia.
  - intros k Hk. assert (k = 0%nat) as -> by lia.
    rewrite Nat.add_0_r. pose proof (append_correct2 pre (String c "") 0) as H1.
    simpl in H1. by rewrite <- H1.
Qed.

Lemma atOffset_extend pre c token :
  atOffset pre token ->
  (index token + String.length (value token))%nat = String.length pre ->
  atOffset (pre ++ String c "")
    (mkToken (index token) (value token ++ String c "") (isSpecial token)).
Proof.
  intros [Hl Hg] He. split; simpl.
  - rewrite !string_length_append. simpl. lia.
  - intros k Hk. rewrite string_length_append in Hk. simpl in Hk.
    destruct (decide (k < String.length (value token))%nat) as [Hlt|Hge].
    + rewrite <- !append_correct1 by lia. by apply Hg.
    + assert (k = String.length (value token)) as -> by lia.
      rewrite He.
      pose proof (append_correct2 pre (String c "") 0) as H1.
      pose proof (append_correct2 (value token) (String c "") 0) as H2.
      simpl in H1, H2. by rewrite <- H1, <- H2.
Qed.

Lemma pushIfValue_Forall (P : Token -> Prop) token tokens :
  P token -> Forall P tokens -> Forall P (pushIfValue token tokens).
Proof.
  intros Hp Ht. unfold pushIfValue. destruct (value token =? "")%string; [done|].
  apply Forall_app. split; [done|]. by constructor.
Qed.

Lemma tokenizeFrom_offsets str : forall pre token tokens,
  atOffset pre token ->
  (index token + String.length (value token))%nat = String.length pre ->
  Forall (atOffset pre) tokens ->
  Forall (atOffset (pre ++ str)) (tokenizeFrom str (String.length pre) token tokens).
Proof.
  induction str as [|c str IH]; intros pre token tokens Ht He Hts; simpl.
  { rewrite string_append_nil_r. by apply pushIfValue_Forall. }
  assert (Hpre : pre ++ String c str = (pre ++ String c "") ++ str).
  { by rewrite string_append_assoc. }
  assert (Hlen : S (String.length pre) = String.length (pre ++ String c "")).
  { rewrite string_length_append. simpl. lia. }
  assert (Hold : Forall (atOffset (pre ++ String c "")) (pushIfValue token tokens)).
  { apply pushIfValue_Forall; [by apply atOffset_append|].
    eapply Forall_impl; [exact Hts|]. intros t. apply atOffset_append. }
  rewrite Hpre, Hlen.
  destruct (isWhitespace c); [|destruct (isSpecialChar c)].
  - apply IH; [| |exact Hold].
    + split; simpl; [lia | intros k Hk; lia].
    + simpl. lia.
  - apply IH.
    + split; simpl; [lia | intros k Hk; lia].
    + simpl. lia.
    + apply Forall_app. split; [exact Hold|]. constructor; [|constructor].
      unfold newToken. apply atOffset_special.
  - apply IH.
    + by apply atOffset_extend.
    + simpl. rewrite !string_length_append. simpl. lia.
    + eapply Forall_impl; [exact Hts|]. intros t. apply atOffset_append.
Qed.

Lemma tokenize_offsets (text : string) : Forall (atOffset text) (tokenize text).
Proof.
  unfold tokenize.
  apply (tokenizeFrom_offsets text "" (newToken 0 None) []); [|done|done].
  split; simpl; [lia | intros k Hk; lia].
Qed.

(** X2.  A token keeps its source offset: for every token of [tokenize
    text], the token lies within the text and its value is, character by
    character, the text from position [index] on. *)
Theorem X2_token_offsets (text : string) (t : Token) :
  t ∈ tokenize text ->
  (index t + String.length (value t) <= String.length text)%nat
  /\ forall k, (k < String.length (value t))%nat ->
       String.get (index t + k) text = String.get k (value t).
Proof.
  intros Hin. pose proof (tokenize_offsets text) as H.
  rewrite Forall_forall in H. by apply H.
Qed.

Lemma X2_token_offsets_witness :
  (5 + String.length "9" <= String.length "hour(9-17, !12)")%nat
  /\ forall k, (k < String.length "9")%nat ->
       String.get (5 + k) "hour(9-17, !12)" = String.get k "9".
Proof.
  refine (X2_token_offsets "hour(9-17, !12)" (mkToken 5 "9" false) _).
  vm_compute. repeat constructor.
Defined.

(** ** The tokenizer: nothing but blanks is lost *)

Fixpoint removeWhitespace (s : string) : string :=
  match s with
  | EmptyString => EmptyString
  | String c rest =>
      if isWhitespace c then removeWhitespace rest else String c (removeWhitespace rest)
  end.

Definition concatValues (tokens : list Token) : string :=
  fold_right (fun t acc => value t ++ acc) "" tokens.

Lemma concatValues_app l1 l2 :
  concatValues (l1 ++ l2) = concatValues l1 ++ concatValues l2.
Proof.
  induction l1 as [|t l1 IH]; [reflexivity|].
  simpl. by rewrite IH, string_append_assoc.
Qed.

Lemma concatValues_pushIfValue token tokens :
  concatValues (pushIfValue token tokens) = concatValues tokens ++ value token.
Proof.
  unfold pushIfValue. destruct (String.eqb_spec (value token) "") as [->|_].
  - by rewrite string_append_nil_r.
  - rewrite concatValues_app. simpl. by rewrite string_append_nil_r.
Qed.

Lemma tokenizeFrom_values str : forall i token tokens,
  concatValues (tokenizeFrom str i token tokens)
  = concatValues tokens ++ value token ++ removeWhitespace str.
Proof.
  induction str as [|c str IH]; intros i token tokens; simpl.
  { by rewrite concatValues_pushIfValue, string_append_nil_r. }
  destruct (isWhitespace c); [|destruct (isSpecialChar c)]; rewrite IH.
  - by rewrite concatValues_pushIfValue, string_append_assoc.
  - rewrite concatValues_app, concatValues_pushIfValue. simpl.
    by rewrite !string_append_assoc.
  - simpl. by rewrite !string_append_assoc.
Qed.

(** X3.  Tokenizing loses nothing but the blanks: the values of the tokens
    of a text, put end to end, are the text with its spaces, tabs, newlines
    and carriage returns removed. *)
Theorem X3_token_values_round_trip (text : string) :
  concatValues (tokenize text) = removeWhitespace text.
Proof. unfold tokenize. by rewrite tokenizeFrom_values. Qed.

(** ** The tokenizer: tokens come in source order *)

Definition endOf (t : Token) : nat := (index t + String.length (value t))%nat.

(** Each token ends before the next one starts. *)
Definition inOrder (tokens : list Token) : Prop :=
  forall j a b, tokens !! j = Some a -> tokens !! S j = Some b ->
    (endOf a <= index b)%nat.

Lemma inOrder_snoc tokens t :
  inOrder tokens -> Forall (fun a => endOf a <= index t)%nat tokens ->
  inOrder (tokens ++ [t]).
Proof.
  intros Ho Hall j a b Ha Hb.
  destruct (decide (S j < length tokens)%nat) as [Hlt|Hge].
  - rewrite lookup_app_l in Ha, Hb by lia. by eapply Ho.
  - apply lookup_lt_Some in Hb as Hlen. rewrite length_app in Hlen. simpl in Hlen.
    rewrite lookup_app_l in Ha by lia.
    rewrite lookup_app_r in Hb by lia.
    replace (S j - length tokens)%nat with 0%nat in Hb by lia. simpl in Hb.
    injection Hb as <-.
    eapply Forall_lookup_1 in Hall; [|exact Ha]. exact Hall.
Qed.

Lemma tokenizeFrom_inOrder str : forall i token tokens,
  endOf token = i ->
  inOrder tokens -> Forall (fun a => endOf a <= index token)%nat tokens ->
  inOrder (tokenizeFrom str i token tokens).
Proof.
  induction str as [|c str IH]; intros i token tokens He Ho Hall; simpl.
  { unfold pushIfValue. destruct (value token =? "")%string; [done|].
    by apply inOrder_snoc. }
  assert (Hpush : inOrder (pushIfValue token tokens)
                  /\ Forall (fun a => endOf a <= i)%nat (pushIfValue token tokens)).
  { assert (Forall (fun a => endOf a <= i)%nat tokens).
    { eapply Forall_impl; [exact Hall|]. intros a Ha. simpl in Ha.
      unfold endOf in He. lia. }
    unfold pushIfValue. destruct (value token =? "")%string; [done|]. split.
    - by apply inOrder_snoc.
    - apply Forall_app. split; [done|]. constructor; [lia | constructor]. }
  destruct Hpush as [Ho' Hall'].
  destruct (isWhitespace c); [|destruct (isSpecialChar c)].
  - apply IH; [unfold endOf; simpl; lia | exact Ho' |].
    eapply Forall_impl; [exact Hall'|]. intros a Ha. simpl in *. lia.
  - apply IH; [unfold endOf; simpl; lia | |].
    + apply inOrder_snoc; [exact Ho'|]. exact Hall'.
    + apply Forall_app. split.
      * eapply Forall_impl; [exact Hall'|]. intros a Ha. simpl in *. lia.
      * constructor; [|constructor]. unfold endOf. simpl. lia.
  - apply IH; [| exact Ho | exact Hall].
    unfold endOf in *. simpl. rewrite string_length_append. simpl. lia.
Qed.

(** X4.  The tokens of [tokenize] come in source order and do not overlap:
    each token ends at or before the offset where the next one starts. *)
Theorem X4_tokens_in_source_order (text : string) : inOrder (tokenize text).
Proof.
  unfold tokenize. apply tokenizeFrom_inOrder; [reflexivity | | constructor].
  intros j a b Ha. discriminate Ha.
Qed.

(** ** The rendered error *)

Lemma substring_length (s : string) : forall n m,
  (n + m <= String.length s)%nat -> String.length (substring n m s) = m.
Proof.
  induction s as [|c s IH]; intros n m H; simpl in H.
  - assert (n = 0%nat) as -> by lia. assert (m = 0%nat) as -> by lia. reflexivity.
  - destruct n as [|n]; simpl.
    + destruct m as [|m]; [reflexivity|]. simpl. rewrite IH; [reflexivity | lia].
    + apply IH. lia.
Qed.

Lemma pointer_length count : forall i tokenIndex,
  String.length (pointer i count tokenIndex) = count.
Proof. induction count as [|count IH]; intros i x; simpl; [done | by rewrite IH]. Qed.

Lemma pointer_get count : forall i tokenIndex k,
  (k < count)%nat ->
  String.get k (pointer i count tokenIndex)
  = Some (if (i + k =? tokenIndex)%nat then "^" else " ")%char.
Proof.
  induction count as [|count IH]; intros i x k Hk; [lia|].
  simpl. destruct k as [|k].
  - by rewrite Nat.add_0_r.
  - rewrite IH by lia. by rewrite Nat.add_succ_r.
Qed.

(** X5.  The diagnostic that [syntaxError] renders for a token of the text
    points at that token.  After the message come, on two lines indented by
    four spaces, a part of the text (from at most 10 characters before the
    token to at most 20 after it) and a pointer line of the same length; the
    pointer line is blank but for one caret, and the caret stands exactly
    under the first character of the token. *)
Theorem X5_error_text_points_at_token (text message : string) (t : Token) :
  t ∈ tokenize text ->
  let startIndex := (index t - 10)%nat in
  let endIndex :=
    Nat.min (index t + String.length (value t) + 20) (String.length text) in
  let width := (endIndex - startIndex)%nat in
  let caret := (index t - startIndex)%nat in
  exists sub ptr,
    syntaxErrorText text message t
    = message ++ newline ++ "    " ++ sub ++ newline ++ "    " ++ ptr
    /\ String.length sub = width /\ String.length ptr = width
    /\ (caret <= 10)%nat /\ (caret + String.length (value t) <= width)%nat
    /\ (0 < String.length (value t))%nat
    /\ (forall k, (k < width)%nat -> String.get k sub = String.get (startIndex + k) text)
    /\ (forall k, (k < String.length (value t))%nat ->
          String.get (caret + k) sub = String.get k (value t))
    /\ (forall k, (k < width)%nat ->
          String.get k ptr = Some (if (k =? caret)%nat then "^" else " ")%char).
Proof.
  intros Hin startIndex endIndex width caret.
  pose proof (tokenize_offsets text) as Hoff.
  rewrite Forall_forall in Hoff. destruct (Hoff t Hin) as [Hlen Hget].
  pose proof (tokenize_nonempty text t Hin) as Hpos.
  exists (substring startIndex width text), (pointer startIndex width (index t)).
  split; [reflexivity|].
  assert (Hw : (startIndex + width <= String.length text)%nat)
    by (subst startIndex endIndex width; lia).
  split; [by apply substring_length|].
  split; [apply pointer_length|].
  split; [subst caret startIndex; lia|].
  split; [subst caret startIndex endIndex width; lia|].
  split; [exact Hpos|].
  split; [|split].
  - intros k Hk. rewrite substring_correct1 by lia. f_equal. lia.
  - intros k Hk. rewrite substring_correct1 by (subst caret startIndex endIndex width; lia).
    rewrite <- Hget by lia. f_equal. subst caret startIndex. lia.
  - intros k Hk. rewrite pointer_get by lia. do 2 f_equal.
    subst caret startIndex.
    destruct (Nat.eqb_spec (index t - 10 + k) (index t)),
             (Nat.eqb_spec k (index t - (index t - 10))); try reflexivity; lia.
Qed.

Lemma X5_error_text_points_at_token_witness :
  exists sub ptr,
    syntaxErrorText "min(5) hour(" "Expression is missing a closing parenthesis."
      (mkToken 7 "hour" false)
    = "Expression is missing a closing parenthesis."
        ++ newline ++ "    " ++ sub ++ newline ++ "    " ++ ptr
    /\ String.length sub = 12%nat /\ String.length ptr = 12%nat
    /\ (7 <= 10)%nat /\ (7 + 4 <= 12)%nat /\ (0 < 4)%nat
    /\ (forall k, (k < 12)%nat -> String.get k sub = String.get (0 + k) "min(5) hour(")
    /\ (forall k, (k < 4)%nat -> String.get (7 + k) sub = String.get k "hour")
    /\ (forall k, (k < 12)%nat ->
          String.get k ptr = Some (if (k =? 7)%nat then "^" else " ")%char).
Proof.
  refine (X5_error_text_points_at_token "min(5) hour("
            "Expression is missing a closing parenthesis." (mkToken 7 "hour" false) _).
  vm_compute. repeat constructor.
Defined.

(** ** The parser always terminates *)

Lemma buildDocument_step {ext : Externals} tokens fuel : forall i ast,
  approx (buildDocument tokens fuel i ast) (buildDocument tokens (S fuel) i ast).
Proof.
  induction fuel as [|fuel IH]; intros i ast; [left; reflexivity|].
  cbn [buildDocument].
  destruct (tokens !! i) as [t|]; [|apply approx_refl].
  destruct (isExpression t).
  - apply approx_bind; [apply fuel_step | intros [j ast']; apply IH].
  - destruct ((0 <? i)%nat && (value t =? ",")%string); [apply IH | apply approx_refl].
Qed.

Lemma buildDocument_mono {ext : Externals} tokens fuel fuel' i ast :
  (fuel <= fuel')%nat ->
  approx (buildDocument tokens fuel i ast) (buildDocument tokens fuel' i ast).
Proof.
  induction 1 as [|fuel' _ IH]; [apply approx_refl|].
  eapply approx_trans; [exact IH | apply buildDocument_step].
Qed.

(** X6.  Parsing terminates on every token array.  The loops of
    [buildAbstractSyntaxTree], [buildExpression] and [buildArgument] advance
    the cursor on every pass, so that the fuel [parseFuel] (three steps per
    token, and three more) is never used up, and any larger fuel gives the
    same tree or the same error. *)
Theorem X6_parsing_terminates (ext : Externals) (tokens : list Token) (fuel : nat) :
  (parseFuel tokens <= fuel)%nat ->
  buildAbstractSyntaxTree tokens <> OutOfFuel
  /\ buildDocument tokens fuel 0%nat [] = buildAbstractSyntaxTree tokens.
Proof.
  intros Hfuel. pose proof (buildAbstractSyntaxTree_fueled tokens) as F.
  split; [exact F|]. symmetry.
  apply fueled_approx; [exact F|]. by apply buildDocument_mono.
Qed.

Lemma X6_parsing_terminates_witness :
  buildAbstractSyntaxTree (ext := specExternals) (tokenize "hour(9-17, !12)") <> OutOfFuel
  /\ buildDocument (ext := specExternals) (tokenize "hour(9-17, !12)") 100%nat 0%nat []
     = buildAbstractSyntaxTree (ext := specExternals) (tokenize "hour(9-17, !12)").
Proof.
  refine (X6_parsing_terminates specExternals (tokenize "hour(9-17, !12)") 100%nat _).
  vm_compute. lia.
Defined.

(** ** What an expression consumes *)

(** X7.  A call of [buildExpression] that succeeds at position [i] has read
    a name at [i] and a [(] right after it, returns the position right
    after a [)], at least three tokens further and within the array, and
    has pushed exactly one node on its context: the expression named by the
    token at [i], with that token as its first token. *)
Theorem X7_expression_span (ext : Externals) (tokens : list Token) (fuel i i' : nat)
    (context context' : list Node) :
  buildExpression tokens fuel i context = Ok (i', context') ->
  exists first open close arguments,
    tokens !! i = Some first
    /\ tokens !! S i = Some open /\ value open = "("
    /\ tokens !! (i' - 1)%nat = Some close /\ value close = ")"
    /\ (i + 3 <= i')%nat /\ (i' <= length tokens)%nat
    /\ context' = (context ++ [NExpression (value first) arguments first])%list.
Proof.
  destruct fuel as [|fuel]; [discriminate|].
  change (buildExpression tokens (S fuel))
    with (buildExpressionBody tokens (buildArguments tokens fuel)).
  unfold buildExpressionBody. intros H. repeat stepOk H.
  apply deref_Ok in E, E0.
  pose proof (proj2 (proj2 (builders_progress tokens fuel)) _ _ _ _ E1) as Hback.
  apply lookup_lt_Some in C1 as Hlt.
  exists a, a0, t, l. simpl. rewrite Nat.sub_0_r.
  apply negb_false_iff, String.eqb_eq in C0, C2.
  repeat split; try done; lia.
Qed.

Lemma X7_expression_span_witness :
  exists first open close arguments,
    tokenize "hour(9-17, !12)" !! 0%nat = Some first
    /\ tokenize "hour(9-17, !12)" !! 1%nat = Some open /\ value open = "("
    /\ tokenize "hour(9-17, !12)" !! (9 - 1)%nat = Some close /\ value close = ")"
    /\ (0 + 3 <= 9)%nat /\ (9 <= length (tokenize "hour(9-17, !12)"))%nat
    /\ [NExpression "hour"
          [NArgument (mkArgument (range 9 17) false None (mkToken 5 "9" false));
           NArgument (mkArgument (number 12) true None (mkToken 11 "!" true))]
          (mkToken 0 "hour" false)]
       = ([] ++ [NExpression (value first) arguments first])%list.
Proof.
  refine (X7_expression_span specExternals (tokenize "hour(9-17, !12)")
            10%nat 0%nat 9%nat [] _ _).
  vm_compute. reflexivity.
Defined.

(** ** An expression is parsed from its own tokens only *)

(** X8.  What [buildExpression] builds depends on the tokens it consumes and
    on nothing else: if it succeeds at position [i] of an array and returns
    [i'], then on any array that holds the same [i' - i] tokens at position
    [j] it succeeds at [j], consumes as many tokens and pushes the same
    node. *)
Theorem X8_expression_is_local (ext : Externals) (tokens tokens' : list Token)
    (fuel i i' j : nat) (context context' : list Node) :
  buildExpression tokens fuel i context = Ok (i', context') ->
  take (i' - i) (drop j tokens') = take (i' - i) (drop i tokens) ->
  buildExpression tokens' fuel j context = Ok ((j + (i' - i))%nat, context').
Proof.
  intros H Hsame.
  pose proof (proj1 (proj2 (builders_progress tokens fuel)) _ _ _ _ H) as Hlt.
  pose proof (buildExpression_bound _ _ _ _ _ _ H) as Hle.
  pose proof (window_slice tokens i (i' - i) ltac:(lia)) as W.
  destruct (window_builders _ _ _ _ W fuel) as (_ & We & _).
  pose proof (We 0%nat context i' context') as We'. rewrite Nat.add_0_r in We'.
  destruct (We' H ltac:(lia)) as (k' & Hslice & Hk').
  assert (k' = (i' - i)%nat) as -> by lia.
  assert (Hemb : embedded (take (i' - i) (drop i tokens)) tokens' j).
  { intros k t Hk. rewrite <- Hsame in Hk.
    apply lookup_take_Some in Hk as [Hk _]. by rewrite lookup_drop in Hk. }
  destruct (embedded_builders _ _ _ Hemb fuel) as (_ & He & _).
  apply He in Hslice. by rewrite Nat.add_0_r in Hslice.
Qed.

Lemma X8_expression_is_local_witness :
  buildExpression (ext := specExternals)
    (tokenize "hour(" ++ tokenize "hour(9-17, !12)" ++ tokenize ")") 10%nat 2%nat []
  = Ok ((2 + (9 - 0))%nat,
        [NExpression "hour"
           [NArgument (mkArgument (range 9 17) false None (mkToken 5 "9" false));
            NArgument (mkArgument (number 12) true None (mkToken 11 "!" true))]
           (mkToken 0 "hour" false)]).
Proof.
  refine (X8_expression_is_local specExternals (tokenize "hour(9-17, !12)")
            (tokenize "hour(" ++ tokenize "hour(9-17, !12)" ++ tokenize ")")
            10%nat 0%nat 9%nat 2%nat [] _ _ _).
  - vm_compute. reflexivity.
  - vm_compute. reflexivity.
Defined.

(** ** A wildcard is never bare *)

Lemma parseValue_wildcard {ext : Externals} tokens ft i i' :
  parseValue tokens ft i = Ok (wildcard, i') ->
  i' = i /\ exists t, tokens !! i = Some t /\ value t = "%".
Proof.
  unfold parseValue. intros H. stepOk H. apply deref_Ok in E. stepOk H.
  { simplify_eq. apply String.eqb_eq in C. eauto. }
  repeat stepOk H; repeat stepOk E0; discriminate.
Qed.

Lemma finishArgument_modulus {ext : Externals} tokens ft ex v i c i' c' t :
  finishArgument tokens ft ex v i c = Ok (i', c') ->
  tokens !! i = Some t -> value t = "%" ->
  exists k, c' = (c ++ [NArgument (mkArgument v ex (Some k) ft)])%list.
Proof.
  unfold finishArgument. intros H Ht Hv. rewrite Ht in H. simpl in H.
  rewrite Hv in H. change ("%" =? "%")%string with true in H. cbv iota in H.
  stepOk H. destruct a as [modulus j]. stepOk H. stepOk E. stepOk E.
  destruct a0 as [k j']. stepOk E. eauto.
Qed.

(** X9.  The parser never builds a bare wildcard: the [%] that makes an
    argument a wildcard is also read as the start of its modulus, so every
    wildcard argument that [buildArgument] pushes carries a modulus. *)
Theorem X9_wildcard_has_modulus (ext : Externals) (tokens : list Token) (fuel i i' : nat)
    (context context' : list Node) (a : Argument) :
  buildArgument tokens fuel i context = Ok (i', context') ->
  context' = (context ++ [NArgument a])%list ->
  argValue a = wildcard ->
  exists k, argModulus a = Some k.
Proof.
  intros H Hctx Hw.
  destruct fuel as [|fuel]; [discriminate|]. rewrite buildArgument_S in H.
  unfold buildArgumentBody in H.
  stepOk H. stepOk H. stepOk H. destruct a2 as [exclude j]. stepOk H.
  destruct (isSpecial a2 && (value a2 =? ")")%string).
  { injection H as _ <-. apply (f_equal length) in Hctx.
    rewrite length_app in Hctx. simpl in Hctx. lia. }
  destruct (isSpecial a2 && (value a2 =? ",")%string); [discriminate|].
  destruct (isExpression a2).
  { destruct exclude; [discriminate|].
    apply buildExpression_node in H as (first & arguments & _ & H).
    rewrite H in Hctx. by apply app_inj_tail in Hctx as [_ ?]. }
  stepOk H. destruct a3 as [v j']. 
  pose proof (finishArgument_progress _ _ _ _ _ _ _ _ H) as (_ & _ & _ & m & Hc).
  rewrite Hc in Hctx. apply app_inj_tail in Hctx as [_ [= <-]].
  simpl in Hw. subst v.
  apply parseValue_wildcard in E3 as (-> & t & Ht & Hv).
  destruct (finishArgument_modulus _ _ _ _ _ _ _ _ _ H Ht Hv) as (k & Hk).
  rewrite Hc in Hk. apply app_inj_tail in Hk as [_ [= ->]]. simpl. eauto.
Qed.

Lemma X9_wildcard_has_modulus_witness :
  exists k,
    argModulus (mkArgument wildcard false (Some 2) (mkToken 5 "%" true)) = Some k.
Proof.
  refine (X9_wildcard_has_modulus specExternals (tokenize "hour(%2)") 5%nat 2%nat 4%nat
            [] [NArgument (mkArgument wildcard false (Some 2) (mkToken 5 "%" true))]
            _ _ _ _).
  - vm_compute. reflexivity.
  - reflexivity.
  - reflexivity.
Defined.

(** * Further properties of the group compiler *)

(** ** Weekdays *)




(** ** Wildcards and expressions without arguments *)

(** The first and last value a field's Ranges can hold: the bounds of the
    field, shifted to zero-based weekdays on [daysOfWeek]. *)
Definition firstValue (propType : string) (min : Z) : Z :=
  if (propType =? "daysOfWeek")%string then min - 1 else min.

Definition lastValue (propType : string) (max : Z) : Z :=
  if (propType =? "daysOfWeek")%string then max - 1 else max.

Lemma normalize_wildcard name propType min max exclude m argToken :
  fieldOf name = Some (propType, min, max) ->
  propType <> "dates" -> (forall k, m = Some k -> 0 <= k) ->
  normalize name propType min max (NArgument (mkArgument wildcard exclude m argToken))
  = Ok (mkRange
          (BNum (if (propType =? "daysOfMonth")%string then 1 else firstValue propType min))
          (BNum (lastValue propType max)) false m).
Proof.
  intros Hf Hd Hm.
  eachField Hf; try done;
    unfold normalize, normalizeNumeric, validate, nodeModulus, nodeFirstToken;
    cbn [argValue argModulus argFirstToken String.eqb Ascii.eqb Bool.eqb negb andb orb];
    (destruct m as [k|]; [specialize (Hm k eq_refl)|]);
    cbn [negb andb orb mbind Result_bind Z.ltb Z.gtb Z.eqb Z.compare Pos.compare
         Pos.compare_cont];
    decideComparisons; reflexivity.
Qed.

Lemma normalize_default name propType min max firstToken :
  fieldOf name = Some (propType, min, max) ->
  propType <> "dates" ->
  normalize name propType min max
    (NArgument (mkArgument (range min max) false None firstToken))
  = Ok (mkRange (BNum (firstValue propType min)) (BNum (lastValue propType max)) false None).
Proof.
  intros Hf Hd. eachField Hf; try done; vm_compute; reflexivity.
Qed.

Lemma normalize_negative_modulus name propType min max arg k r :
  normalize name propType min max arg = Ok r ->
  nodeModulus arg = Some k -> 0 <= k.
Proof.
  unfold normalize. intros H Hk. stepOk H. destruct a as [[lo hi] sp].
  rewrite Hk in H. destruct (Z.ltb_spec k 0); [discriminate | done].
Qed.

(** X11.  A wildcard argument stands for the whole domain of its field,
    stepped by its modulus: it compiles to the Range from the field's first
    value to its last (0 to 59 on seconds and minutes, 0 to 23 on hours, 0 to
    6 on weekdays), except on day of month, where it starts at 1 and not at
    -31.  Inside a [date] expression a wildcard never compiles: the test for
    a wildcard there is not chained to the test for a date, so the error
    "Invalid argument. Expected a date." is raised.  A negative modulus is
    rejected with "Modulus value cannot be negative.". *)
Theorem X11_wildcard (cmdName propType : string) (min max : Z)
    (exclude : bool) (m : option Z) (firstToken argToken : Token) :
  isAscii cmdName = true ->
  fieldOf (toLowerCase cmdName) = Some (propType, min, max) ->
  let compiled :=
    compileGroup
      [NExpression cmdName [NArgument (mkArgument wildcard exclude m argToken)]
         firstToken] in
  (propType = "dates" ->
     compiled = Throw (SyntaxError "Invalid argument. Expected a date." argToken))
  /\ (propType <> "dates" -> (forall k, m = Some k -> 0 <= k) ->
      exists rule,
        compiled = Ok (Some rule)
        /\ rule !! (if exclude then propType ++ "Exclude" else propType)
           = Some [mkRange
                     (BNum (if (propType =? "daysOfMonth")%string then 1
                            else firstValue propType min))
                     (BNum (lastValue propType max)) false m])
  /\ (propType <> "dates" -> forall k, m = Some k -> k < 0 ->
      compiled = Throw (SyntaxError "Modulus value cannot be negative." argToken)).
Proof.
  intros Ha Hf compiled. subst compiled. split; [|split].
  - intros ->. apply (compileGroup_single_Throw _ _ _ _ _ _ _ Ha Hf). reflexivity.
  - intros Hd Hm.
    apply (compileGroup_single_Ok _ _ _ _
             (NArgument (mkArgument wildcard exclude m argToken)) firstToken _ Ha Hf).
    by apply normalize_wildcard.
  - intros Hd k -> Hk. apply (compileGroup_single_Throw _ _ _ _ _ _ _ Ha Hf).
    eachField Hf; try done;
      unfold normalize, normalizeNumeric, validate, nodeModulus, nodeFirstToken;
      cbn [argValue argModulus argFirstToken String.eqb Ascii.eqb Bool.eqb negb andb orb
           mbind Result_bind Z.ltb Z.gtb Z.eqb Z.compare Pos.compare Pos.compare_cont];
      destruct (Z.ltb_spec k 0); try lia; reflexivity.
Qed.

Lemma X11_wildcard_witness :
  exists rule,
    compileGroup
      [NExpression "dom"
         [NArgument (mkArgument wildcard false (Some 2) (mkToken 4 "%" true))]
         (mkToken 0 "dom" false)] = Ok (Some rule)
    /\ rule !! "daysOfMonth" = Some [mkRange (BNum 1) (BNum 31) false (Some 2)].
Proof.
  refine (proj1 (proj2 (X11_wildcard "dom" "daysOfMonth" (-31) 31 false (Some 2)
                          (mkToken 0 "dom" false) (mkToken 4 "%" true) _ _)) _ _).
  - vm_compute. reflexivity.
  - vm_compute. reflexivity.
  - discriminate.
  - intros k [= <-]. lia.
Defined.

(** X12.  An expression without arguments stands for the whole domain of
    its field: [hour()] compiles as [hour(0-23)] does, [dow()] to the weekdays
    0 to 6 and [dom()] to the Range from -31 to 31 (not from 1, as the
    wildcard does), completed by the implied values.  [date()] sets no
    [dates] at all but counts as a rule, so alone it compiles to the rule
    group that has only the implied values: seconds, minutes and hours 0. *)
Theorem X12_no_arguments (cmdName propType : string) (min max : Z) (firstToken : Token) :
  isAscii cmdName = true ->
  fieldOf (toLowerCase cmdName) = Some (propType, min, max) ->
  exists rule,
    compileGroup [NExpression cmdName [] firstToken] = Ok (Some rule)
    /\ (propType = "dates" ->
        rule = <["hours" := [Range00]]>
                 (<["minutes" := [Range00]]> (<["seconds" := [Range00]]> ∅)))
    /\ (propType <> "dates" ->
        rule = impliedValues
                 {[ propType := [mkRange (BNum (firstValue propType min))
                                   (BNum (lastValue propType max)) false None] ]}
        /\ compileGroup [NExpression cmdName [] firstToken]
           = compileGroup
               [NExpression cmdName
                  [NArgument (mkArgument (range min max) false None firstToken)]
                  firstToken]).
Proof.
  intros Ha Hf. unfold compileGroup. simpl. rewrite Ha, Hf. simpl.
  destruct (propType =? "dates")%string eqn:Hd.
  - apply String.eqb_eq in Hd as ->. simpl. eexists. split; [reflexivity|].
    split; [|done]. intros _. reflexivity.
  - apply String.eqb_neq in Hd. unfold compileArgument.
    rewrite (normalize_default _ _ _ _ firstToken Hf Hd). simpl.
    eexists. split; [reflexivity|]. split; [done|]. intros _.
    split; [|reflexivity]. unfold pushRange. rewrite lookup_empty. simpl.
    by rewrite insert_empty.
Qed.

Lemma X12_no_arguments_witness :
  exists rule,
    compileGroup [NExpression "dom" [] (mkToken 0 "dom" false)] = Ok (Some rule)
    /\ rule !! "daysOfMonth" = Some [mkRange (BNum (-31)) (BNum 31) false None]
    /\ rule !! "hours" = Some [Range00].
Proof.
  destruct (X12_no_arguments "dom" "daysOfMonth" (-31) 31 (mkToken 0 "dom" false))
    as (rule & H1 & _ & H2).
  - vm_compute. reflexivity.
  - vm_compute. reflexivity.
  - exists rule. split; [exact H1|].
    destruct H2 as [-> _]; [discriminate|]. split; vm_compute; reflexivity.
Defined.

(** ** What a tree must look like to compile *)

(** The kinds of argument each field takes: dates only in [dates], weekday
    names only in [daysOfWeek], numbers, ranges and wildcards everywhere but
    in [dates], and a nested expression nowhere. *)
Definition literalFits (propType : string) (arg : Node) : bool :=
  match arg with
  | NExpression _ _ _ => false
  | NArgument a =>
      match argValue a with
      | dates _ _ _ _ => (propType =? "dates")%string
      | days _ _ => (propType =? "daysOfWeek")%string
      | wildcard | number _ | range _ _ => negb (propType =? "dates")%string
      end
  end.

Definition expressionFits (cmd : Node) : bool :=
  match cmd with
  | NArgument _ => false
  | NExpression cmdName arguments _ =>
      match fieldOf (toLowerCase cmdName) with
      | Some (propType, _, _) => forallb (literalFits propType) arguments
      | None => false
      end
  end.

Definition topLevelFits (cmd : Node) : bool :=
  match cmd with
  | NArgument _ => false
  | NExpression name arguments _ =>
      if (name =? "group")%string then forallb expressionFits arguments
      else expressionFits cmd
  end.

Lemma normalize_fits name propType min max arg r :
  normalize name propType min max arg = Ok r -> literalFits propType arg = true.
Proof.
  unfold normalize, normalizeDates, normalizeNumeric. intros H. stepOk H. clear H.
  destruct (propType =? "dates")%string eqn:Hd.
  - destruct arg as [[[] ? ? ?]|]; try discriminate. by simpl.
  - stepOk E. clear E. destruct arg as [[[] ? ? ?]|]; simpl in *;
      rewrite ?Hd; try done; destruct (propType =? "daysOfWeek")%string; done.
Qed.

Lemma compileArguments_fits name propType min max args : forall state state',
  compileArguments name propType min max args state = Ok state' ->
  forallb (literalFits propType) args = true.
Proof.
  induction args as [|arg args IH]; intros state state' H; [done|].
  simpl in H. stepOk H. unfold compileArgument in E. stepOk E.
  simpl. rewrite (normalize_fits _ _ _ _ _ _ E0). by eapply IH.
Qed.

Lemma compileExpression_fits cmd state state' :
  compileExpression cmd state = Ok state' -> expressionFits cmd = true.
Proof.
  unfold compileExpression, expressionFits. intros H.
  destruct cmd as [a|cmdName arguments firstToken]; [done|].
  destruct (isAscii cmdName); [|done]. simpl in H.
  destruct (fieldOf (toLowerCase cmdName)) as [[[propType min] max]|]; [|done].
  destruct arguments as [|arg arguments]; [done|].
  by eapply compileArguments_fits.
Qed.

Lemma compileExpressions_fits expressions : forall state state',
  compileExpressions expressions state = Ok state' ->
  forallb expressionFits expressions = true.
Proof.
  induction expressions as [|cmd expressions IH]; intros state state' H; [done|].
  simpl in H. stepOk H. simpl. rewrite (compileExpression_fits _ _ _ E).
  by eapply IH.
Qed.

Lemma compileGroup_fits expressions r :
  compileGroup expressions = Ok r -> forallb expressionFits expressions = true.
Proof.
  unfold compileGroup. intros H. stepOk H. destruct a as [rule b].
  by eapply compileExpressions_fits.
Qed.

Lemma forallb_snoc {A} (f : A -> bool) l x :
  forallb f (l ++ [x]) = forallb f l && f x.
Proof. rewrite forallb_app. simpl. by rewrite andb_true_r. Qed.

Lemma compileNodes_fits ast : forall rules g rules' g',
  compileNodes ast rules g = Ok (rules', g') ->
  forallb expressionFits g' = true ->
  forallb topLevelFits ast = true /\ forallb expressionFits g = true.
Proof.
  induction ast as [|cmd ast IH]; intros rules g rules' g' H Hg'.
  { simpl in H. by simplify_eq. }
  simpl in H. destruct cmd as [a|name arguments firstToken]; [done|].
  cbn [forallb topLevelFits]. destruct (name =? "group")%string eqn:Hg.
  - stepOk H. destruct a as [rule|]; [|done].
    rewrite (compileGroup_fits _ _ E). by eapply IH.
  - destruct (IH _ _ _ _ H Hg') as [H1 H2]. rewrite forallb_snoc in H2.
    apply andb_true_iff in H2 as [H2 H3]. by rewrite H1, H3.
Qed.

(** X13.  The parser nests expressions to any depth, the compiler accepts
    only flat trees: when [compile] completes, every top-level node is an
    expression, every [group] holds field expressions only, and every field
    expression, inside a group or at the top level, has a known field name
    and holds only literal arguments of a kind its field takes (dates in
    [date] expressions and nowhere else, weekday names only in day-of-week
    expressions).  In particular a group inside a group, a field expression
    inside a field expression and a [group] that is not written in lower
    case never compile. *)
Theorem X13_compiled_trees_are_flat (ast : list Node) (rules : list RuleGroup) :
  compile ast = Ok rules -> forallb topLevelFits ast = true.
Proof.
  unfold compile. intros H. stepOk H. destruct a as [rules0 g].
  eapply compileNodes_fits; [exact E|].
  destruct (0 <? length g)%nat eqn:Hg.
  - stepOk H. by eapply compileGroup_fits.
  - apply Nat.ltb_ge in Hg. by destruct g; [|simpl in Hg; lia].
Qed.

Lemma X13_compiled_trees_are_flat_witness :
  forallb topLevelFits
    [NExpression "group"
       [NExpression "dow"
          [NArgument (mkArgument (days 1 5) false None (mkToken 10 "mon" false))]
          (mkToken 6 "dow" false)]
       (mkToken 0 "group" false);
     NExpression "Hour"
       [NArgument (mkArgument (number 9) false None (mkToken 27 "9" false))]
       (mkToken 22 "Hour" false)] = true.
Proof.
  refine (X13_compiled_trees_are_flat _ _ _).
  vm_compute. reflexivity.
Defined.

(** ** What a compiled rule group holds *)

(** A Range of numbers between [lo] and [hi], without the value 0 when
    [zeroFree]; its split flag is the one its low and high determine. *)
Definition withinField (lo hi : Z) (zeroFree : bool) (r : Range) : bool :=
  match low r, high r with
  | BNum l, BNum h =>
      (lo <=? l) && (l <=? hi) && (lo <=? h) && (h <=? hi)
      && (negb zeroFree || (negb (l =? 0) && negb (h =? 0)))
      && Bool.eqb (split r) ((h <? l) && negb ((0 <=? l) && (h <? 0)))
  | _, _ => false
  end.

(** A Range of two dates; split when the low date is after the high one. *)
Definition isDateRange (r : Range) : bool :=
  match low r, high r with
  | BDate lowMonth lowDay, BDate highMonth highDay =>
      Bool.eqb (split r)
        ((highMonth <? lowMonth) || ((lowMonth =? highMonth) && (highDay <? lowDay)))
  | _, _ => false
  end.

(** What a Range in the list [rule[prop]] has to satisfy. *)
Definition validRange (prop : string) (r : Range) : bool :=
  match modulus r with Some k => 0 <=? k | None => true end
  && (if oneOf prop ["seconds"; "secondsExclude"; "minutes"; "minutesExclude"]
      then withinField 0 59 false r
      else if oneOf prop ["hours"; "hoursExclude"] then withinField 0 23 false r
      else if oneOf prop ["daysOfWeek"; "daysOfWeekExclude"] then withinField 0 6 false r
      else if oneOf prop ["daysOfMonth"; "daysOfMonthExclude"]
      then withinField (-31) 31 true r
      else if oneOf prop ["dates"; "datesExclude"] then isDateRange r
      else false).

Definition validRule (rule : RuleGroup) : Prop :=
  forall prop l, rule !! prop = Some l -> l <> [] /\ forallb (validRange prop) l = true.

(** Turns the boolean comparisons of the hypotheses into propositions. *)
Ltac comparisons :=
  repeat match goal with
         | H : (_ || _) = false |- _ => apply orb_false_iff in H as [? ?]
         | H : (_ && _) = true |- _ => apply andb_true_iff in H as [? ?]
         | H : negb _ = true |- _ => apply negb_true_iff in H
         | H : negb _ = false |- _ => apply negb_false_iff in H
         | H : (_ <? _) = true |- _ => apply Z.ltb_lt in H
         | H : (_ <? _) = false |- _ => apply Z.ltb_ge in H
         | H : (_ >? _) = true |- _ => rewrite Z.gtb_ltb in H
         | H : (_ >? _) = false |- _ => rewrite Z.gtb_ltb in H
         | H : (_ =? _) = true |- _ => apply Z.eqb_eq in H
         | H : (_ =? _) = false |- _ => apply Z.eqb_neq in H
         end.

Lemma normalize_valid name propType min max arg r :
  fieldOf name = Some (propType, min, max) ->
  normalize name propType min max arg = Ok r ->
  validRange propType r = true /\ validRange (propType ++ "Exclude") r = true.
Proof.
  intros Hf H.
  assert (Hm : match modulus r with Some k => 0 <=? k | None => true end = true).
  { unfold normalize in H. stepOk H. destruct a as [[lo hi] sp].
    destruct (nodeModulus arg) as [k|]; [|by simplify_eq].
    destruct (Z.ltb_spec k 0); [done|]. simplify_eq. simpl. by apply Z.leb_le. }
  unfold validRange. rewrite Hm. clear Hm.
  assert (G : exists lo hi sp m, r = mkRange lo hi sp m
                /\ if (propType =? "dates")%string
                   then normalizeDates arg = Ok (lo, hi, sp)
                   else exists l h,
                          lo = BNum l /\ hi = BNum h
                          /\ exists l0 h0,
                               normalizeNumeric name propType min max arg = Ok (l0, h0, sp)
                               /\ validate propType min max (nodeFirstToken arg) l0 h0
                                  = Ok (l, h)).
  { unfold normalize in H. stepOk H. destruct a as [[lo hi] sp].
    exists lo, hi, sp, (nodeModulus arg). split.
    - destruct (nodeModulus arg) as [k|]; repeat stepOk H; done.
    - destruct (propType =? "dates")%string; [done|].
      stepOk E. destruct a as [[l0 h0] sp0]. stepOk E. destruct a as [l h].
      simplify_eq. eauto 10. }
  destruct G as (lo & hi & sp & m & -> & G). clear H.
  eachField Hf; cbn [String.eqb Ascii.eqb Bool.eqb] in G; cbn [andb];
    repeat match goal with
           | |- context [(?a ++ "Exclude")%string] =>
               let s := eval vm_compute in (a ++ "Exclude")%string in
               change (a ++ "Exclude")%string with s
           end;
    unfold oneOf, existsb; cbn [String.eqb Ascii.eqb Bool.eqb orb].
  6: { unfold normalizeDates in G.
       destruct arg as [[[|?|? ?|? ?|lm ld hm hd] ? ? ?]|]; try discriminate.
       revert G. generalize (toInt32 lm) (toInt32 hm) (toInt32 ld) (toInt32 hd).
       intros a b c d G. simplify_eq.
       unfold isDateRange. cbn [low high split].
       rewrite !Z.geb_leb, !Z.gtb_ltb.
       destruct (Z.leb_spec b a), (Z.ltb_spec b a), (Z.ltb_spec (b - 1) (a - 1)),
         (Z.eqb_spec (a - 1) (b - 1)), (Z.ltb_spec d c); try lia; split; reflexivity. }
  all: destruct G as (l & h & -> & -> & l0 & h0 & Hn & Hv).
  all: unfold validate in Hv; cbn [String.eqb Ascii.eqb Bool.eqb andb] in Hv.
  all: repeat stepOk Hv; comparisons.
  all: unfold normalizeNumeric, normalizeDays in Hn;
    cbn [String.eqb Ascii.eqb Bool.eqb andb negb] in Hn.
  all: destruct arg as [a|]; [|discriminate];
    destruct (argValue a) as [|n|l1 h1|l1 h1|? ? ? ?]; try discriminate.
  all: repeat match type of Hn with
              | context [toInt32 ?x] =>
                  let v := fresh "v" in
                  revert Hn; generalize (toInt32 x); intros v Hn
              end.
  all: repeat match type of Hn with
              | context [if ?b then _ else _] => destruct b eqn:?
              end;
    simplify_eq; comparisons.
  all: unfold withinField; cbn [low high split negb orb andb].
  all: decideComparisons; cbn [negb andb orb Bool.eqb]; try lia; split; reflexivity.
Qed.

Lemma validRule_empty : validRule ∅.
Proof. intros prop l H. by rewrite lookup_empty in H. Qed.

Lemma validRule_pushRange rule prop r :
  validRule rule -> validRange prop r = true -> validRule (pushRange prop r rule).
Proof.
  intros Hrule Hr prop' l H. destruct (decide (prop = prop')) as [<-|Hne].
  - rewrite lookup_pushRange in H. simplify_eq. split.
    + by intros [_ ?]%app_eq_nil.
    + rewrite forallb_snoc, Hr, andb_true_r.
      destruct (rule !! prop) as [l|] eqn:Hl; [|done]. by apply (Hrule prop l).
  - rewrite lookup_pushRange_ne in H by done. by apply Hrule.
Qed.

Lemma validRule_default rule prop :
  oneOf prop ["seconds"; "minutes"; "hours"] = true ->
  validRule rule -> validRule (<[prop := [Range00]]> rule).
Proof.
  intros Hp Hrule prop' l H. destruct (decide (prop = prop')) as [<-|Hne].
  - rewrite lookup_insert_eq in H. simplify_eq. split; [done|].
    simpl in Hp. rewrite !orb_true_iff in Hp.
    destruct Hp as [Hp|[Hp|[Hp|?]]]; [..|done]; apply String.eqb_eq in Hp as ->;
      vm_compute; reflexivity.
  - rewrite lookup_insert_ne in H by done. by apply Hrule.
Qed.

Lemma validRule_impliedValues rule : validRule rule -> validRule (impliedValues rule).
Proof.
  intros H. unfold impliedValues.
  repeat match goal with
         | |- context [if ?b then _ else _] => destruct b
         end; repeat apply validRule_default; done.
Qed.

Lemma compileArguments_valid name propType min max args : forall rule b rule' b',
  fieldOf name = Some (propType, min, max) ->
  compileArguments name propType min max args (rule, b) = Ok (rule', b') ->
  validRule rule -> validRule rule'.
Proof.
  induction args as [|arg args IH]; intros rule b rule' b' Hf H Hrule.
  { simpl in H. by simplify_eq. }
  simpl in H. stepOk H. eapply IH; [done | exact H |].
  unfold compileArgument in E. stepOk E. simplify_eq.
  destruct (normalize_valid _ _ _ _ _ _ Hf E0) as [H1 H2].
  apply validRule_pushRange; [done|]. by destruct (nodeIsExclude arg).
Qed.

Lemma compileExpression_valid cmd rule b rule' b' :
  compileExpression cmd (rule, b) = Ok (rule', b') -> validRule rule -> validRule rule'.
Proof.
  unfold compileExpression. intros H Hrule.
  destruct cmd as [a|cmdName arguments firstToken]; [done|].
  destruct (isAscii cmdName); [|done]. cbn [negb] in H.
  destruct (fieldOf (toLowerCase cmdName)) as [[[propType min] max]|] eqn:Hf; [|done].
  destruct arguments as [|arg arguments].
  - destruct (propType =? "dates")%string; [simpl in H; by simplify_eq|].
    eapply compileArguments_valid; [exact Hf | exact H | exact Hrule].
  - eapply compileArguments_valid; [exact Hf | exact H | exact Hrule].
Qed.

Lemma compileExpressions_valid expressions : forall rule b rule' b',
  compileExpressions expressions (rule, b) = Ok (rule', b') ->
  validRule rule -> validRule rule'.
Proof.
  induction expressions as [|cmd expressions IH]; intros rule b rule' b' H Hrule.
  { simpl in H. by simplify_eq. }
  simpl in H. stepOk H. destruct a as [rule1 b1].
  eapply IH; [exact H|]. by eapply compileExpression_valid.
Qed.

Lemma compileGroup_valid expressions rule :
  compileGroup expressions = Ok (Some rule) -> validRule rule.
Proof.
  unfold compileGroup. intros H. stepOk H. destruct a as [rule0 b].
  destruct b; [|done]. simpl in H. simplify_eq.
  apply validRule_impliedValues. eapply compileExpressions_valid; [exact E|].
  apply validRule_empty.
Qed.

Lemma compileNodes_valid ast : forall rules g rules' g',
  compileNodes ast rules g = Ok (rules', g') ->
  Forall validRule rules -> Forall validRule rules'.
Proof.
  induction ast as [|cmd ast IH]; intros rules g rules' g' H Hr.
  { simpl in H. by simplify_eq. }
  simpl in H. destruct cmd as [a|name arguments firstToken]; [done|].
  destruct (name =? "group")%string; [|by eapply IH].
  stepOk H. destruct a as [rule|]; [|done].
  eapply IH; [exact H|]. apply Forall_app. split; [done|].
  constructor; [|done]. by eapply compileGroup_valid.
Qed.

(** X14.  Every rule group that [compile] returns is well formed, whatever
    the tree it was compiled from.  Only the twelve properties [seconds],
    [secondsExclude], ..., [dates], [datesExclude] are set; a list that is
    set is not empty; every Range in a list of seconds or minutes lies
    within 0 to 59, of hours within 0 to 23, of weekdays within 0 to 6, of
    days of month within -31 to 31 and never has the bound 0; a Range of
    [dates] holds two month/day pairs; a modulus is never negative; and the
    split flag is the one determined by the bounds (high below low, unless
    low counts from the front and high from the back; for dates, the low
    date after the high date). *)
Theorem X14_compiled_rules_are_valid (ast : list Node) (rules : list RuleGroup) :
  compile ast = Ok rules -> Forall validRule rules.
Proof.
  unfold compile. intros H. stepOk H. destruct a as [rules0 g].
  apply compileNodes_valid in E; [|done].
  destruct (0 <? length g)%nat; [|by simplify_eq].
  stepOk H. destruct a as [rule|]; [|repeat stepOk H]. simplify_eq.
  apply Forall_app. split; [done|]. constructor; [|done].
  by eapply compileGroup_valid.
Qed.

Lemma X14_compiled_rules_are_valid_witness :
  Forall validRule
    [impliedValues
       (pushRange "hoursExclude" (mkRange (BNum 0) (BNum 0) false None)
          (pushRange "hours" (mkRange (BNum 22) (BNum 2) true None)
             (pushRange "daysOfMonth" (mkRange (BNum (-1)) (BNum (-1)) false None) ∅)))].
Proof.
  refine (X14_compiled_rules_are_valid
            [NExpression "dom"
               [NArgument (mkArgument (number (-1)) false None (mkToken 4 "-" true))]
               (mkToken 0 "dom" false);
             NExpression "hour"
               [NArgument (mkArgument (range 22 2) false None (mkToken 13 "22" false));
                NArgument (mkArgument (number 0) true None (mkToken 19 "!" true))]
               (mkToken 8 "hour" false)] _ _).
  reflexivity.
Defined.

(** ** Groups and the implicit group *)

Definition isExpressionNode (cmd : Node) : bool :=
  match cmd with
  | NExpression _ _ _ => true
  | NArgument _ => false
  end.

(** [cmd.name === 'group'] *)
Definition isGroup (cmd : Node) : bool :=
  match cmd with
  | NExpression name _ _ => (name =? "group")%string
  | NArgument _ => false
  end.

Definition argumentsOf (cmd : Node) : list Node :=
  match cmd with
  | NExpression _ arguments _ => arguments
  | NArgument _ => []
  end.

(** The explicit groups of a tree and the expressions of its implicit
    group, each in source order. *)
Definition groupsOf (ast : list Node) : list Node := List.filter isGroup ast.

Definition globalsOf (ast : list Node) : list Node :=
  List.filter (fun cmd => negb (isGroup cmd)) ast.

Definition compilesTo (cmd : Node) (rule : RuleGroup) : Prop :=
  compileGroup (argumentsOf cmd) = Ok (Some rule).

Lemma compileNodes_spec ast : forall rules g rules' g',
  compileNodes ast rules g = Ok (rules', g')
  <-> forallb isExpressionNode ast = true
      /\ g' = (g ++ globalsOf ast)%list
      /\ exists groupRules,
           Forall2 compilesTo (groupsOf ast) groupRules
           /\ rules' = (rules ++ groupRules)%list.
Proof.
  induction ast as [|cmd ast IH]; intros rules g rules' g'.
  { simpl. split.
    - intros [= <- <-]. rewrite app_nil_r. split; [done|]. split; [done|].
      exists []. by rewrite app_nil_r.
    - intros (_ & -> & gr & Hgr & ->). apply Forall2_nil_inv_l in Hgr as ->.
      by rewrite !app_nil_r. }
  destruct cmd as [a|name arguments firstToken].
  { simpl. split; [done | by intros [? _]]. }
  unfold groupsOf, globalsOf. cbn [compileNodes forallb isExpressionNode List.filter isGroup].
  destruct (name =? "group")%string eqn:Hg; cbn [negb andb].
  - fold (groupsOf ast) (globalsOf ast). split.
    + intros H. stepOk H. destruct a as [rule|]; [|done].
      apply IH in H as (H1 & H2 & gr & H3 & H4). split; [done|]. split; [done|].
      exists (rule :: gr). split; [by constructor|]. by rewrite H4, <- app_assoc.
    + intros (H1 & H2 & gr & H3 & H4).
      apply Forall2_cons_inv_l in H3 as (rule & gr' & Hrule & Hgr & ->).
      unfold compilesTo in Hrule. simpl in Hrule. rewrite Hrule. simpl.
      apply IH. split; [done|]. split; [done|]. exists gr'. split; [done|].
      by rewrite H4, <- app_assoc.
  - fold (groupsOf ast) (globalsOf ast). rewrite IH. rewrite <- app_assoc. done.
Qed.

(** X15.  What [compile] returns, exactly.  A tree compiles if and only if
    all its top-level nodes are expressions, each [group] among them
    compiles to a rule group and, when there are top-level expressions
    other than groups, these compile together as one more group.  The
    result holds the rule groups of the explicit groups in source order,
    followed by the rule group of the implicit one: the implicit group is
    always last, wherever its expressions stand between the groups. *)
Theorem X15_groups_then_implicit_group (ast : list Node) (rules : list RuleGroup) :
  compile ast = Ok rules
  <-> forallb isExpressionNode ast = true
      /\ exists groupRules,
           Forall2 compilesTo (groupsOf ast) groupRules
           /\ match globalsOf ast with
              | [] => rules = groupRules
              | _ :: _ =>
                  exists rule,
                    compileGroup (globalsOf ast) = Ok (Some rule)
                    /\ rules = (groupRules ++ [rule])%list
              end.
Proof.
  unfold compile. split.
  - intros H. stepOk H. destruct a as [rules0 g].
    apply compileNodes_spec in E as (H1 & -> & gr & H3 & ->).
    rewrite !app_nil_l in H. split; [done|]. exists gr. split; [done|].
    destruct (globalsOf ast) as [|cmd globals].
    + change (0 <? length (@nil Node))%nat with false in H. cbv iota in H.
      by simplify_eq.
    + change (0 <? length (cmd :: globals))%nat with true in H. cbv iota in H.
      stepOk H. destruct a as [rule|]; [|repeat stepOk H].
      simplify_eq. eauto.
  - intros (H1 & gr & H2 & H3).
    assert (E : compileNodes ast [] [] = Ok (gr, globalsOf ast)).
    { apply compileNodes_spec. split; [done|]. split; [done|]. by exists gr. }
    rewrite E. cbn [mbind Result_bind].
    destruct (globalsOf ast) as [|cmd globals].
    + change (0 <? length (@nil Node))%nat with false. by subst.
    + change (0 <? length (cmd :: globals))%nat with true. cbv iota.
      destruct H3 as (rule & H3 & ->). by rewrite H3.
Qed.

Lemma X15_groups_then_implicit_group_witness :
  let ast :=
    [NExpression "hour" [] (mkToken 0 "hour" false);
     NExpression "group" [NExpression "min" [] (mkToken 13 "min" false)]
       (mkToken 7 "group" false);
     NExpression "dom" [] (mkToken 20 "dom" false)] in
  forallb isExpressionNode ast = true
  /\ exists groupRules,
       Forall2 compilesTo (groupsOf ast) groupRules
       /\ match globalsOf ast with
          | [] =>
              [impliedValues
                 (pushRange "minutes" (mkRange (BNum 0) (BNum 59) false None) ∅);
               impliedValues
                 (pushRange "daysOfMonth" (mkRange (BNum (-31)) (BNum 31) false None)
                    (pushRange "hours" (mkRange (BNum 0) (BNum 23) false None) ∅))]
              = groupRules
          | _ :: _ =>
              exists rule,
                compileGroup (globalsOf ast) = Ok (Some rule)
                /\ [impliedValues
                      (pushRange "minutes" (mkRange (BNum 0) (BNum 59) false None) ∅);
                    impliedValues
                      (pushRange "daysOfMonth"
                         (mkRange (BNum (-31)) (BNum 31) false None)
                         (pushRange "hours" (mkRange (BNum 0) (BNum 23) false None) ∅))]
                   = (groupRules ++ [rule])%list
          end.
Proof.
  intros ast. refine (proj1 (X15_groups_then_implicit_group ast _) _).
  reflexivity.
Defined.

(** ** Expressions of one group accumulate *)

Lemma bind_assoc {A B C} (m : Result A) (f : A -> Result B) (g : B -> Result C) :
  (m ≫= f) ≫= g = m ≫= fun a => f a ≫= g.
Proof. by destruct m. Qed.

Lemma compileArguments_app name propType min max args1 : forall args2 state,
  compileArguments name propType min max (args1 ++ args2) state
  = compileArguments name propType min max args1 state
    ≫= compileArguments name propType min max args2.
Proof.
  induction args1 as [|arg args1 IH]; intros args2 state; [done|].
  simpl. rewrite bind_assoc.
  destruct (compileArgument name propType min max arg state.1); simpl;
    first [done | apply IH].
Qed.

Lemma compileExpressions_app expressions1 : forall expressions2 state,
  compileExpressions (expressions1 ++ expressions2) state
  = compileExpressions expressions1 state ≫= compileExpressions expressions2.
Proof.
  induction expressions1 as [|cmd expressions1 IH]; intros expressions2 state; [done|].
  simpl. rewrite bind_assoc.
  destruct (compileExpression cmd state); simpl; first [done | apply IH].
Qed.

Lemma compileExpression_split cmdName args1 args2 firstToken firstToken' state :
  args1 <> [] -> args2 <> [] ->
  compileExpression (NExpression cmdName (args1 ++ args2) firstToken) state
  = compileExpression (NExpression cmdName args1 firstToken) state
    ≫= compileExpression (NExpression cmdName args2 firstToken').
Proof.
  intros H1 H2. unfold compileExpression.
  destruct (isAscii cmdName); [|done]. simpl.
  destruct (fieldOf (toLowerCase cmdName)) as [[[propType min] max]|]; [|done].
  destruct args1 as [|arg1 args1]; [done|]. destruct args2 as [|arg2 args2]; [done|].
  change ((arg1 :: args1) ++ arg2 :: args2)%list
    with (arg1 :: (args1 ++ arg2 :: args2))%list.
  change (arg1 :: (args1 ++ arg2 :: args2))%list
    with ((arg1 :: args1) ++ arg2 :: args2)%list at 2.
  by rewrite compileArguments_app.
Qed.

(** X16.  Expressions of the same field accumulate within a group: giving
    the arguments of one expression in two expressions of the same name, one
    after the other, changes nothing, for the rule group that results and
    for the error that is raised alike.  So [hour(9, 17)] and
    [hour(9) hour(17)] compile to the same rule group.  (Both parts must have
    an argument: an expression without arguments stands for the whole
    domain.) *)
Theorem X16_same_field_accumulates (pre post args1 args2 : list Node)
    (cmdName : string) (firstToken firstToken' : Token) :
  args1 <> [] -> args2 <> [] ->
  compileGroup
    (pre ++ NExpression cmdName args1 firstToken
         :: NExpression cmdName args2 firstToken' :: post)
  = compileGroup (pre ++ NExpression cmdName (args1 ++ args2) firstToken :: post).
Proof.
  intros H1 H2. unfold compileGroup. rewrite !compileExpressions_app.
  destruct (compileExpressions pre (∅, false)) as [state| | |]; try done.
  cbn [mbind Result_bind compileExpressions].
  rewrite (compileExpression_split _ _ _ firstToken firstToken' _ H1 H2).
  f_equal. by rewrite bind_assoc.
Qed.

Lemma X16_same_field_accumulates_witness :
  compileGroup
    [NExpression "hour"
       [NArgument (mkArgument (number 9) false None (mkToken 5 "9" false))]
       (mkToken 0 "hour" false);
     NExpression "hour"
       [NArgument (mkArgument (number 17) false None (mkToken 13 "17" false))]
       (mkToken 8 "hour" false)]
  = compileGroup
      [NExpression "hour"
         [NArgument (mkArgument (number 9) false None (mkToken 5 "9" false));
          NArgument (mkArgument (number 17) false None (mkToken 13 "17" false))]
         (mkToken 0 "hour" false)].
Proof.
  refine (X16_same_field_accumulates [] []
            [NArgument (mkArgument (number 9) false None (mkToken 5 "9" false))]
            [NArgument (mkArgument (number 17) false None (mkToken 13 "17" false))]
            "hour" (mkToken 0 "hour" false) (mkToken 8 "hour" false) _ _); discriminate.
Defined.


(** ** Expressions of different fields commute *)

(** The pushes of an expression: the property and the Range of each of its
    arguments, in order. *)
Definition pushAll (pushes : list (string * Range)) (rule : RuleGroup) : RuleGroup :=
  foldl (fun rule p => pushRange p.1 p.2 rule) rule pushes.

Definition propsOf (propType : string) (pushes : list (string * Range)) : Prop :=
  Forall (fun p => p.1 = propType \/ p.1 = (propType ++ "Exclude")%string) pushes.

(** The field an expression sets, when its name is known. *)
Definition fieldName (cmd : Node) : option string :=
  match cmd with
  | NExpression cmdName _ _ =>
      match fieldOf (toLowerCase cmdName) with
      | Some (propType, _, _) => Some propType
      | None => None
      end
  | NArgument _ => None
  end.

(** The argument loop reads the rule group only to append to it. *)
Lemma compileArguments_pushes name propType min max args : forall state state',
  compileArguments name propType min max args state = Ok state' ->
  exists pushes,
    propsOf propType pushes
    /\ forall rule b,
         exists b', compileArguments name propType min max args (rule, b)
                    = Ok (pushAll pushes rule, b').
Proof.
  induction args as [|arg args IH]; intros state state' H.
  { exists []. split; [constructor|]. intros rule b. by exists b. }
  simpl in H. stepOk H. unfold compileArgument in E. stepOk E. simplify_eq.
  destruct (IH _ _ H) as (pushes & Hp & Hall).
  exists ((if nodeIsExclude arg then (propType ++ "Exclude")%string else propType, a0)
            :: pushes).
  split.
  - constructor; [|done]. simpl. destruct (nodeIsExclude arg); auto.
  - intros rule b. destruct (Hall
      (pushRange (if nodeIsExclude arg then (propType ++ "Exclude")%string else propType)
         a0 rule) true) as (b' & Hb').
    exists b'. simpl. unfold compileArgument. rewrite E0. simpl. exact Hb'.
Qed.

Lemma compileExpression_pushes cmd state state' :
  compileExpression cmd state = Ok state' ->
  exists propType pushes,
    fieldName cmd = Some propType
    /\ propsOf propType pushes
    /\ forall rule b, compileExpression cmd (rule, b) = Ok (pushAll pushes rule, true).
Proof.
  intros H.
  assert (G : exists propType pushes,
                fieldName cmd = Some propType
                /\ propsOf propType pushes
                /\ forall rule b,
                     exists b', compileExpression cmd (rule, b)
                                = Ok (pushAll pushes rule, b')).
  { unfold compileExpression, fieldName in *.
    destruct cmd as [a|cmdName arguments firstToken]; [done|].
    destruct (isAscii cmdName); [|done]. cbn [negb] in *.
    destruct (fieldOf (toLowerCase cmdName)) as [[[propType min] max]|]; [|done].
    exists propType. destruct arguments as [|arg arguments].
    - destruct (propType =? "dates")%string.
      + exists []. split; [done|]. split; [constructor|]. intros rule b. by exists true.
      + apply compileArguments_pushes in H as (pushes & Hp & Hall). eauto.
    - apply compileArguments_pushes in H as (pushes & Hp & Hall). eauto. }
  destruct G as (propType & pushes & Hf & Hp & Hall).
  exists propType, pushes. split; [done|]. split; [done|].
  intros rule b. destruct (Hall rule b) as (b' & Hb'). rewrite Hb'.
  by apply compileExpression_set in Hb' as ->.
Qed.

Lemma pushRange_commute prop1 r1 prop2 r2 (rule : RuleGroup) :
  prop1 <> prop2 ->
  pushRange prop1 r1 (pushRange prop2 r2 rule)
  = pushRange prop2 r2 (pushRange prop1 r1 rule).
Proof.
  intros Hne. unfold pushRange.
  rewrite !lookup_insert_ne by done. by apply insert_insert_ne.
Qed.

Lemma pushAll_pushRange prop r pushes : forall rule,
  Forall (fun p => p.1 <> prop) pushes ->
  pushAll pushes (pushRange prop r rule) = pushRange prop r (pushAll pushes rule).
Proof.
  induction pushes as [|[prop' r'] pushes IH]; intros rule H; [done|].
  apply Forall_cons in H as [H1 H2]. simpl in *.
  rewrite <- IH by done. f_equal. by apply pushRange_commute.
Qed.

Lemma pushAll_commute pushes1 : forall pushes2 rule,
  Forall (fun p1 => Forall (fun p2 => p2.1 <> p1.1) pushes2) pushes1 ->
  pushAll pushes1 (pushAll pushes2 rule) = pushAll pushes2 (pushAll pushes1 rule).
Proof.
  induction pushes1 as [|[prop r] pushes1 IH]; intros pushes2 rule H; [done|].
  apply Forall_cons in H as [H1 H2]. simpl in *.
  rewrite <- pushAll_pushRange by done. by apply IH.
Qed.

Lemma fieldName_cases cmd propType :
  fieldName cmd = Some propType ->
  propType ∈ ["seconds"; "minutes"; "hours"; "daysOfWeek"; "daysOfMonth"; "dates"].
Proof.
  unfold fieldName. destruct cmd as [|cmdName ? ?]; [done|].
  destruct (fieldOf (toLowerCase cmdName)) as [[[p min] max]|] eqn:Hf; [|done].
  intros [= <-]. eachField Hf; by repeat constructor.
Qed.

Lemma props_disjoint cmd1 cmd2 propType1 propType2 pushes1 pushes2 :
  fieldName cmd1 = Some propType1 -> fieldName cmd2 = Some propType2 ->
  propType1 <> propType2 ->
  propsOf propType1 pushes1 -> propsOf propType2 pushes2 ->
  Forall (fun p1 => Forall (fun p2 => p2.1 <> p1.1) pushes2) pushes1.
Proof.
  intros H1%fieldName_cases H2%fieldName_cases Hne Hp1 Hp2.
  eapply Forall_impl; [exact Hp1|]. intros [k1 r1] Hk1.
  eapply Forall_impl; [exact Hp2|]. intros [k2 r2] Hk2. simpl in *.
  repeat (apply elem_of_cons in H1 as [->|H1]);
    [..|by apply elem_of_nil in H1];
    (repeat (apply elem_of_cons in H2 as [->|H2]);
     [..|by apply elem_of_nil in H2]);
    try done;
    destruct Hk1 as [->| ->], Hk2 as [->| ->]; intros E; vm_compute in E; discriminate.
Qed.

(** X17.  Within a group, the order of two neighbouring expressions of
    different fields does not matter: when the group compiles, the group
    with the two expressions swapped compiles to the same rule group.  (An
    argument is normalized without looking at what was collected before it,
    and the two expressions append to different lists.) *)
Theorem X17_different_fields_commute (pre post : list Node) (cmd1 cmd2 : Node)
    (r : option RuleGroup) :
  fieldName cmd1 <> fieldName cmd2 ->
  compileGroup (pre ++ cmd1 :: cmd2 :: post) = Ok r ->
  compileGroup (pre ++ cmd2 :: cmd1 :: post) = Ok r.
Proof.
  intros Hne. unfold compileGroup. rewrite !compileExpressions_app.
  destruct (compileExpressions pre (∅, false)) as [[rule b]| | |]; try done.
  cbn [mbind Result_bind compileExpressions]. intros H.
  apply bind_Ok in H as (state & H & Hr).
  apply bind_Ok in H as (state1 & E1 & H).
  apply bind_Ok in H as (state2 & E2 & H).
  destruct (compileExpression_pushes _ _ _ E1) as (p1 & pushes1 & Hf1 & Hp1 & Hall1).
  destruct (compileExpression_pushes _ _ _ E2) as (p2 & pushes2 & Hf2 & Hp2 & Hall2).
  rewrite Hall1 in E1. simplify_eq. rewrite Hall2 in E2. simplify_eq.
  rewrite Hall2. cbn [mbind Result_bind]. rewrite Hall1. cbn [mbind Result_bind].
  rewrite pushAll_commute, H; [done|].
  eapply props_disjoint; [exact Hf1 | exact Hf2 | | done | done].
  intros ->. apply Hne. by rewrite Hf1, Hf2.
Qed.

Lemma X17_different_fields_commute_witness :
  compileGroup
    [NExpression "min" [] (mkToken 8 "min" false);
     NExpression "hour"
       [NArgument (mkArgument (number 9) false None (mkToken 5 "9" false))]
       (mkToken 0 "hour" false)]
  = Ok (Some
          (impliedValues
             (pushRange "minutes" (mkRange (BNum 0) (BNum 59) false None)
                (pushRange "hours" (mkRange (BNum 9) (BNum 9) false None) ∅)))).
Proof.
  refine (X17_different_fields_commute [] []
            (NExpression "hour"
               [NArgument (mkArgument (number 9) false None (mkToken 5 "9" false))]
               (mkToken 0 "hour" false))
            (NExpression "min" [] (mkToken 8 "min" false)) _ _ _).
  - vm_compute. discriminate.
  - reflexivity.
Defined.

(** * Further properties of the parser: what it throws *)

(** What an error of the parser refers to.  A syntax error carries a token
    of the array.  The other failure is the read of a property of a token
    past the end of the array, which only happens when the array ends where
    the parser does not check for the end: after a minus sign it takes for
    the sign of a number, and after the weekday name that closes a range. *)
Definition errorWithin {ext : Externals} (tokens : list Token) (e : Error) : Prop :=
  match e with
  | SyntaxError _ t => t ∈ tokens
  | TypeError _ =>
      exists t, last tokens = Some t /\ (value t = "-" \/ isDayKeyword t = true)
  end.

Definition sound {ext : Externals} {A} (tokens : list Token) (r : Result A) : Prop :=
  forall e, r = Throw e -> errorWithin tokens e.

Lemma sound_bind {ext : Externals} {A B} tokens (m : Result A) (k : A -> Result B) :
  sound tokens m -> (forall a, m = Ok a -> sound tokens (k a)) -> sound tokens (m ≫= k).
Proof.
  intros Hm Hk e. destruct m; simpl; try done.
  - by apply Hk.
  - intros [= <-]. by apply Hm.
Qed.

(** Proves that a term built from sound pieces is [sound]. *)
Ltac soundSteps :=
  repeat first
    [ match goal with
      | H : sound _ ?r |- sound _ ?r => exact H
      | |- sound _ (Ok _) => intros ? ?; discriminate
      | |- sound _ Unmodelled => intros ? ?; discriminate
      | |- sound _ OutOfFuel => intros ? ?; discriminate
      | |- sound _ (_ ≫= _) => apply sound_bind; [|intros ? ?]
      | |- sound _ (let '(_, _) := ?p in _) => destruct p
      | |- sound _ (if ?b then _ else _) => let C := fresh "C" in destruct b eqn:C
      | |- sound _ (match ?x with _ => _ end) => let C := fresh "C" in destruct x eqn:C
      end ].

(** Reads off where the cursor is after the steps of a successful run. *)
Ltac cursorFacts :=
  repeat match goal with
         | E : parseNumber _ _ = Ok _ |- _ => apply parseNumber_progress in E
         | E : parseNumberOrDate _ _ _ = Ok _ |- _ => apply parseNumberOrDate_progress in E
         | E : ensureToken _ (_ !! _) = Ok _ |- _ => apply ensureToken_lt in E
         | E : deref _ (_ !! _) = Ok _ |- _ => apply deref_Ok in E
         end.

Section Errors.
Context {ext : Externals}.
Variable tokens : list Token.

Lemma sound_SyntaxError {A} message t :
  t ∈ tokens -> sound (A := A) tokens (Throw (SyntaxError message t)).
Proof. intros Ht e [= <-]. exact Ht. Qed.

Lemma sound_at {A} message i t :
  tokens !! i = Some t -> sound (A := A) tokens (Throw (SyntaxError message t)).
Proof. intros Ht. apply sound_SyntaxError. by eapply list_elem_of_lookup_2. Qed.

Lemma sound_syntaxError {A} message i :
  (i < length tokens)%nat ->
  sound (A := A) tokens (Throw (syntaxError message (tokens !! i))).
Proof.
  intros Hi. destruct (lookup_lt_is_Some_2 tokens i Hi) as [t Ht].
  rewrite Ht. by eapply sound_at.
Qed.

Lemma ensureToken_sound o : tokens <> [] -> sound tokens (ensureToken tokens o).
Proof.
  intros Hne. unfold ensureToken. destruct o; [soundSteps|].
  apply sound_syntaxError. destruct tokens; [done | simpl; lia].
Qed.

Lemma deref_sound what i :
  (i < length tokens)%nat -> sound tokens (deref what (tokens !! i)).
Proof.
  intros Hi. destruct (lookup_lt_is_Some_2 tokens i Hi) as [t Ht].
  rewrite Ht. simpl. soundSteps.
Qed.

(** A read right after the last token, when that one is a minus sign or a
    weekday name. *)
Lemma deref_sound_end what i t :
  tokens !! i = Some t -> (value t = "-" \/ isDayKeyword t = true) ->
  sound tokens (deref what (tokens !! S i)).
Proof.
  intros Ht Hv. destruct (tokens !! S i) as [u|] eqn:Hu; simpl; [soundSteps|].
  intros e [= <-]. exists t. split; [|done].
  rewrite last_lookup. apply lookup_ge_None in Hu. apply lookup_lt_Some in Ht as Hlt.
  by replace (pred (length tokens)) with i by lia.
Qed.

Lemma nonempty i : (i < length tokens)%nat -> tokens <> [].
Proof. intros Hi ->. simpl in Hi. lia. Qed.

Lemma parseNumber_sound i : (i < length tokens)%nat -> sound tokens (parseNumber tokens i).
Proof.
  intros Hi. pose proof (nonempty i Hi) as Hne. unfold parseNumber.
  apply sound_bind; [by apply deref_sound | intros t Ht]. apply deref_Ok in Ht.
  apply sound_bind.
  { soundSteps. by eapply sound_at. }
  intros [negative j] Hj. apply sound_bind.
  { repeat stepOk Hj; [|by apply deref_sound].
    apply String.eqb_eq in C0. eapply deref_sound_end; eauto. }
  intros u Hu. apply deref_Ok in Hu. soundSteps.
  - by eapply sound_at.
  - by apply ensureToken_sound.
Qed.

Lemma parseNumberOrDate_sound firstToken i :
  firstToken ∈ tokens -> (i < length tokens)%nat ->
  sound tokens (parseNumberOrDate tokens firstToken i).
Proof.
  intros Hft Hi. pose proof (nonempty i Hi) as Hne. unfold parseNumberOrDate.
  apply sound_bind; [by apply parseNumber_sound | intros [num j] Hj].
  apply parseNumber_progress in Hj as [_ Hj].
  apply sound_bind; [by apply deref_sound | intros t Ht].
  soundSteps; try (by apply sound_SyntaxError); try (by apply ensureToken_sound).
  apply parseNumber_sound. by eapply ensureToken_lt.
Qed.

(** Where [parseValue] leaves the cursor: on a token, or right after the
    weekday name that closes a range. *)
Definition onTokenOrAfterDay (i : nat) : Prop :=
  (i < length tokens)%nat
  \/ exists j t, i = S j /\ tokens !! j = Some t /\ isDayKeyword t = true.

Lemma parseValue_cursor firstToken i v i' :
  parseValue tokens firstToken i = Ok (v, i') -> onTokenOrAfterDay i'.
Proof.
  unfold parseValue, onTokenOrAfterDay. intros H. stepOk H. apply deref_Ok in E.
  apply lookup_lt_Some in E as L. stepOk H; [stepOk H; by left|].
  stepOk H. destruct a0 as [[lo isDay] j]. stepOk H. apply deref_Ok in E1.
  apply lookup_lt_Some in E1 as L1. stepOk H.
  - stepOk H. stepOk H. apply deref_Ok in E3. destruct lo as [lo|lm ld].
    + stepOk H.
      * stepOk H. right. eauto.
      * repeat stepOk H; cursorFacts; left; lia.
    + repeat stepOk H; cursorFacts; left; lia.
  - repeat stepOk H; by left.
Qed.

Lemma parseValue_sound firstToken i :
  firstToken ∈ tokens -> (i < length tokens)%nat ->
  sound tokens (parseValue tokens firstToken i).
Proof.
  intros Hft Hi. pose proof (nonempty i Hi) as Hne. unfold parseValue.
  apply sound_bind; [by apply deref_sound | intros t Ht].
  destruct (value t =? "%")%string; [soundSteps|].
  apply sound_bind.
  { soundSteps; first [by apply ensureToken_sound | by apply parseNumberOrDate_sound]. }
  intros [[lo isDay] j] Hj.
  assert (Lj : (j < length tokens)%nat).
  { repeat stepOk Hj; cursorFacts; lia. }
  apply sound_bind; [by apply deref_sound | intros u Hu].
  destruct (value u =? "-")%string; [|soundSteps].
  apply sound_bind; [by apply ensureToken_sound | intros [] Hs].
  apply ensureToken_lt in Hs.
  apply sound_bind; [by apply deref_sound | intros w Hw].
  destruct lo as [lo|lm ld].
  - destruct (isDayKeyword w); [soundSteps|].
    apply sound_bind; [by apply parseNumberOrDate_sound | intros [hi k] Hk].
    destruct hi; [soundSteps | by apply sound_SyntaxError].
  - apply sound_bind; [by apply parseNumberOrDate_sound | intros [hi k] Hk].
    destruct hi; [by apply sound_SyntaxError | soundSteps].
Qed.

Lemma finishArgument_sound firstToken isExclude v i context :
  onTokenOrAfterDay i ->
  sound tokens (finishArgument tokens firstToken isExclude v i context).
Proof.
  intros Hi. unfold finishArgument.
  assert (Hne : tokens <> []).
  { destruct Hi as [Hi|(j & t & _ & Ht & _)]; [by eapply nonempty|].
    apply lookup_lt_Some in Ht. by eapply nonempty. }
  apply sound_bind.
  { destruct Hi as [Hi|(j & t & -> & Ht & Hd)]; [by apply deref_sound|].
    eapply deref_sound_end; eauto. }
  intros t Ht. apply sound_bind; [|intros [m j] _; soundSteps].
  destruct (value t =? "%")%string; [|soundSteps].
  apply sound_bind; [by apply ensureToken_sound | intros [] Hs].
  apply ensureToken_lt in Hs.
  apply sound_bind; [by apply parseNumber_sound | intros [k j] _]. soundSteps.
Qed.

Lemma buildArgumentBody_sound e i c :
  (i < length tokens)%nat ->
  (forall j c', (j < length tokens)%nat -> sound tokens (e j c')) ->
  sound tokens (buildArgumentBody tokens e i c).
Proof.
  intros Hi He. pose proof (nonempty i Hi) as Hne. unfold buildArgumentBody.
  apply sound_bind; [by apply ensureToken_sound | intros _ _].
  apply sound_bind; [by apply deref_sound | intros firstToken Hft].
  apply deref_Ok in Hft. apply list_elem_of_lookup_2 in Hft as Hin.
  apply sound_bind.
  { soundSteps. by apply ensureToken_sound. }
  intros [exclude j] Hj.
  assert (Lj : (j < length tokens)%nat /\ (exclude = true -> j = S i)).
  { repeat stepOk Hj; cursorFacts; split; first [lia | done]. }
  destruct Lj as [Lj Hex].
  apply sound_bind; [by apply deref_sound | intros t Ht]. apply deref_Ok in Ht.
  destruct (isSpecial t && (value t =? ")")%string); [soundSteps|].
  destruct (isSpecial t && (value t =? ",")%string); [by eapply sound_at|].
  destruct (isExpression t).
  - destruct exclude; [|by apply He].
    rewrite (Hex eq_refl). simpl. rewrite Nat.sub_0_r. by apply sound_syntaxError.
  - apply sound_bind; [by apply parseValue_sound | intros [v k] Hk].
    apply finishArgument_sound. by eapply parseValue_cursor.
Qed.

Lemma buildExpressionBody_sound l i c :
  (i < length tokens)%nat ->
  (forall j c', sound tokens (l j c')) ->
  sound tokens (buildExpressionBody tokens l i c).
Proof.
  intros Hi Hl. unfold buildExpressionBody.
  apply sound_bind; [by apply deref_sound | intros first _].
  destruct (length tokens <=? S i)%nat eqn:L.
  { simpl. rewrite Nat.sub_0_r. by apply sound_syntaxError. }
  apply Nat.leb_gt in L.
  apply sound_bind; [by apply deref_sound | intros t Ht]. apply deref_Ok in Ht.
  destruct (negb (value t =? "(")%string); [by eapply sound_at|].
  apply sound_bind; [apply Hl | intros [j arguments] _].
  soundSteps; by apply sound_syntaxError.
Qed.

Lemma buildArgumentsBody_sound a l i c :
  (forall j c', (j < length tokens)%nat -> sound tokens (a j c')) ->
  (forall j c', sound tokens (l j c')) ->
  sound tokens (buildArgumentsBody tokens a l i c).
Proof.
  intros Ha Hl. unfold buildArgumentsBody.
  destruct (tokens !! i) as [t|] eqn:Ht; [|soundSteps].
  apply lookup_lt_Some in Ht.
  destruct (value t =? ")")%string; [soundSteps|].
  apply sound_bind; [by apply Ha | intros [j arguments] _]. apply Hl.
Qed.

Lemma builders_sound fuel :
  (forall i c, (i < length tokens)%nat -> sound tokens (buildArgument tokens fuel i c))
  /\ (forall i c, (i < length tokens)%nat -> sound tokens (buildExpression tokens fuel i c))
  /\ (forall i c, sound tokens (buildArguments tokens fuel i c)).
Proof.
  induction fuel as [|fuel (IHa & IHe & IHl)].
  { split; [|split]; intros; intros e He; discriminate He. }
  split; [|split].
  - intros i c Hi. by apply buildArgumentBody_sound.
  - intros i c Hi. by apply buildExpressionBody_sound.
  - intros i c. by apply buildArgumentsBody_sound.
Qed.

Lemma buildDocument_sound fuel : forall i ast, sound tokens (buildDocument tokens fuel i ast).
Proof.
  induction fuel as [|fuel IH]; intros i ast; [intros e He; discriminate He|].
  cbn [buildDocument]. destruct (tokens !! i) as [t|] eqn:Ht; [|soundSteps].
  apply lookup_lt_Some in Ht as Hi.
  destruct (isExpression t).
  - apply sound_bind; [by apply builders_sound | intros [j ast'] _]. apply IH.
  - destruct ((0 <? i)%nat && (value t =? ",")%string); [apply IH|].
    by eapply sound_at.
Qed.
End Errors.

(** X18.  Every syntax error that the parser raises carries a token of the
    token array, so that the message rendered from it points into the
    text.  The parser can also fail without a syntax error, by reading a
    property of the token after the last one; this only happens when the
    array ends with a minus sign or with a weekday name (as in [hour(-] and
    in [dow(mon-fri]), the two places where it moves forward without
    calling [ensureToken]. *)
Theorem X18_parse_errors_point_at_tokens (ext : Externals) (tokens : list Token)
    (e : Error) :
  buildAbstractSyntaxTree tokens = Throw e ->
  match e with
  | SyntaxError _ t => t ∈ tokens
  | TypeError _ =>
      exists t, last tokens = Some t /\ (value t = "-" \/ isDayKeyword t = true)
  end.
Proof. intros H. by apply (buildDocument_sound tokens _ _ _ e) in H. Qed.

Lemma X18_parse_errors_point_at_tokens_witness :
  exists t,
    last (tokenize "dow(mon-fri") = Some t
    /\ (value t = "-" \/ isDayKeyword (Externals := specExternals) t = true).
Proof.
  refine (X18_parse_errors_point_at_tokens specExternals (tokenize "dow(mon-fri")
            (TypeError "t.value") _).
  vm_compute. reflexivity.
Defined.

(** * The whole pipeline: what a failure refers to *)

(** The tokens a tree carries, at every depth, are tokens of the array. *)
Fixpoint nodeWithin (tokens : list Token) (n : Node) : Prop :=
  match n with
  | NArgument a => argFirstToken a ∈ tokens
  | NExpression _ arguments firstToken =>
      firstToken ∈ tokens
      /\ (fix all (l : list Node) : Prop :=
            match l with
            | [] => True
            | x :: l => nodeWithin tokens x /\ all l
            end) arguments
  end.

Lemma nodeWithin_expression tokens name arguments firstToken :
  nodeWithin tokens (NExpression name arguments firstToken)
  <-> firstToken ∈ tokens /\ Forall (nodeWithin tokens) arguments.
Proof.
  simpl. apply and_iff_compat_l.
  induction arguments as [|x arguments IH]; [by split|].
  rewrite Forall_cons. by rewrite IH.
Qed.

Lemma nodeWithin_first tokens n : nodeWithin tokens n -> nodeFirstToken n ∈ tokens.
Proof. destruct n as [a|name arguments firstToken]; [done|]. by intros [? _]. Qed.

Section Within.
Context {ext : Externals}.
Variable tokens : list Token.

Definition keepsWithin (b : Builder) : Prop :=
  forall i c i' c',
    b i c = Ok (i', c') ->
    Forall (nodeWithin tokens) c -> Forall (nodeWithin tokens) c'.

Lemma buildArgumentBody_within e :
  keepsWithin e -> keepsWithin (buildArgumentBody tokens e).
Proof.
  intros He i c i' c' H Hc. unfold buildArgumentBody in H.
  stepOk H. stepOk H. apply deref_Ok in E0. apply list_elem_of_lookup_2 in E0.
  stepOk H. destruct a1 as [exclude j]. stepOk H.
  destruct (isSpecial a1 && (value a1 =? ")")%string); [by simplify_eq|].
  destruct (isSpecial a1 && (value a1 =? ",")%string); [done|].
  destruct (isExpression a1).
  - destruct exclude; [done|]. by eapply He.
  - stepOk H. destruct a2 as [v k].
    apply finishArgument_progress in H as (_ & _ & _ & m & ->).
    apply Forall_app. split; [done|]. by constructor.
Qed.

Lemma buildExpressionBody_within l :
  keepsWithin l -> keepsWithin (buildExpressionBody tokens l).
Proof.
  intros Hl i c i' c' H Hc. unfold buildExpressionBody in H.
  stepOk H. apply deref_Ok in E. apply list_elem_of_lookup_2 in E.
  destruct (length tokens <=? S i)%nat; [done|]. stepOk H.
  destruct (negb (value a0 =? "(")%string); [done|].
  stepOk H. destruct a1 as [j arguments].
  pose proof (Hl _ _ _ _ E1 (Forall_nil_2 _)) as Hargs.
  repeat stepOk H. apply Forall_app. split; [done|]. constructor; [|done].
  by apply nodeWithin_expression.
Qed.

Lemma buildArgumentsBody_within a l :
  keepsWithin a -> keepsWithin l -> keepsWithin (buildArgumentsBody tokens a l).
Proof.
  intros Ha Hl i c i' c' H Hc. unfold buildArgumentsBody in H.
  destruct (tokens !! i) as [t|]; [|by simplify_eq].
  destruct (value t =? ")")%string; [by simplify_eq|].
  stepOk H. destruct a0 as [j arguments]. eapply Hl; [exact H|]. by eapply Ha.
Qed.

Lemma builders_within fuel :
  keepsWithin (buildArgument tokens fuel)
  /\ keepsWithin (buildExpression tokens fuel)
  /\ keepsWithin (buildArguments tokens fuel).
Proof.
  induction fuel as [|fuel (IHa & IHe & IHl)].
  { split; [|split]; intros i c i' c' H; discriminate H. }
  split; [|split].
  - by apply buildArgumentBody_within.
  - by apply buildExpressionBody_within.
  - by apply buildArgumentsBody_within.
Qed.

Lemma buildDocument_within fuel : forall i ast ast',
  buildDocument tokens fuel i ast = Ok ast' ->
  Forall (nodeWithin tokens) ast -> Forall (nodeWithin tokens) ast'.
Proof.
  induction fuel as [|fuel IH]; intros i ast ast' H Hast; [done|].
  cbn [buildDocument] in H. destruct (tokens !! i) as [t|]; [|by simplify_eq].
  destruct (isExpression t).
  - stepOk H. destruct a as [j ast1]. eapply IH; [exact H|].
    by eapply (proj1 (proj2 (builders_within fuel))).
  - destruct ((0 <? i)%nat && (value t =? ",")%string); [|done]. by eapply IH.
Qed.

(** The compiler raises syntax errors only, on tokens of the tree. *)
Lemma normalize_sound name propType min max arg :
  nodeWithin tokens arg -> sound tokens (normalize name propType min max arg).
Proof.
  intros Harg. pose proof (nodeWithin_first _ _ Harg) as Hft.
  assert (Ha : forall a, arg = NArgument a -> argFirstToken a ∈ tokens).
  { by intros a ->. }
  unfold normalize, normalizeDates, normalizeNumeric, validate.
  soundSteps; try (by apply sound_SyntaxError).
  all: try (apply sound_SyntaxError; by apply Ha).
Qed.

Lemma compileArguments_sound name propType min max args : forall state,
  Forall (nodeWithin tokens) args ->
  sound tokens (compileArguments name propType min max args state).
Proof.
  induction args as [|arg args IH]; intros state Hargs; simpl; [soundSteps|].
  apply Forall_cons in Hargs as [Harg Hargs].
  apply sound_bind; [|intros rule _; by apply IH].
  unfold compileArgument. apply sound_bind; [by apply normalize_sound|].
  intros r _. soundSteps.
Qed.

Lemma compileExpression_sound cmd state :
  nodeWithin tokens cmd -> sound tokens (compileExpression cmd state).
Proof.
  intros Hcmd. unfold compileExpression.
  destruct cmd as [a|cmdName arguments firstToken]; [by apply sound_SyntaxError|].
  apply nodeWithin_expression in Hcmd as [Hft Hargs].
  destruct (negb (isAscii cmdName)); [soundSteps|].
  destruct (fieldOf (toLowerCase cmdName)) as [[[propType min] max]|];
    [|by apply sound_SyntaxError].
  destruct arguments as [|arg arguments].
  - destruct (propType =? "dates")%string; [soundSteps|].
    apply compileArguments_sound. by repeat constructor.
  - by apply compileArguments_sound.
Qed.

Lemma compileExpressions_sound expressions : forall state,
  Forall (nodeWithin tokens) expressions ->
  sound tokens (compileExpressions expressions state).
Proof.
  induction expressions as [|cmd expressions IH]; intros state H; simpl; [soundSteps|].
  apply Forall_cons in H as [Hcmd H].
  apply sound_bind; [by apply compileExpression_sound | intros state' _; by apply IH].
Qed.

Lemma compileGroup_sound expressions :
  Forall (nodeWithin tokens) expressions -> sound tokens (compileGroup expressions).
Proof.
  intros H. unfold compileGroup.
  apply sound_bind; [by apply compileExpressions_sound | intros [rule b] _]. soundSteps.
Qed.

Lemma compileNodes_sound ast : forall rules g,
  Forall (nodeWithin tokens) ast -> sound tokens (compileNodes ast rules g).
Proof.
  induction ast as [|cmd ast IH]; intros rules g H; simpl; [soundSteps|].
  apply Forall_cons in H as [Hcmd H].
  destruct cmd as [a|name arguments firstToken]; [by apply sound_SyntaxError|].
  apply nodeWithin_expression in Hcmd as [Hft Hargs].
  destruct (name =? "group")%string; [|by apply IH].
  apply sound_bind; [by apply compileGroup_sound | intros [rule|] _].
  - by apply IH.
  - by apply sound_SyntaxError.
Qed.

Lemma compileNodes_within ast : forall rules g rules' g',
  compileNodes ast rules g = Ok (rules', g') ->
  Forall (nodeWithin tokens) ast -> Forall (nodeWithin tokens) g ->
  Forall (nodeWithin tokens) g'.
Proof.
  induction ast as [|cmd ast IH]; intros rules g rules' g' H Hast Hg.
  { simpl in H. by simplify_eq. }
  apply Forall_cons in Hast as [Hcmd Hast]. simpl in H.
  destruct cmd as [a|name arguments firstToken]; [done|].
  destruct (name =? "group")%string.
  - stepOk H. destruct a as [rule|]; [|done]. by eapply IH.
  - eapply IH; [exact H | done |]. apply Forall_app. split; [done|]. by constructor.
Qed.

Lemma compile_sound ast :
  Forall (nodeWithin tokens) ast -> sound tokens (compile ast).
Proof.
  intros Hast. unfold compile.
  apply sound_bind; [by apply compileNodes_sound | intros [rules g] Hg].
  apply compileNodes_within in Hg; [|done|constructor].
  destruct (0 <? length g)%nat eqn:L; [|soundSteps].
  apply sound_bind; [by apply compileGroup_sound | intros [rule|] Hrule]; [soundSteps|].
  apply compileGroup_null in Hrule as ->. discriminate L.
Qed.
End Within.

(** X19.  Every syntax error raised by the pipeline on a text, by the parser
    or by the compiler, carries a token of the text's token array: the
    compiler reports its errors on the first tokens of the arguments and
    expressions of the tree, and the parser takes these from the array.
    The only other failure of the pipeline is the one of the parser on a
    text that ends with a minus sign or a weekday name; the compiler raises
    nothing but syntax errors. *)
Theorem X19_errors_point_into_the_text (ext : Externals) (text : string) (e : Error) :
  schedule text = Throw e ->
  match e with
  | SyntaxError _ t => t ∈ tokenize text
  | TypeError _ =>
      exists t,
        last (tokenize text) = Some t /\ (value t = "-" \/ isDayKeyword t = true)
  end.
Proof.
  intros H. revert e H. change (sound (tokenize text) (schedule text)).
  unfold schedule. apply sound_bind; [apply buildDocument_sound | intros ast Hast].
  apply compile_sound. eapply buildDocument_within; [exact Hast | constructor].
Qed.

Lemma X19_errors_point_into_the_text_witness :
  mkToken 12 "24" false ∈ tokenize "min(0) hour(24)".
Proof.
  refine (X19_errors_point_into_the_text specExternals "min(0) hour(24)"
            (SyntaxError "Maximum hours value is 23" (mkToken 12 "24" false)) _).
  vm_compute. reflexivity.
Defined.

(** * The dates the compiler takes from the parser *)

(** A month from 1 to 12 with a day of that month, as the parser checks
    it. *)
Definition validDate {ext : Externals} (month day : Z) : Prop :=
  1 <= month <= 12 /\ 1 <= day <= daysInMonth (month - 1).

(** Every date in a tree, at every depth, is a date of the calendar. *)
Fixpoint nodeDated {ext : Externals} (n : Node) : Prop :=
  match n with
  | NArgument a =>
      match argValue a with
      | dates lowMonth lowDay highMonth highDay =>
          validDate lowMonth lowDay /\ validDate highMonth highDay
      | _ => True
      end
  | NExpression _ arguments _ =>
      (fix all (l : list Node) : Prop :=
         match l with
         | [] => True
         | x :: l => nodeDated x /\ all l
         end) arguments
  end.

(** A Range whose date bounds, if it has any, are a zero-based month with a
    day of that month. *)
Definition calendarRange {ext : Externals} (r : Range) : Prop :=
  forall month day,
    low r = BDate month day \/ high r = BDate month day ->
    0 <= month <= 11 /\ 1 <= day <= daysInMonth month.

Definition calendarRule {ext : Externals} (rule : RuleGroup) : Prop :=
  forall prop l, rule !! prop = Some l -> Forall calendarRange l.

Lemma nodeDated_expression {ext : Externals} name arguments firstToken :
  nodeDated (NExpression name arguments firstToken) <-> Forall nodeDated arguments.
Proof.
  simpl. induction arguments as [|x arguments IH]; [by split|].
  rewrite Forall_cons. by rewrite IH.
Qed.

Section Dated.
Context {ext : Externals}.
Variable tokens : list Token.

Definition keepsDated (b : Builder) : Prop :=
  forall i c i' c', b i c = Ok (i', c') -> Forall nodeDated c -> Forall nodeDated c'.

Lemma buildArgumentBody_dated e : keepsDated e -> keepsDated (buildArgumentBody tokens e).
Proof.
  intros He i c i' c' H Hc. unfold buildArgumentBody in H.
  stepOk H. stepOk H. stepOk H. destruct a1 as [exclude j]. stepOk H.
  destruct (isSpecial a1 && (value a1 =? ")")%string); [by simplify_eq|].
  destruct (isSpecial a1 && (value a1 =? ",")%string); [done|].
  destruct (isExpression a1).
  - destruct exclude; [done|]. by eapply He.
  - stepOk H. destruct a2 as [v k].
    apply finishArgument_progress in H as (_ & _ & _ & m & ->).
    apply Forall_app. split; [done|]. constructor; [|done]. simpl.
    destruct v; try done. by apply parseValue_dates_valid in E3.
Qed.

Lemma buildExpressionBody_dated l : keepsDated l -> keepsDated (buildExpressionBody tokens l).
Proof.
  intros Hl i c i' c' H Hc. unfold buildExpressionBody in H.
  stepOk H. destruct (length tokens <=? S i)%nat; [done|]. stepOk H.
  destruct (negb (value a0 =? "(")%string); [done|].
  stepOk H. destruct a1 as [j arguments].
  pose proof (Hl _ _ _ _ E1 (Forall_nil_2 _)) as Hargs.
  repeat stepOk H. apply Forall_app. split; [done|]. constructor; [|done].
  by apply nodeDated_expression.
Qed.

Lemma buildArgumentsBody_dated a l :
  keepsDated a -> keepsDated l -> keepsDated (buildArgumentsBody tokens a l).
Proof.
  intros Ha Hl i c i' c' H Hc. unfold buildArgumentsBody in H.
  destruct (tokens !! i) as [t|]; [|by simplify_eq].
  destruct (value t =? ")")%string; [by simplify_eq|].
  stepOk H. destruct a0 as [j arguments]. eapply Hl; [exact H|]. by eapply Ha.
Qed.

Lemma builders_dated fuel :
  keepsDated (buildArgument tokens fuel)
  /\ keepsDated (buildExpression tokens fuel)
  /\ keepsDated (buildArguments tokens fuel).
Proof.
  induction fuel as [|fuel (IHa & IHe & IHl)].
  { split; [|split]; intros i c i' c' H; discriminate H. }
  split; [|split].
  - by apply buildArgumentBody_dated.
  - by apply buildExpressionBody_dated.
  - by apply buildArgumentsBody_dated.
Qed.

Lemma buildDocument_dated fuel : forall i ast ast',
  buildDocument tokens fuel i ast = Ok ast' ->
  Forall nodeDated ast -> Forall nodeDated ast'.
Proof.
  induction fuel as [|fuel IH]; intros i ast ast' H Hast; [done|].
  cbn [buildDocument] in H. destruct (tokens !! i) as [t|]; [|by simplify_eq].
  destruct (isExpression t).
  - stepOk H. destruct a as [j ast1]. eapply IH; [exact H|].
    by eapply (proj1 (proj2 (builders_dated fuel))).
  - destruct ((0 <? i)%nat && (value t =? ",")%string); [|done]. by eapply IH.
Qed.
End Dated.

Section Calendar.
Context {ext : Externals}.
Hypothesis daysInMonth_small : forall month, daysInMonth month <= 31.

Lemma normalize_calendar name propType min max arg r :
  normalize name propType min max arg = Ok r -> nodeDated arg -> calendarRange r.
Proof.
  unfold normalize. intros H Harg. stepOk H. destruct a as [[lo hi] sp].
  assert (G : forall month day,
            lo = BDate month day \/ hi = BDate month day ->
            0 <= month <= 11 /\ 1 <= day <= daysInMonth month).
  { destruct (propType =? "dates")%string.
    - unfold normalizeDates in E.
      destruct arg as [[[|?|? ?|? ?|lm ld hm hd] ? ? ?]|]; try discriminate.
      destruct Harg as [[H1 H2] [H3 H4]].
      pose proof (daysInMonth_small (lm - 1)). pose proof (daysInMonth_small (hm - 1)).
      rewrite !toInt32_small in E by lia. simplify_eq.
      intros month day [[= <- <-]|[= <- <-]]; split; first [lia | done].
    - stepOk E. destruct a as [[l0 h0] sp0]. stepOk E. destruct a as [l h].
      simplify_eq. by intros month day [?|?]. }
  destruct (nodeModulus arg) as [k|]; repeat stepOk H; exact G.
Qed.

Lemma calendarRule_pushRange rule prop r :
  calendarRule rule -> calendarRange r -> calendarRule (pushRange prop r rule).
Proof.
  intros Hrule Hr prop' l H. destruct (decide (prop = prop')) as [<-|Hne].
  - rewrite lookup_pushRange in H. simplify_eq. apply Forall_app. split; [|by constructor].
    destruct (rule !! prop) as [l|] eqn:Hl; [by apply (Hrule prop l) | constructor].
  - rewrite lookup_pushRange_ne in H by done. by apply (Hrule prop').
Qed.

Lemma calendarRule_default rule prop :
  calendarRule rule -> calendarRule (<[prop := [Range00]]> rule).
Proof.
  intros Hrule prop' l H. destruct (decide (prop = prop')) as [<-|Hne].
  - rewrite lookup_insert_eq in H. simplify_eq. constructor; [|done].
    by intros month day [?|?].
  - rewrite lookup_insert_ne in H by done. by apply (Hrule prop').
Qed.

Lemma calendarRule_impliedValues rule : calendarRule rule -> calendarRule (impliedValues rule).
Proof.
  intros H. unfold impliedValues.
  repeat match goal with
         | |- context [if ?b then _ else _] => destruct b
         end; repeat apply calendarRule_default; done.
Qed.

Lemma compileArguments_calendar name propType min max args : forall rule b rule' b',
  compileArguments name propType min max args (rule, b) = Ok (rule', b') ->
  Forall nodeDated args -> calendarRule rule -> calendarRule rule'.
Proof.
  induction args as [|arg args IH]; intros rule b rule' b' H Hargs Hrule.
  { simpl in H. by simplify_eq. }
  apply Forall_cons in Hargs as [Harg Hargs].
  simpl in H. stepOk H. eapply IH; [exact H | done |].
  unfold compileArgument in E. stepOk E. simplify_eq.
  apply calendarRule_pushRange; [done|]. by eapply normalize_calendar.
Qed.

Lemma compileExpression_calendar cmd rule b rule' b' :
  compileExpression cmd (rule, b) = Ok (rule', b') ->
  nodeDated cmd -> calendarRule rule -> calendarRule rule'.
Proof.
  unfold compileExpression. intros H Hcmd Hrule.
  destruct cmd as [a|cmdName arguments firstToken]; [done|].
  apply nodeDated_expression in Hcmd.
  destruct (isAscii cmdName); [|done]. cbn [negb] in H.
  destruct (fieldOf (toLowerCase cmdName)) as [[[propType min] max]|]; [|done].
  destruct arguments as [|arg arguments].
  - destruct (propType =? "dates")%string; [simpl in H; by simplify_eq|].
    eapply compileArguments_calendar; [exact H | | exact Hrule]. by repeat constructor.
  - eapply compileArguments_calendar; [exact H | exact Hcmd | exact Hrule].
Qed.

Lemma compileExpressions_calendar expressions : forall rule b rule' b',
  compileExpressions expressions (rule, b) = Ok (rule', b') ->
  Forall nodeDated expressions -> calendarRule rule -> calendarRule rule'.
Proof.
  induction expressions as [|cmd expressions IH]; intros rule b rule' b' H Hall Hrule.
  { simpl in H. by simplify_eq. }
  apply Forall_cons in Hall as [Hcmd Hall].
  simpl in H. stepOk H. destruct a as [rule1 b1].
  eapply IH; [exact H | done |]. by eapply compileExpression_calendar.
Qed.

Lemma compileGroup_calendar expressions rule :
  compileGroup expressions = Ok (Some rule) ->
  Forall nodeDated expressions -> calendarRule rule.
Proof.
  unfold compileGroup. intros H Hall. stepOk H. destruct a as [rule0 b].
  destruct b; [|done]. simpl in H. simplify_eq.
  apply calendarRule_impliedValues. eapply compileExpressions_calendar; [exact E | done |].
  intros prop l Hl. by rewrite lookup_empty in Hl.
Qed.

Lemma compileNodes_calendar ast : forall rules g rules' g',
  compileNodes ast rules g = Ok (rules', g') ->
  Forall nodeDated ast -> Forall nodeDated g -> Forall calendarRule rules ->
  Forall nodeDated g' /\ Forall calendarRule rules'.
Proof.
  induction ast as [|cmd ast IH]; intros rules g rules' g' H Hast Hg Hr.
  { simpl in H. by simplify_eq. }
  apply Forall_cons in Hast as [Hcmd Hast]. simpl in H.
  destruct cmd as [a|name arguments firstToken]; [done|].
  destruct (name =? "group")%string.
  - stepOk H. destruct a as [rule|]; [|done].
    apply nodeDated_expression in Hcmd.
    eapply IH; [exact H | done | done |]. apply Forall_app. split; [done|].
    constructor; [|done]. by eapply compileGroup_calendar.
  - eapply IH; [exact H | done | | done]. apply Forall_app. split; [done|].
    by constructor.
Qed.

Lemma compile_calendar ast rules :
  compile ast = Ok rules -> Forall nodeDated ast -> Forall calendarRule rules.
Proof.
  unfold compile. intros H Hast. stepOk H. destruct a as [rules0 g].
  apply compileNodes_calendar in E as [Hg Hr]; [|done|constructor|constructor].
  destruct (0 <? length g)%nat; [|by simplify_eq].
  stepOk H. destruct a as [rule|]; [|repeat stepOk H]. simplify_eq.
  apply Forall_app. split; [done|]. constructor; [|done].
  by eapply compileGroup_calendar.
Qed.
End Calendar.

(** X20.  The compiler does not check the dates of a [date] expression: it
    relies on the parser having validated them.  The two fit together: in
    every rule group that the pipeline builds from a text, each bound of a
    Range of dates is a zero-based month from 0 to 11 with a day from 1 to
    the number of days of that month (months having at most 31 days). *)
Theorem X20_compiled_dates_are_calendar_dates (ext : Externals) (text : string)
    (rules : list RuleGroup) :
  (forall month, daysInMonth month <= 31) ->
  schedule text = Ok rules ->
  Forall calendarRule rules.
Proof.
  intros Hdays H. unfold schedule in H. apply bind_Ok in H as (ast & Hast & H).
  eapply compile_calendar; [exact Hdays | exact H |].
  eapply buildDocument_dated; [exact Hast | constructor].
Qed.

Lemma specExternals_daysInMonth month :
  daysInMonth (Externals := specExternals) month <= 31.
Proof.
  simpl. generalize (Z.to_nat month). intros n.
  do 12 (destruct n as [|n]; [simpl; lia|]). simpl. destruct n; lia.
Qed.

Lemma X20_compiled_dates_are_calendar_dates_witness :
  Forall (calendarRule (ext := specExternals))
    [impliedValues
       (pushRange "dates" (mkRange (BDate 1 29) (BDate 2 1) false None) ∅)].
Proof.
  refine (X20_compiled_dates_are_calendar_dates specExternals "date(2/29-3/1)" _
            specExternals_daysInMonth _).
  vm_compute. reflexivity.
Defined.

(** * The order of the checks on a range *)

Lemma normalize_range_bounds name propType min max l h exclude m argToken :
  fieldOf name = Some (propType, min, max) ->
  propType <> "dates" ->
  - 2 ^ 31 <= l < 2 ^ 31 -> - 2 ^ 31 <= h < 2 ^ 31 ->
  let result :=
    normalize name propType min max
      (NArgument (mkArgument (range l h) exclude m argToken)) in
  (l < min \/ h < min ->
     result = Throw (SyntaxError
                       ("Minimum " ++ propType ++ " value is " ++ numberToString min)
                       argToken))
  /\ (min <= l -> min <= h -> max < l \/ max < h ->
      result = Throw (SyntaxError
                        ("Maximum " ++ propType ++ " value is " ++ numberToString max)
                        argToken)).
Proof.
  intros Hf Hd Hl Hh result. subst result.
  eachField Hf; try done;
    unfold normalize, normalizeNumeric, normalizeDays, validate, nodeModulus,
      nodeFirstToken;
    cbn [argValue argModulus argFirstToken String.eqb Ascii.eqb Bool.eqb negb andb orb];
    rewrite !toInt32_small by lia;
    generalize (truthy m); intros b;
    try (generalize ((l >? h) && negb ((l >=? 0) && (h <? 0))); intros s);
    (split; [intros Hmin | intros Hmin1 Hmin2 Hmax]);
    repeat match goal with
           | |- context [if ?c then _ else _] => destruct c eqn:?
           end;
    cbn [mbind Result_bind]; comparisons; try lia;
    decideComparisons; cbn [orb mbind Result_bind]; first [reflexivity | lia].
Qed.

(** X22.  The bounds of a range are checked in a fixed order, under every
    name of a field other than [dates]: a range with a bound below the
    field's minimum raises "Minimum <field> value is <min>", also when its
    other bound is above the maximum; otherwise a bound above the maximum
    raises "Maximum <field> value is <max>".  Both checks come before the
    day-of-month check for zero, so that [dom(0-32)] is reported for its 32.
    (Stated for bounds that fit a signed 32-bit integer.) *)
Theorem X22_bounds_checked_in_order (cmdName propType : string) (min max l h : Z)
    (exclude : bool) (m : option Z) (firstToken argToken : Token) :
  isAscii cmdName = true ->
  fieldOf (toLowerCase cmdName) = Some (propType, min, max) ->
  propType <> "dates" ->
  - 2 ^ 31 <= l < 2 ^ 31 -> - 2 ^ 31 <= h < 2 ^ 31 ->
  let compiled :=
    compileGroup
      [NExpression cmdName [NArgument (mkArgument (range l h) exclude m argToken)]
         firstToken] in
  (l < min \/ h < min ->
     compiled = Throw (SyntaxError
                         ("Minimum " ++ propType ++ " value is " ++ numberToString min)
                         argToken))
  /\ (min <= l -> min <= h -> max < l \/ max < h ->
      compiled = Throw (SyntaxError
                          ("Maximum " ++ propType ++ " value is " ++ numberToString max)
                          argToken)).
Proof.
  intros Ha Hf Hd Hl Hh compiled. subst compiled.
  destruct (normalize_range_bounds _ _ _ _ l h exclude m argToken Hf Hd Hl Hh)
    as [Hmin Hmax].
  split.
  - intros H. apply (compileGroup_single_Throw _ _ _ _ _ _ _ Ha Hf). by apply Hmin.
  - intros H1 H2 H. apply (compileGroup_single_Throw _ _ _ _ _ _ _ Ha Hf).
    by apply Hmax.
Qed.

Lemma X22_bounds_checked_in_order_witness :
  compileGroup
    [NExpression "dom"
       [NArgument (mkArgument (range 0 32) false None (mkToken 4 "0" false))]
       (mkToken 0 "dom" false)]
  = Throw (SyntaxError "Maximum daysOfMonth value is 31" (mkToken 4 "0" false)).
Proof.
  refine (proj2 (X22_bounds_checked_in_order "dom" "daysOfMonth" (-31) 31 0 32
                   false None (mkToken 0 "dom" false) (mkToken 4 "0" false)
                   _ _ _ _ _) _ _ _).
  - vm_compute. reflexivity.
  - vm_compute. reflexivity.
  - discriminate.
  - lia.
  - lia.
  - lia.
  - lia.
  - right. lia.
Defined.
